(** * CameraFuzzer: a shallow embedding of [src/graphics/fuzzer.py]

    The fuzzer is a Python class whose methods mutate dictionaries and
    lists, draw random numbers, read the clock, spawn a process and write
    files.  The embedding keeps all of that explicit:

    - Python objects that can be shared (the input dictionaries and the
      [position] / [rotation] lists stored in them) live in a heap and are
      handled through locations;
    - every method is a computation in a state-and-exception monad over a
      [World] holding the heap, the entropy consumed by [random] and
      [os.urandom], the clock, the file system, the outcome of the next
      child process and the fields of [self];
    - Python floats are IEEE binary64 values ([spec_float] with precision 53),
      [struct.pack('f', ...)] rounds them to binary32 and lays the bit
      pattern out in little-endian order.

    Covered: the mutation strategies and [mutate_input], [write_input_file]
    and [read_input_file], [extract_coverage] and [hash_coverage],
    [execute_target], [is_interesting], [fuzz_iteration], [save_crash],
    [save_interesting_input], [process_result], [load_corpus] and
    [generate_initial_corpus] with [_random_quaternion].  The process pool
    of [run], the report and the [print] calls are not modelled. *)

From Stdlib Require Import ZArith Lia Bool List.
From Stdlib Require Import Strings.String Strings.Ascii Strings.Byte.
From Stdlib Require Import Floats.SpecFloat.
From stdpp Require Import gmap strings list fin_maps pretty sorting.

Local Open Scope Z_scope.

(** ** Python floats *)

Module PyFloat.

Definition prec : Z := 53.
Definition emax : Z := 1024.

Definition float := spec_float.

Definition add : float -> float -> float := SFadd prec emax.
Definition sub : float -> float -> float := SFsub prec emax.
Definition abs : float -> float := SFabs.
Definition ltb : float -> float -> bool := SFltb.
Definition leb : float -> float -> bool := SFleb.

(** [float(n)] for a Python int [n] (the deltas of [arithmetic_mutation]
    and the integer literals of the seed corpus). *)
Definition of_Z (n : Z) : float := binary_normalize prec emax n 0 false.

(** [int(x)]: truncation towards zero; [None] stands for the
    [OverflowError] / [ValueError] raised on infinities and NaN. *)
Definition to_Z (x : float) : option Z :=
  match x with
  | S754_zero _ => Some 0
  | S754_finite s m e =>
      let a := if 0 <=? e then Z.pos m * 2 ^ e else Z.pos m / 2 ^ (- e) in
      Some (if s then - a else a)
  | _ => None
  end.

(** The literals that occur in the source, as their binary64 values. *)
Definition zero : float := S754_zero false.
Definition neg_zero : float := S754_zero true.
Definition one : float := of_Z 1.
Definition neg_one : float := of_Z (-1).
Definition inf : float := S754_infinity false.
Definition neg_inf : float := S754_infinity true.
Definition nan : float := S754_nan.
(** 0.1 = 0x1.999999999999ap-4 *)
Definition lit_0_1 : float := S754_finite false 7205759403792794 (-56).
(** 0.3 = 0x1.3333333333333p-2 *)
Definition lit_0_3 : float := S754_finite false 5404319552844595 (-54).
(** 0.5 = 0x1.0p-1 *)
Definition lit_0_5 : float := S754_finite false 4503599627370496 (-53).
(** 1e-6 = 0x1.0c6f7a0b5ed8dp-20 *)
Definition lit_1em6 : float := S754_finite false 4722366482869645 (-72).

End PyFloat.

Abbreviation float := PyFloat.float.

(** ** Bytes *)

Definition byte_of_Z (z : Z) : byte :=
  default "000"%byte (Byte.of_N (Z.to_N (z mod 256))).

Definition Z_of_byte (b : byte) : Z := Z.of_N (Byte.to_N b).

(** [a ^ b] on two byte values. *)
Definition byte_xor (a : byte) (m : Z) : byte :=
  byte_of_Z (Z.lxor (Z_of_byte a) m).

(** ** [struct.pack] / [struct.unpack] with the native format ['f'] *)

Module Struct.

(** The C cast [(float)x] done by the native ['f'] packer: round to
    nearest even in binary32; a value too large becomes an infinity (the
    native packer does not raise on overflow). *)
Definition to_binary32 (x : float) : spec_float :=
  match x with
  | S754_finite s m e => binary_round 24 128 s m e
  | _ => x
  end.

Definition sign_bit (s : bool) : Z := if s then 2 ^ 31 else 0.

(** The IEEE binary32 bit pattern.  [spec_float] has a single NaN, which
    is written as the quiet NaN [0x7fc00000]. *)
Definition bits_of_binary32 (x : spec_float) : Z :=
  match x with
  | S754_zero s => sign_bit s
  | S754_infinity s => sign_bit s + 255 * 2 ^ 23
  | S754_nan => 255 * 2 ^ 23 + 2 ^ 22
  | S754_finite s m e =>
      if 2 ^ 23 <=? Z.pos m
      then sign_bit s + (e + 150) * 2 ^ 23 + (Z.pos m - 2 ^ 23)
      else sign_bit s + Z.pos m
  end.

Definition binary32_of_bits (b : Z) : spec_float :=
  let s := 2 ^ 31 <=? b in
  let ex := (b / 2 ^ 23) mod 256 in
  let frac := b mod 2 ^ 23 in
  if ex =? 0 then
    match frac with
    | Z.pos m => S754_finite s m (-149)
    | _ => S754_zero s
    end
  else if ex =? 255 then
    if frac =? 0 then S754_infinity s else S754_nan
  else
    match frac + 2 ^ 23 with
    | Z.pos m => S754_finite s m (ex - 150)
    | _ => S754_nan
    end.

(** Four bytes, least significant first. *)
Definition le_bytes (b : Z) : list byte :=
  [byte_of_Z b; byte_of_Z (b / 2 ^ 8); byte_of_Z (b / 2 ^ 16); byte_of_Z (b / 2 ^ 24)].

Definition le_word (bs : list byte) : Z :=
  match bs with
  | [b0; b1; b2; b3] =>
      Z_of_byte b0 + 2 ^ 8 * Z_of_byte b1 + 2 ^ 16 * Z_of_byte b2 + 2 ^ 24 * Z_of_byte b3
  | _ => 0
  end.

Definition pack_f (x : float) : list byte := le_bytes (bits_of_binary32 (to_binary32 x)).

(** Widening a binary32 value to a Python float is exact; only the
    representation changes (the mantissa is realigned to 53 bits). *)
Definition of_binary32 (x : spec_float) : float :=
  match x with
  | S754_finite s m e => binary_round PyFloat.prec PyFloat.emax s m e
  | _ => x
  end.

Definition unpack_f (bs : list byte) : float :=
  of_binary32 (binary32_of_bits (le_word bs)).

(** [struct.pack('<n>f', *xs)]: [None] is [struct.error] (wrong number of
    items). *)
Definition pack (n : nat) (xs : list float) : option (list byte) :=
  if decide (length xs = n) then Some (concat (map pack_f xs)) else None.

Fixpoint chunks4 (n : nat) (bs : list byte) : list (list byte) :=
  match n with
  | O => []
  | S n' => take 4 bs :: chunks4 n' (drop 4 bs)
  end.

(** [struct.unpack('<n>f', buf)]: [None] is [struct.error] (the buffer is
    not exactly [4 * n] bytes long). *)
Definition unpack (n : nat) (buf : list byte) : option (list float) :=
  if decide (length buf = (4 * n)%nat) then Some (map unpack_f (chunks4 n buf)) else None.

End Struct.

(** ** Python sequences: indexing and slicing *)

Definition len {A} (l : list A) : Z := Z.of_nat (length l).

(** A slice bound, clamped the way Python clamps it (negative bounds count
    from the end). *)
Definition clamp (n i : Z) : Z :=
  if i <? 0 then Z.max 0 (i + n) else Z.min i n.

(** [l[a:b]] *)
Definition slice {A} (l : list A) (a b : Z) : list A :=
  let a' := clamp (len l) a in
  let b' := clamp (len l) b in
  take (Z.to_nat (b' - a')) (drop (Z.to_nat a') l).

(** [l[a:b] = v] on a mutable sequence *)
Definition slice_assign {A} (l : list A) (a b : Z) (v : list A) : list A :=
  let a' := clamp (len l) a in
  let b' := Z.max a' (clamp (len l) b) in
  take (Z.to_nat a') l ++ v ++ drop (Z.to_nat b') l.

(** ** The world *)

Definition loc := nat.

(** An input is a Python dict with the optional keys ['position'],
    ['rotation'], ['zoom'] and ['bytes'].  The first two hold references to
    list objects; floats and [bytes] objects are immutable values.  Integer
    components (the literal seeds) are represented by their float value. *)
Record InputDict := {
  position : option loc;
  rotation : option loc;
  zoom : option float;
  bytes : option (list byte)
}.

Inductive Obj :=
| ODict (d : InputDict)
| OList (xs : list float).

(** The dict returned by [execute_target], later extended by
    [fuzz_iteration] with ['input'] and ['interesting'].  A key that may be
    missing is an [option]. *)
Record ExecResult := {
  execution_time : float;
  exit_code : Z;
  crashed : bool;
  timeout : bool;
  stdout : string;
  stderr : string;
  coverage : option (list Z);
  signal : option Z;
  input : option loc;
  interesting : option bool
}.

Record Stats := {
  start_time : float;
  total_executions : Z;
  crashes : Z;
  timeouts : Z;
  interesting_inputs : Z;
  coverage_increase : Z
}.

(** The fields of [self] that the methods read or update. *)
Record CameraFuzzer := {
  target_binary : string;
  corpus_dir : string;
  crashes_dir : string;
  stats : Stats;
  coverage_map : gmap string bool;
  unique_crashes : gset string
}.

(** What [subprocess.run(cmd, capture_output=True, timeout=2.0)] does: the
    child ends with a return code (its two streams are given as already
    decoded text), or the hard timeout expires, or the child cannot be
    started. *)
Inductive ProcOutcome :=
| Exited (returncode : Z) (out err : string)
| HardTimeout
| SpawnError.

(** A flat file system: a path is a directory or a regular file with a
    mode and a content.  Parent directories are not tracked. *)
Inductive Node :=
| Dir
| File (mode : Z) (content : list byte).

Record World := {
  heap : list Obj;
  entropy : nat -> Z;
  cursor : nat;
  clock : nat -> float;
  isoclock : nat -> string;
  child : nat -> ProcOutcome;
  tick : nat;
  pid : Z;
  fs : gmap string Node;
  self : CameraFuzzer
}.

Definition set_heap (h : list Obj) (w : World) : World :=
  {| heap := h; entropy := entropy w; cursor := cursor w; clock := clock w;
     isoclock := isoclock w; child := child w; tick := tick w; pid := pid w;
     fs := fs w; self := self w |}.

Definition set_cursor (c : nat) (w : World) : World :=
  {| heap := heap w; entropy := entropy w; cursor := c; clock := clock w;
     isoclock := isoclock w; child := child w; tick := tick w; pid := pid w;
     fs := fs w; self := self w |}.

Definition set_tick (t : nat) (w : World) : World :=
  {| heap := heap w; entropy := entropy w; cursor := cursor w; clock := clock w;
     isoclock := isoclock w; child := child w; tick := t; pid := pid w;
     fs := fs w; self := self w |}.

Definition set_fs (f : gmap string Node) (w : World) : World :=
  {| heap := heap w; entropy := entropy w; cursor := cursor w; clock := clock w;
     isoclock := isoclock w; child := child w; tick := tick w; pid := pid w;
     fs := f; self := self w |}.

Definition set_self (s : CameraFuzzer) (w : World) : World :=
  {| heap := heap w; entropy := entropy w; cursor := cursor w; clock := clock w;
     isoclock := isoclock w; child := child w; tick := tick w; pid := pid w;
     fs := fs w; self := s |}.

Definition set_stats (st : Stats) (s : CameraFuzzer) : CameraFuzzer :=
  {| target_binary := target_binary s; corpus_dir := corpus_dir s;
     crashes_dir := crashes_dir s; stats := st;
     coverage_map := coverage_map s; unique_crashes := unique_crashes s |}.

Definition set_coverage_map (m : gmap string bool) (s : CameraFuzzer) : CameraFuzzer :=
  {| target_binary := target_binary s; corpus_dir := corpus_dir s;
     crashes_dir := crashes_dir s; stats := stats s;
     coverage_map := m; unique_crashes := unique_crashes s |}.

Definition set_unique_crashes (u : gset string) (s : CameraFuzzer) : CameraFuzzer :=
  {| target_binary := target_binary s; corpus_dir := corpus_dir s;
     crashes_dir := crashes_dir s; stats := stats s;
     coverage_map := coverage_map s; unique_crashes := u |}.

(** ** The monad: state plus Python exceptions *)

Inductive Exn :=
| KeyError | IndexError | ValueError | TypeError | StructError
| FileNotFoundError | IsADirectoryError | FileExistsError | OSError
| TimeoutExpired.

Inductive Res (A : Type) :=
| Ok (a : A)
| Raise (e : Exn).
Arguments Ok {A} a.
Arguments Raise {A} e.

Definition M (A : Type) : Type := World -> Res A * World.

Definition ret {A} (a : A) : M A := fun w => (Ok a, w).

Definition raise {A} (e : Exn) : M A := fun w => (Raise e, w).

Definition bind {A B} (m : M A) (k : A -> M B) : M B :=
  fun w =>
    match m w with
    | (Ok a, w') => k a w'
    | (Raise e, w') => (Raise e, w')
    end.

Notation "'let*' x := m 'in' k" := (bind m (fun x => k))
  (at level 10, x name, m at level 100, k at level 200).
Notation "m >> k" := (bind m (fun _ => k))
  (at level 90, right associativity).

(** [try: body except: handler] with a bare [except]. *)
Definition try_except {A} (body handler : M A) : M A :=
  fun w =>
    match body w with
    | (Ok a, w') => (Ok a, w')
    | (Raise _, w') => handler w'
    end.

(** [try: body except E: handler] for one exception class. *)
Definition try_except_on {A} (E : Exn -> bool) (body handler : M A) : M A :=
  fun w =>
    match body w with
    | (Ok a, w') => (Ok a, w')
    | (Raise e, w') => if E e then handler w' else (Raise e, w')
    end.

(** [try: body finally: cleanup] *)
Definition try_finally {A} (body : M A) (cleanup : M unit) : M A :=
  fun w =>
    match body w with
    | (r, w') =>
        match cleanup w' with
        | (Ok _, w'') => (r, w'')
        | (Raise e, w'') => (Raise e, w'')
        end
    end.

(** [for _ in range(n): acc = body(acc)] *)
Fixpoint for_range {A} (n : nat) (body : A -> M A) (acc : A) : M A :=
  match n with
  | O => ret acc
  | S n' => let* acc' := body acc in for_range n' body acc'
  end.

Definition get_self : M CameraFuzzer := fun w => (Ok (self w), w).
Definition put_self (s : CameraFuzzer) : M unit := fun w => (Ok tt, set_self s w).

(** *** The heap *)

Definition alloc (o : Obj) : M loc :=
  fun w => (Ok (length (heap w)), set_heap (heap w ++ [o]) w).

Definition get_dict (l : loc) : M InputDict :=
  fun w =>
    match heap w !! l with
    | Some (ODict d) => (Ok d, w)
    | _ => (Raise TypeError, w)
    end.

Definition put_dict (l : loc) (d : InputDict) : M unit :=
  fun w => (Ok tt, set_heap (<[l := ODict d]> (heap w)) w).

Definition get_list (l : loc) : M (list float) :=
  fun w =>
    match heap w !! l with
    | Some (OList xs) => (Ok xs, w)
    | _ => (Raise TypeError, w)
    end.

Definition put_list (l : loc) (xs : list float) : M unit :=
  fun w => (Ok tt, set_heap (<[l := OList xs]> (heap w)) w).

(** [d.copy()]: a new dict object with the same bindings, so a list value
    is the same object in both. *)
Definition dict_copy (l : loc) : M loc :=
  let* d := get_dict l in alloc (ODict d).

(** [d['bytes'] = v] and [d['zoom'] = v] *)
Definition set_item_bytes (l : loc) (v : list byte) : M unit :=
  let* d := get_dict l in
  put_dict l {| position := position d; rotation := rotation d; zoom := zoom d;
                bytes := Some v |}.

Definition set_item_zoom (l : loc) (v : float) : M unit :=
  let* d := get_dict l in
  put_dict l {| position := position d; rotation := rotation d; zoom := Some v;
                bytes := bytes d |}.

(** [xs[i]] with Python's index normalisation; out of range is
    [IndexError]. *)
Definition norm_index (n i : Z) : option nat :=
  let j := if i <? 0 then i + n else i in
  if (0 <=? j) && (j <? n) then Some (Z.to_nat j) else None.

Definition getitem {A} (xs : list A) (i : Z) : M A :=
  match norm_index (len xs) i with
  | Some j => match xs !! j with Some x => ret x | None => raise IndexError end
  | None => raise IndexError
  end.

Definition setitem {A} (xs : list A) (i : Z) (v : A) : M (list A) :=
  match norm_index (len xs) i with
  | Some j => ret (<[j := v]> xs)
  | None => raise IndexError
  end.

(** [lst[i] = v] and [lst[i] += delta] on a list object *)
Definition list_setitem (l : loc) (i : Z) (v : float) : M unit :=
  let* xs := get_list l in
  let* xs' := setitem xs i v in
  put_list l xs'.

Definition list_iadd (l : loc) (i : Z) (delta : float) : M unit :=
  let* xs := get_list l in
  let* x := getitem xs i in
  let* xs' := setitem xs i (PyFloat.add x delta) in
  put_list l xs'.

(** *** [random] and [os.urandom] *)

Definition draw : M Z :=
  fun w => (Ok (entropy w (cursor w)), set_cursor (S (cursor w)) w).

Definition randbelow (n : Z) : M Z :=
  let* r := draw in ret (r mod n).

(** [random.randint(a, b)] raises [ValueError] on an empty range. *)
Definition random_randint (a b : Z) : M Z :=
  if b <? a then raise ValueError
  else let* r := randbelow (b - a + 1) in ret (a + r).

(** [random.choice(seq)] raises [IndexError] on an empty sequence. *)
Definition random_choice {A} (seq : list A) : M A :=
  match seq with
  | [] => raise IndexError
  | _ => let* i := randbelow (len seq) in getitem seq i
  end.

(** [random.random()]: a multiple of [2^-53] in [[0, 1)]. *)
Definition random_random : M float :=
  let* r := draw in
  ret (binary_normalize PyFloat.prec PyFloat.emax (r mod 2 ^ 53) (-53) false).

Fixpoint urandom (n : nat) : M (list byte) :=
  match n with
  | O => ret []
  | S n' => let* r := draw in let* rest := urandom n' in ret (byte_of_Z r :: rest)
  end.

Definition os_urandom (n : Z) : M (list byte) := urandom (Z.to_nat n).

(** *** Clock, process id, child process *)

Definition time_time : M float :=
  fun w => (Ok (clock w (tick w)), set_tick (S (tick w)) w).

Definition datetime_now_isoformat : M string :=
  fun w => (Ok (isoclock w (tick w)), set_tick (S (tick w)) w).

Definition os_getpid : M Z := fun w => (Ok (pid w), w).

Definition subprocess_run (cmd : list string) : M (Z * string * string) :=
  fun w =>
    let w' := set_tick (S (tick w)) w in
    match child w (tick w) with
    | Exited rc out err => (Ok (rc, out, err), w')
    | HardTimeout => (Raise TimeoutExpired, w')
    | SpawnError => (Raise OSError, w')
    end.

(** *** Files *)

Definition default_mode : Z := 420.

(** [open(path, 'wb')]: create or truncate.  The file system is flat: the
    directory that is to hold [path] is taken to exist and to be writable
    (the fuzzer creates its corpus and crash directories in [__init__], and
    the temporary input lives in [/tmp]), so the call fails only where
    [path] itself is a directory.  The [FileNotFoundError] and
    [PermissionError] of a missing or protected directory have no
    counterpart here. *)
Definition open_wb (path : string) : M unit :=
  fun w =>
    match fs w !! path with
    | Some Dir => (Raise IsADirectoryError, w)
    | Some (File mode _) => (Ok tt, set_fs (<[path := File mode []]> (fs w)) w)
    | None => (Ok tt, set_fs (<[path := File default_mode []]> (fs w)) w)
    end.

(** [f.write(b)] on a file opened for writing. *)
Definition file_write (path : string) (b : list byte) : M unit :=
  fun w =>
    match fs w !! path with
    | Some (File mode c) => (Ok tt, set_fs (<[path := File mode (c ++ b)]> (fs w)) w)
    | _ => (Raise OSError, w)
    end.

(** [open(path, 'rb').read()] *)
Definition read_rb (path : string) : M (list byte) :=
  fun w =>
    match fs w !! path with
    | Some (File _ c) => (Ok c, w)
    | Some Dir => (Raise IsADirectoryError, w)
    | None => (Raise FileNotFoundError, w)
    end.

(** [path.mkdir(exist_ok=True)] *)
Definition mkdir_exist_ok (path : string) : M unit :=
  fun w =>
    match fs w !! path with
    | Some Dir => (Ok tt, w)
    | Some (File _ _) => (Raise FileExistsError, w)
    | None => (Ok tt, set_fs (<[path := Dir]> (fs w)) w)
    end.

(** [path.unlink(missing_ok=True)] *)
Definition unlink_missing_ok (path : string) : M unit :=
  fun w =>
    match fs w !! path with
    | Some Dir => (Raise IsADirectoryError, w)
    | Some (File _ _) => (Ok tt, set_fs (delete path (fs w)) w)
    | None => (Ok tt, w)
    end.

(** [os.chmod(path, mode)] *)
Definition os_chmod (path : string) (mode : Z) : M unit :=
  fun w =>
    match fs w !! path with
    | Some Dir => (Ok tt, w)
    | Some (File _ c) => (Ok tt, set_fs (<[path := File mode c]> (fs w)) w)
    | None => (Raise FileNotFoundError, w)
    end.

(** [dir / name] *)
Definition path_join (dir name : string) : string := (dir ++ "/" ++ name)%string.

(** ** Text helpers *)

Definition nl : string := String (ascii_of_nat 10) EmptyString.

(** [str(n)] for a Python int *)
Definition str_of_int (n : Z) : string := pretty n.

(** [s.split(sep)] for a one-character separator *)
Fixpoint split_on (sep : ascii) (s : string) : list string :=
  match s with
  | EmptyString => [EmptyString]
  | String c s' =>
      if Ascii.eqb c sep then EmptyString :: split_on sep s'
      else match split_on sep s' with
           | hd :: tl => String c hd :: tl
           | [] => [String c EmptyString]
           end
  end.

(** [c.isspace()] for a character below 256, a string being read as a
    sequence of code points: tab to carriage return, the four separators
    U+001C to U+001F, the space, U+0085 and U+00A0. *)
Definition is_whitespace (c : ascii) : bool :=
  let n := nat_of_ascii c in
  ((9 <=? n)%nat && (n <=? 13)%nat) || ((28 <=? n)%nat && (n <=? 32)%nat)
  || (n =? 133)%nat || (n =? 160)%nat.

Fixpoint lstrip (s : string) : string :=
  match s with
  | String c s' => if is_whitespace c then lstrip s' else s
  | EmptyString => s
  end.

Definition string_rev (s : string) : string :=
  string_of_list_ascii (rev (list_ascii_of_string s)).

(** [s.strip()] *)
Definition strip (s : string) : string :=
  string_rev (lstrip (string_rev (lstrip s))).

(** [s[:n]] *)
Definition str_take (n : nat) (s : string) : string := substring 0 n s.

(** [s.encode()] *)
Definition encode_text (s : string) : list byte := list_byte_of_string s.

(** [sorted(xs)] on ints *)
Definition sorted (xs : list Z) : list Z := merge_sort Z.le xs.

(** ** The methods of [CameraFuzzer]

    [hashlib.sha256(..).hexdigest()], the built-in [int(..)] on text and
    [json.dump(.., indent=2)] come from the Python library; they are
    parameters of the development. *)

(** The dict that [save_crash] hands to [json.dump]. *)
Record Metadata := {
  md_timestamp : string;
  md_signal : Z;
  md_exit_code : Z;
  md_execution_time : float;
  md_stdout : string;
  md_stderr : string
}.

Section Methods.

Variable sha256_hexdigest : list byte -> string.
Variable int_of_str : string -> option Z.
Variable json_dump : Metadata -> string.

(** *** Mutation strategies *)

Definition interesting_floats : list float :=
  [PyFloat.zero; PyFloat.neg_zero; PyFloat.one; PyFloat.neg_one;
   PyFloat.inf; PyFloat.neg_inf; PyFloat.nan].

(** [bytes_data[i] ^= m] on a bytearray *)
Definition bytearray_ixor (bytes_data : list byte) (i : Z) (m : Z) : M (list byte) :=
  let* b := getitem bytes_data i in
  setitem bytes_data i (byte_xor b m).

Definition bit_flip (data : loc) : M loc :=
  let* d := get_dict data in
  match bytes d with
  | None => ret data
  | Some b =>
      let bytes_data := b in
      if len bytes_data =? 0 then ret data
      else
        let* num_flips := random_randint 1 8 in
        let* bytes_data :=
          for_range (Z.to_nat num_flips)
            (fun bytes_data =>
               let* byte_idx := random_randint 0 (len bytes_data - 1) in
               let* bit_idx := random_randint 0 7 in
               bytearray_ixor bytes_data byte_idx (Z.shiftl 1 bit_idx))
            bytes_data in
        set_item_bytes data bytes_data >>
        ret data
  end.

Definition byte_flip (data : loc) : M loc :=
  let* d := get_dict data in
  match bytes d with
  | None => ret data
  | Some b =>
      let bytes_data := b in
      if len bytes_data =? 0 then ret data
      else
        let* num_flips := random_randint 1 4 in
        let* bytes_data :=
          for_range (Z.to_nat num_flips)
            (fun bytes_data =>
               let* idx := random_randint 0 (len bytes_data - 1) in
               bytearray_ixor bytes_data idx 255)
            bytes_data in
        set_item_bytes data bytes_data >>
        ret data
  end.

Definition arithmetic_mutation (data : loc) : M loc :=
  let* d := get_dict data in
  match position d with
  | Some p =>
      let* idx := random_randint 0 2 in
      let* delta := random_choice [-100; -10; -1; 1; 10; 100] in
      list_iadd p idx (PyFloat.of_Z delta)
  | None => ret tt
  end >>
  let* d := get_dict data in
  match zoom d with
  | Some z =>
      let* delta :=
        random_choice [PyFloat.of_Z (-5); PyFloat.of_Z (-1);
                       SFopp PyFloat.lit_0_1; PyFloat.lit_0_1;
                       PyFloat.of_Z 1; PyFloat.of_Z 5] in
      set_item_zoom data (PyFloat.add z delta)
  | None => ret tt
  end >>
  ret data.

(** [key in data and random.random() < 0.3]: the draw is made only when
    the key is present. *)
Definition present_and_lucky {A} (field : option A) : M (option A) :=
  match field with
  | Some v =>
      let* r := random_random in
      ret (if PyFloat.ltb r PyFloat.lit_0_3 then Some v else None)
  | None => ret None
  end.

Definition interesting_values (data : loc) : M loc :=
  let* d := get_dict data in
  let* go := present_and_lucky (position d) in
  match go with
  | Some p =>
      let* idx := random_randint 0 2 in
      let* v := random_choice interesting_floats in
      list_setitem p idx v
  | None => ret tt
  end >>
  let* d := get_dict data in
  let* go := present_and_lucky (rotation d) in
  match go with
  | Some r =>
      let* idx := random_randint 0 3 in
      let* v := random_choice interesting_floats in
      list_setitem r idx v
  | None => ret tt
  end >>
  let* d := get_dict data in
  let* go := present_and_lucky (zoom d) in
  match go with
  | Some _ =>
      let* v := random_choice interesting_floats in
      set_item_zoom data v
  | None => ret tt
  end >>
  ret data.

Definition block_shuffle (data : loc) : M loc :=
  let* d := get_dict data in
  match bytes d with
  | None => ret data
  | Some b =>
      let bytes_data := b in
      if len bytes_data <? 8 then ret data
      else
        let* block_size := random_choice [4; 8; 16; 32] in
        if len bytes_data / 2 <? block_size then ret data
        else
          let* idx1 := random_randint 0 (len bytes_data - block_size) in
          let* idx2 := random_randint 0 (len bytes_data - block_size) in
          let bytes_data :=
            if idx1 =? idx2 then bytes_data
            else
              let block1 := slice bytes_data idx1 (idx1 + block_size) in
              let block2 := slice bytes_data idx2 (idx2 + block_size) in
              let bytes_data := slice_assign bytes_data idx1 (idx1 + block_size) block2 in
              slice_assign bytes_data idx2 (idx2 + block_size) block1 in
          set_item_bytes data bytes_data >>
          ret data
  end.

Definition truncate_extend (data : loc) : M loc :=
  let* d := get_dict data in
  match bytes d with
  | None => ret data
  | Some b =>
      let bytes_data := b in
      let* r := random_random in
      let* bytes_data :=
        if PyFloat.ltb r PyFloat.lit_0_5 then
          if 4 <? len bytes_data then
            let* new_len := random_randint 1 (len bytes_data - 1) in
            ret (slice bytes_data 0 new_len)
          else ret bytes_data
        else
          let* extend_len := random_randint 1 100 in
          let* r := random_random in
          if PyFloat.ltb r PyFloat.lit_0_5 then
            ret (bytes_data ++ replicate (Z.to_nat extend_len) "000"%byte)
          else
            let* junk := os_urandom extend_len in
            ret (bytes_data ++ junk) in
      set_item_bytes data bytes_data >>
      ret data
  end.

Definition splice_inputs (data : loc) : M loc :=
  let* d := get_dict data in
  match bytes d with
  | Some b =>
      let bytes_data := b in
      if 8 <? len bytes_data then
        let* start := random_randint 0 (len bytes_data - 4) in
        let* length := random_randint 4 (Z.min 32 (len bytes_data - start)) in
        let splice := slice bytes_data start (start + length) in
        let* insert_pos := random_randint 0 (len bytes_data) in
        let bytes_data := slice_assign bytes_data insert_pos insert_pos splice in
        set_item_bytes data bytes_data
      else ret tt
  | None => ret tt
  end >>
  ret data.

Definition tokens : list (list byte) :=
  [encode_text "CAMERA"; encode_text "POSITION"; encode_text "ROTATION";
   encode_text "ZOOM"; encode_text "MATRIX"; encode_text "QUATERNION";
   ["000"; "000"; "000"; "000"]%byte;
   ["255"; "255"; "255"; "255"]%byte;
   ["000"; "000"; "128"; "063"]%byte;
   ["000"; "000"; "128"; "191"]%byte].

Definition dictionary_mutation (data : loc) : M loc :=
  let* d := get_dict data in
  match bytes d with
  | Some b =>
      let bytes_data := b in
      let* token := random_choice tokens in
      let* bytes_data :=
        if len token <=? len bytes_data then
          let* pos := random_randint 0 (len bytes_data - len token) in
          ret (slice_assign bytes_data pos (pos + len token) token)
        else ret bytes_data in
      set_item_bytes data bytes_data
  | None => ret tt
  end >>
  ret data.

(** [self.mutation_strategies] *)
Definition mutation_strategies : list (loc -> M loc) :=
  [bit_flip; byte_flip; arithmetic_mutation; interesting_values;
   block_shuffle; truncate_extend; splice_inputs; dictionary_mutation].

Definition mutate_input (input_data : loc) : M loc :=
  let* strategy := random_choice mutation_strategies in
  let* copy := dict_copy input_data in
  let* mutated := strategy copy in
  let* r := random_random in
  if PyFloat.ltb r PyFloat.lit_0_1 then
    let* num_mutations := random_randint 2 5 in
    for_range (Z.to_nat num_mutations)
      (fun mutated =>
         let* strategy := random_choice mutation_strategies in
         strategy mutated)
      mutated
  else ret mutated.

(** *** Input files *)

Definition struct_pack (n : nat) (xs : list float) : M (list byte) :=
  match Struct.pack n xs with
  | Some b => ret b
  | None => raise StructError
  end.

Definition struct_unpack (n : nat) (buf : list byte) : M (list float) :=
  match Struct.unpack n buf with
  | Some xs => ret xs
  | None => raise StructError
  end.

Definition write_input_file (path : string) (input_data : loc) : M unit :=
  open_wb path >>
  let* d := get_dict input_data in
  match bytes d with
  | Some b => file_write path b
  | None =>
      match position d with
      | Some p =>
          let* pos := get_list p in
          let* packed := struct_pack 3 pos in
          file_write path packed
      | None => ret tt
      end >>
      match rotation d with
      | Some r =>
          let* rot := get_list r in
          let* packed := struct_pack 4 rot in
          file_write path packed
      | None => ret tt
      end >>
      match zoom d with
      | Some z =>
          let* packed := struct_pack 1 [z] in
          file_write path packed
      | None => ret tt
      end
  end.

Definition raw_input (data : list byte) : InputDict :=
  {| position := None; rotation := None; zoom := None; bytes := Some data |}.

Definition read_input_file (path : string) : M loc :=
  let* data := read_rb path in
  let as_raw_bytes := alloc (ODict (raw_input data)) in
  if 32 <=? len data then
    try_except
      (let* pos := struct_unpack 3 (slice data 0 12) in
       let* rot := struct_unpack 4 (slice data 12 28) in
       let* zs := struct_unpack 1 (slice data 28 32) in
       let* zoom := getitem zs 0 in
       let* p := alloc (OList pos) in
       let* r := alloc (OList rot) in
       alloc (ODict {| position := Some p; rotation := Some r;
                       zoom := Some zoom; bytes := Some data |}))
      as_raw_bytes
  else as_raw_bytes.

(** *** Coverage *)

(** [coverage.extend(int(p) for p in parts if p)] inside [try/except]:
    the items converted before a failing one stay in the list. *)
Fixpoint extend_ints (coverage : list Z) (parts : list string) : list Z :=
  match parts with
  | [] => coverage
  | p :: ps =>
      if String.eqb p EmptyString then extend_ints coverage ps
      else match int_of_str p with
           | Some n => extend_ints (coverage ++ [n]) ps
           | None => coverage
           end
  end.

Definition extract_coverage (output : string) : option (list Z) :=
  let coverage :=
    fold_left
      (fun coverage line =>
         if String.prefix "COV:" line then
           match split_on ":" line with
           | _ :: field :: _ => extend_ints coverage (split_on "," (strip field))
           | _ => coverage
           end
         else coverage)
      (split_on (ascii_of_nat 10) output) [] in
  match coverage with
  | [] => None
  | _ => Some coverage
  end.

Definition hash_coverage (coverage : list Z) : string :=
  let coverage_str := String.concat "," (map str_of_int (sorted coverage)) in
  sha256_hexdigest (encode_text coverage_str).

(** *** Running the target *)

Definition bump_total_executions : M unit :=
  let* s := get_self in
  let st := stats s in
  put_self (set_stats
    {| start_time := start_time st; total_executions := total_executions st + 1;
       crashes := crashes st; timeouts := timeouts st;
       interesting_inputs := interesting_inputs st;
       coverage_increase := coverage_increase st |} s).

Definition is_timeout_expired (e : Exn) : bool :=
  match e with TimeoutExpired => true | _ => false end.

(** [Path(f"/tmp/fuzz_input_{os.getpid()}.bin")] *)
Definition fuzz_input_path (p : Z) : string :=
  ("/tmp/fuzz_input_" ++ str_of_int p ++ ".bin")%string.

Definition execute_target (input_data : loc) : M ExecResult :=
  let result :=
    {| execution_time := PyFloat.of_Z 0; exit_code := 0; crashed := false;
       timeout := false; stdout := ""; stderr := ""; coverage := None;
       signal := None; input := None; interesting := None |} in
  let* p := os_getpid in
  let input_file := fuzz_input_path p in
  write_input_file input_file input_data >>
  let* s := get_self in
  let cmd := [target_binary s; "--fuzz-input"; input_file; "--timeout"; "1000"]%string in
  let* start := time_time in
  let* result :=
    try_finally
      (try_except_on is_timeout_expired
         (let* proc := subprocess_run cmd in
          let '(returncode, out, err) := proc in
          let* now := time_time in
          let crash := returncode <? 0 in
          let coverage := extract_coverage out in
          ret {| execution_time := PyFloat.sub now start;
                 exit_code := returncode;
                 crashed := crash;
                 timeout := false;
                 stdout := out;
                 stderr := err;
                 coverage := coverage;
                 signal := if crash then Some (- returncode) else None;
                 input := None; interesting := None |})
         (let* now := time_time in
          ret {| execution_time := PyFloat.sub now start;
                 exit_code := exit_code result; crashed := crashed result;
                 timeout := true;
                 stdout := stdout result; stderr := stderr result;
                 coverage := coverage result; signal := signal result;
                 input := None; interesting := None |}))
      (unlink_missing_ok input_file) in
  bump_total_executions >>
  ret result.

(** *** The oracle *)

(** Truth value of [result['coverage']]: [None] and the empty list are
    false. *)
Definition truthy_coverage (c : option (list Z)) : option (list Z) :=
  match c with
  | Some (x :: xs) => Some (x :: xs)
  | _ => None
  end.

Definition record_new_coverage (coverage_hash : string) : M unit :=
  let* s := get_self in
  let st := stats s in
  put_self (set_stats
    {| start_time := start_time st; total_executions := total_executions st;
       crashes := crashes st; timeouts := timeouts st;
       interesting_inputs := interesting_inputs st;
       coverage_increase := coverage_increase st + 1 |}
    (set_coverage_map (<[coverage_hash := true]> (coverage_map s)) s)).

Definition is_interesting (result : ExecResult) : M bool :=
  if crashed result then ret true
  else
    let* lucky :=
      if timeout result then
        let* r := random_random in ret (PyFloat.ltb r PyFloat.lit_0_1)
      else ret false in
    if lucky then ret true
    else
      let* fresh :=
        match truthy_coverage (coverage result) with
        | Some cov =>
            let coverage_hash := hash_coverage cov in
            let* s := get_self in
            match coverage_map s !! coverage_hash with
            | None => record_new_coverage coverage_hash >> ret true
            | Some _ => ret false
            end
        | None => ret false
        end in
      if fresh then ret true
      else if PyFloat.ltb PyFloat.lit_0_5 (execution_time result) then ret true
      else if (1000 <? String.length (stderr result))%nat then ret true
      else ret false.

Definition fuzz_iteration (seed_input : loc) : M ExecResult :=
  let* mutated_input := mutate_input seed_input in
  let* result := execute_target mutated_input in
  let result :=
    {| execution_time := execution_time result; exit_code := exit_code result;
       crashed := crashed result; timeout := timeout result;
       stdout := stdout result; stderr := stderr result;
       coverage := coverage result; signal := signal result;
       input := Some mutated_input; interesting := interesting result |} in
  let* verdict := is_interesting result in
  ret {| execution_time := execution_time result; exit_code := exit_code result;
         crashed := crashed result; timeout := timeout result;
         stdout := stdout result; stderr := stderr result;
         coverage := coverage result; signal := signal result;
         input := input result; interesting := Some verdict |}.

(** *** Corpus and crash store *)

(** [result[key]] for a key that may be missing *)
Definition require {A} (field : option A) : M A :=
  match field with
  | Some v => ret v
  | None => raise KeyError
  end.

(** [open(path, 'w')] followed by [f.write(text)] *)
Definition write_text (path : string) (text : string) : M unit :=
  open_wb path >> file_write path (encode_text text).

Definition crash_signature (sig : Z) (err : string) : string :=
  let crash_data := (str_of_int sig ++ ":" ++ err)%string in
  str_take 16 (sha256_hexdigest (encode_text crash_data)).

Definition save_crash (result : ExecResult) : M unit :=
  let* sig := require (signal result) in
  let crash_id := crash_signature sig (stderr result) in
  let* s := get_self in
  if decide (crash_id ∈ unique_crashes s) then ret tt
  else
    put_self (set_unique_crashes (unique_crashes s ∪ {[crash_id]}) s) >>
    let* s := get_self in
    let crash_dir := path_join (crashes_dir s) crash_id in
    mkdir_exist_ok crash_dir >>
    let input_file := path_join crash_dir "input.bin" in
    let* inp := require (input result) in
    write_input_file input_file inp >>
    let* now := datetime_now_isoformat in
    let metadata :=
      {| md_timestamp := now;
         md_signal := default 0 (signal result);
         md_exit_code := exit_code result;
         md_execution_time := execution_time result;
         md_stdout := str_take 1000 (stdout result);
         md_stderr := str_take 1000 (stderr result) |} in
    write_text (path_join crash_dir "metadata.json") (json_dump metadata) >>
    let signal_text :=
      match signal result with Some n => str_of_int n | None => "unknown"%string end in
    write_text (path_join crash_dir "reproduce.sh")
      ("#!/bin/bash" ++ nl
       ++ "# Crash reproduction script" ++ nl
       ++ "# Signal: " ++ signal_text ++ nl
       ++ target_binary s ++ " --fuzz-input input.bin" ++ nl)%string >>
    os_chmod (path_join crash_dir "reproduce.sh") 493.

Definition properties (result : ExecResult) : list string :=
  (if crashed result then ["crash"%string] else [])
  ++ (if timeout result then ["timeout"%string] else [])
  ++ (match truthy_coverage (coverage result) with Some _ => ["cov"%string] | None => [] end).

Definition int_of_float (x : float) : M Z :=
  match PyFloat.to_Z x with
  | Some n => ret n
  | None => raise ValueError
  end.

Definition interesting_filename (timestamp : Z) (props : list string) : string :=
  ("id_" ++ str_of_int timestamp ++ "_" ++ String.concat "_" props ++ ".bin")%string.

Definition save_interesting_input (result : ExecResult) : M unit :=
  let props := properties result in
  let* now := time_time in
  let* timestamp := int_of_float now in
  let filename := interesting_filename timestamp props in
  let* s := get_self in
  let input_file := path_join (corpus_dir s) filename in
  let* inp := require (input result) in
  write_input_file input_file inp.

Definition bump_crashes (st : Stats) : Stats :=
  {| start_time := start_time st; total_executions := total_executions st;
     crashes := crashes st + 1; timeouts := timeouts st;
     interesting_inputs := interesting_inputs st;
     coverage_increase := coverage_increase st |}.

Definition bump_timeouts (st : Stats) : Stats :=
  {| start_time := start_time st; total_executions := total_executions st;
     crashes := crashes st; timeouts := timeouts st + 1;
     interesting_inputs := interesting_inputs st;
     coverage_increase := coverage_increase st |}.

Definition bump_interesting_inputs (st : Stats) : Stats :=
  {| start_time := start_time st; total_executions := total_executions st;
     crashes := crashes st; timeouts := timeouts st;
     interesting_inputs := interesting_inputs st + 1;
     coverage_increase := coverage_increase st |}.

Definition update_stats (f : Stats -> Stats) : M unit :=
  let* s := get_self in put_self (set_stats (f (stats s)) s).

Definition process_result (result : ExecResult) : M unit :=
  (if crashed result then update_stats bump_crashes >> save_crash result
   else ret tt) >>
  (if timeout result then update_stats bump_timeouts else ret tt) >>
  let* flag := require (interesting result) in
  if flag then update_stats bump_interesting_inputs >> save_interesting_input result
  else ret tt.

End Methods.

(** ** Loading the corpus *)

(** [load_corpus]: [listing] is the sequence of paths that
    [self.corpus_dir.glob("*.bin")] yields.  A file that cannot be read is
    skipped by the bare [except]. *)
Fixpoint load_files (listing : list string) (corpus : list loc) : M (list loc) :=
  match listing with
  | [] => ret corpus
  | file_path :: rest =>
      let* corpus :=
        try_except
          (let* input_data := read_input_file file_path in
           ret (corpus ++ [input_data]))
          (ret corpus) in
      load_files rest corpus
  end.

Definition load_corpus (listing : list string) : M (list loc) :=
  load_files listing [].

(** ** The initial corpus *)

(** [x * y] and [x / y] on Python floats. *)
Definition float_mul : float -> float -> float := SFmul PyFloat.prec PyFloat.emax.
Definition float_div : float -> float -> float := SFdiv PyFloat.prec PyFloat.emax.

(** [random.uniform(a, b)] for two ints: [a + (b - a) * random()]. *)
Definition random_uniform (a b : Z) : M float :=
  let* r := random_random in
  ret (PyFloat.add (PyFloat.of_Z a) (float_mul (PyFloat.of_Z (b - a)) r)).

(** [pow_half x] stands for [x ** 0.5] on a float [x] that is not
    negative: the C library's [pow], which the development leaves open. *)
Definition _random_quaternion (pow_half : float -> float) : M loc :=
  let* u1 := random_random in
  let* u2 := random_random in
  let* u3 := random_random in
  let sqrt1_u1 := pow_half (PyFloat.sub (PyFloat.of_Z 1) u1) in
  let sqrtu1 := pow_half u1 in
  let* sign := random_choice [1; -1] in
  let w := float_mul sqrt1_u1 (PyFloat.of_Z sign) in
  let x := float_mul sqrt1_u1 (PyFloat.sub (float_mul (PyFloat.of_Z 2) u2) (PyFloat.of_Z 1)) in
  let y := float_mul sqrtu1 (PyFloat.sub (float_mul (PyFloat.of_Z 2) u3) (PyFloat.of_Z 1)) in
  let* sign := random_choice [1; -1] in
  let z := float_mul sqrtu1 (PyFloat.of_Z sign) in
  let norm :=
    pow_half (PyFloat.add (PyFloat.add (PyFloat.add (float_mul w w) (float_mul x x))
                             (float_mul y y)) (float_mul z z)) in
  if PyFloat.ltb (PyFloat.of_Z 0) norm then
    alloc (OList [float_div w norm; float_div x norm; float_div y norm; float_div z norm])
  else
    alloc (OList (map PyFloat.of_Z [1; 0; 0; 0])).

(** One of the ten random inputs. *)
Definition valid_input (pow_half : float -> float) : M loc :=
  let* p0 := random_uniform 0 4096 in
  let* p1 := random_uniform 0 4096 in
  let* p2 := random_uniform 0 4096 in
  let* p := alloc (OList [p0; p1; p2]) in
  let* r := _random_quaternion pow_half in
  let* z := random_uniform 1 10 in
  alloc (ODict {| position := Some p; rotation := Some r; zoom := Some z; bytes := None |}).

(** A dict display [{'position': [..], 'rotation': [..], 'zoom': z}] of
    literals: the two lists and the dict are new objects. *)
Definition literal_input (pos rot : list Z) (z : float) : M loc :=
  let* p := alloc (OList (map PyFloat.of_Z pos)) in
  let* r := alloc (OList (map PyFloat.of_Z rot)) in
  alloc (ODict {| position := Some p; rotation := Some r; zoom := Some z; bytes := None |}).

(** [f"{i:03d}"] for an index [i >= 0]. *)
Definition format_03d (i : nat) : string :=
  let digits := str_of_int (Z.of_nat i) in
  (string_of_list_ascii (replicate (3 - String.length digits) "0"%char) ++ digits)%string.

Definition seed_filename (i : nat) : string :=
  ("seed_" ++ format_03d i ++ ".bin")%string.

(** [for i, input_data in enumerate(corpus): write_input_file(dir / name(i), input_data)],
    from the index [i] on. *)
Fixpoint save_seeds (dir : string) (i : nat) (corpus : list loc) : M unit :=
  match corpus with
  | [] => ret tt
  | input_data :: rest =>
      write_input_file (path_join dir (seed_filename i)) input_data >>
      save_seeds dir (S i) rest
  end.

Definition generate_initial_corpus (pow_half : float -> float) : M (list loc) :=
  let* corpus :=
    for_range 10
      (fun corpus => let* input_data := valid_input pow_half in ret (corpus ++ [input_data]))
      [] in
  let* e1 := literal_input [0; 0; 10] [1; 0; 0; 0] (PyFloat.of_Z 1) in
  let* e2 := literal_input [4096; 4096; 800] [1; 0; 0; 0] (PyFloat.of_Z 10) in
  let* e3 := literal_input [2048; 2048; 400] [0; 0; 0; 1] (PyFloat.of_Z 5) in
  let corpus := corpus ++ [e1; e2; e3] in
  let* s := get_self in
  save_seeds (corpus_dir s) 0 corpus >>
  ret corpus.

(** * Vocabulary of the statements *)

(** ** Outcomes of computations *)

(** [wp m Q w]: running [m] from [w] ends in a result and a world that
    satisfy [Q].  A postcondition that rejects [Raise] makes this total
    correctness. *)
Definition wp {A} (m : M A) (Q : Res A -> World -> Prop) (w : World) : Prop :=
  Q (m w).1 (m w).2.

(** The postcondition "returned normally with a value such that ..." *)
Definition returns {A} (P : A -> World -> Prop) : Res A -> World -> Prop :=
  fun r w => match r with Ok a => P a w | Raise _ => False end.

(** [R] relates the world before a computation to the world after it,
    also when the computation raises. *)
Definition keeps (R : World -> World -> Prop) {A} (m : M A) : Prop :=
  forall w, wp m (fun _ w' => R w w') w.

(** ** Inputs and their bytes *)

Definition with_bytes (d : InputDict) (v : list byte) : InputDict :=
  {| position := position d; rotation := rotation d; zoom := zoom d; bytes := Some v |}.

(** A structured input: the three fields and no payload. *)
Definition structured (p r : loc) (z : float) : InputDict :=
  {| position := Some p; rotation := Some r; zoom := Some z; bytes := None |}.

(** [encode_input h d] is the content that [write_input_file] produces for
    the dict [d] in the heap [h] when no [struct.pack] fails. *)
Definition packed_field (h : list Obj) (n : nat) (field : option loc) : option (list byte) :=
  match field with
  | None => Some []
  | Some p =>
      match h !! p with
      | Some (OList xs) => Struct.pack n xs
      | _ => None
      end
  end.

Definition encode_input (h : list Obj) (d : InputDict) : option (list byte) :=
  match bytes d with
  | Some raw => Some raw
  | None =>
      match packed_field h 3 (position d), packed_field h 4 (rotation d) with
      | Some pos, Some rot =>
          Some (pos ++ rot ++ match zoom d with Some z => Struct.pack_f z | None => [] end)
      | _, _ => None
      end
  end.

(** The mode of the file that [open(path, 'wb')] leaves behind. *)
Definition file_mode (f : gmap string Node) (path : string) : Z :=
  match f !! path with
  | Some (File mode _) => mode
  | _ => default_mode
  end.

(** The world in which [path] is a regular file with the content [b]. *)
Definition written (path : string) (b : list byte) (w : World) : World :=
  set_fs (<[path := File (file_mode (fs w) path) b]> (fs w)) w.

(** Only the file system differs, and there only [path], which is a
    directory after exactly when it was one before. *)
Definition fs_only_at (path : string) (w : World) : World -> Prop :=
  fun w' =>
    w' = set_fs (fs w') w /\
    (forall q, q <> path -> fs w' !! q = fs w !! q) /\
    (fs w' !! path = Some Dir <-> fs w !! path = Some Dir).

(** The three fields that a buffer of at least 32 bytes decodes to. *)
Definition decoded_position (data : list byte) : list float :=
  map Struct.unpack_f (Struct.chunks4 3 (slice data 0 12)).

Definition decoded_rotation (data : list byte) : list float :=
  map Struct.unpack_f (Struct.chunks4 4 (slice data 12 28)).

Definition decoded_zoom (data : list byte) : float :=
  Struct.unpack_f (take 4 (slice data 28 32)).

Definition structured_input (p r : loc) (data : list byte) : InputDict :=
  {| position := Some p; rotation := Some r; zoom := Some (decoded_zoom data);
     bytes := Some data |}.

(** The value that a Python float has after a trip through four packed
    bytes: rounded to binary32, then widened again. *)
Definition round32 (x : float) : float := Struct.of_binary32 (Struct.to_binary32 x).

(** ** Comparing an input with what is read back *)

(** [|a - b| <= 1e-6], computed in binary64 as Python would. *)
Definition close (a b : float) : bool :=
  PyFloat.leb (PyFloat.abs (PyFloat.sub a b)) PyFloat.lit_1em6.

Fixpoint all_close (xs ys : list float) : bool :=
  match xs, ys with
  | [], [] => true
  | x :: xs', y :: ys' => close x y && all_close xs' ys'
  | _, _ => false
  end.

Definition lists_close (h : list Obj) (fx fy : option loc) : bool :=
  match fx, fy with
  | None, None => true
  | Some lx, Some ly =>
      match h !! lx, h !! ly with
      | Some (OList xs), Some (OList ys) => all_close xs ys
      | _, _ => false
      end
  | _, _ => false
  end.

(** Each float of [dy] is within [1e-6] of the one in [dx]. *)
Definition fields_close (h : list Obj) (dx dy : InputDict) : bool :=
  lists_close h (position dx) (position dy)
  && lists_close h (rotation dx) (rotation dy)
  && match zoom dx, zoom dy with
     | None, None => true
     | Some a, Some b => close a b
     | _, _ => false
     end.

(** [dy] has the keys of [dx] and no other. *)
Definition same_keys (dx dy : InputDict) : bool :=
  bool_decide (is_Some (position dx) <-> is_Some (position dy))
  && bool_decide (is_Some (rotation dx) <-> is_Some (rotation dy))
  && bool_decide (is_Some (zoom dx) <-> is_Some (zoom dy))
  && bool_decide (is_Some (bytes dx) <-> is_Some (bytes dy)).

(** The comparison that the round-trip property is about. *)
Definition agree (h : list Obj) (dx dy : InputDict) : bool :=
  same_keys dx dy && fields_close h dx dy.

(** Writing the input at [x] to [path] and reading [path] back gives an
    input that compares equal to [x] under [cmp]. *)
Definition round_trips (cmp : list Obj -> InputDict -> InputDict -> bool)
    (x : loc) (path : string) (w : World) : Prop :=
  exists w1 y w2 dx dy,
    write_input_file path x w = (Ok tt, w1)
    /\ read_input_file path w1 = (Ok y, w2)
    /\ heap w2 !! x = Some (ODict dx)
    /\ heap w2 !! y = Some (ODict dy)
    /\ cmp (heap w2) dx dy = true.

(** ** Strategies *)

(** The strategies that work on the ['bytes'] payload. *)
Definition byte_strategies : list (loc -> M loc) :=
  [bit_flip; byte_flip; block_shuffle; truncate_extend; splice_inputs;
   dictionary_mutation].

(** What a byte strategy guarantees: it returns the dict it was given, and
    that dict still has a payload and its other bindings. *)
Definition payload_kept (data : loc) (d : InputDict) (w : World) : Res loc -> World -> Prop :=
  returns (fun l w' =>
    l = data /\
    exists b', heap w' = <[data := ODict (with_bytes d b')]> (heap w)).

(** The exchange of the blocks [[i, i+n)] and [[j, j+n)] of [b], for
    [i + n <= j]. *)
Definition swap_blocks (b : list byte) (i j n : nat) : list byte :=
  take i b ++ take n (drop j b) ++ take (j - (i + n)) (drop (i + n) b)
  ++ take n (drop i b) ++ drop (j + n) b.

Definition is_block_swap (b b' : list byte) : Prop :=
  exists i j n,
    n ∈ [4; 8; 16; 32]%nat /\ (i + n <= j)%nat /\ (j + n <= length b)%nat
    /\ b' = swap_blocks b i j n.

(** The property as specified: on the input at [data], block shuffle leaves
    the payload as it is or exchanges two blocks that do not overlap. *)
Definition swaps_or_noop (data : loc) (w : World) : Prop :=
  forall d b,
    heap w !! data = Some (ODict d) -> bytes d = Some b ->
    exists b' w',
      block_shuffle data w = (Ok data, w')
      /\ heap w' !! data = Some (ODict (with_bytes d b'))
      /\ (b' = b \/ is_block_swap b b').

(** What the two slice assignments of the source compute from the payload
    and the two offsets. *)
Definition shuffled (b : list byte) (idx1 idx2 block_size : Z) : list byte :=
  let block1 := slice b idx1 (idx1 + block_size) in
  let block2 := slice b idx2 (idx2 + block_size) in
  slice_assign (slice_assign b idx1 (idx1 + block_size) block2)
    idx2 (idx2 + block_size) block1.

(** The [k]-th of the next draws from the random stream. *)
Definition drawn (k : nat) (w : World) : Z := entropy w (k + cursor w)%nat.

(** The block size that the first draw selects from the list of the source,
    and the offset that a later draw selects in [[0, len b - block size]]. *)
Definition block_size_drawn (w : World) : Z :=
  nth (Z.to_nat (drawn 0 w mod 4)) [4; 8; 16; 32] 4.

Definition offset_drawn (k : nat) (b : list byte) (w : World) : Z :=
  drawn k w mod (len b - block_size_drawn w + 1).

(** The list object behind an optional list-valued key is the same before
    and after. *)
Definition list_kept (field : option loc) (w w' : World) : Prop :=
  match field with
  | Some p => heap w' !! p = heap w !! p
  | None => True
  end.

(** Copy-on-mutate: the seed dict has the bindings it had, and the list
    objects it refers to have the elements they had. *)
Definition seed_untouched (seed : loc) (w w' : World) : Prop :=
  forall d,
    heap w !! seed = Some (ODict d) ->
    heap w' !! seed = Some (ODict d)
    /\ list_kept (position d) w w'
    /\ list_kept (rotation d) w w'.

(** ** Oracle, corpus and crash store *)

(** The state of [self] after the new-coverage path has recorded [h]. *)
Definition coverage_recorded (h : string) (s : CameraFuzzer) : CameraFuzzer :=
  set_stats
    {| start_time := start_time (stats s);
       total_executions := total_executions (stats s);
       crashes := crashes (stats s); timeouts := timeouts (stats s);
       interesting_inputs := interesting_inputs (stats s);
       coverage_increase := coverage_increase (stats s) + 1 |}
    (set_coverage_map (<[h := true]> (coverage_map s)) s).

(** The fields of [self] and the set of directories stay as they are. *)
Definition dirs_kept (w w' : World) : Prop :=
  self w' = self w /\ forall q, fs w' !! q = Some Dir <-> fs w !! q = Some Dir.

(** The state of [self] once [crash_id] is in the signature set. *)
Definition crash_reserved (crash_id : string) (s : CameraFuzzer) : CameraFuzzer :=
  set_unique_crashes (unique_crashes s ∪ {[crash_id]}) s.

(** No character of [s] is [c]. *)
Fixpoint free_of (c : ascii) (s : string) : Prop :=
  match s with
  | EmptyString => True
  | String a s' => a <> c /\ free_of c s'
  end.

(** The file that [save_interesting_input] names for a result saved at the
    whole second [ts]. *)
Definition interesting_path (dir : string) (ts : Z) (result : ExecResult) : string :=
  path_join dir (interesting_filename ts (properties result)).

(** The property as specified: a file that the first call created still has
    its content after the second call. *)
Definition never_overwrites (r1 r2 : ExecResult) (w : World) : Prop :=
  forall w1 w2 path mode c,
    save_interesting_input r1 w = (Ok tt, w1) ->
    save_interesting_input r2 w1 = (Ok tt, w2) ->
    fs w !! path = None ->
    fs w1 !! path = Some (File mode c) ->
    fs w2 !! path = Some (File mode c).

(** ** What a strategy may change *)

Definition strategy_frame (data : loc) (w w' : World) : Prop :=
  w' = set_heap (heap w') (set_cursor (cursor w') w)
  /\ length (heap w') = length (heap w)
  /\ (forall l d, l <> data -> heap w !! l = Some (ODict d) -> heap w' !! l = Some (ODict d))
  /\ (forall d, heap w !! data = Some (ODict d) ->
        exists d', heap w' !! data = Some (ODict d')
                   /\ position d' = position d /\ rotation d' = rotation d).

Definition yields {A} (a : A) (m : M A) : Prop :=
  forall w, wp m (fun r _ => forall x, r = Ok x -> x = a) w.

Definition in_place (data : loc) (w : World) : Res loc -> World -> Prop :=
  fun r w' => strategy_frame data w w' /\ forall l, r = Ok l -> l = data.

(** The world right after [input_data.copy()]. *)
Definition copied (d : InputDict) (w : World) : World :=
  set_heap (heap w ++ [ODict d]) (set_cursor (S (cursor w)) w).

Definition list_of_length (h : list Obj) (n : nat) (field : option loc) : Prop :=
  match field with
  | Some p => exists xs, h !! p = Some (OList xs) /\ length xs = n
  | None => True
  end.

Definition well_formed (h : list Obj) (d : InputDict) : Prop :=
  list_of_length h 3 (position d) /\ list_of_length h 4 (rotation d).

Definition well_formed_at (data : loc) (d : InputDict) (h : list Obj) : Prop :=
  h !! data = Some (ODict d) /\ well_formed h d.

Definition same_shape (d d' : InputDict) : Prop :=
  position d' = position d /\ rotation d' = rotation d
  /\ (is_Some (zoom d') <-> is_Some (zoom d))
  /\ (is_Some (bytes d') <-> is_Some (bytes d)).

(** A strategy applied to a well-formed input returns it, well formed and
    with the keys it had. *)
Definition shape_kept (data : loc) (d : InputDict) : Res loc -> World -> Prop :=
  returns (fun l w' =>
    l = data /\ exists d', well_formed_at data d' (heap w') /\ same_shape d d').

(** The strategy returns the dict it was given, whose payload is now some
    [b'] with [P b']; nothing else in the heap changed. *)
Definition payload_becomes (data : loc) (d : InputDict) (w : World) (P : list byte -> Prop)
  : Res loc -> World -> Prop :=
  returns (fun l w' =>
    l = data /\ exists b', heap w' = <[data := ODict (with_bytes d b')]> (heap w) /\ P b').

(** [acc[i] ^= mask] *)
Definition flip_at (mask : Z) (acc : list byte) (i : nat) : list byte :=
  match acc !! i with
  | Some x => <[i := byte_xor x mask]> acc
  | None => acc
  end.

(** One step of [bit_flip]: bit [k] of the byte at [i]. *)
Definition flip_bit (acc : list byte) (f : nat * Z) : list byte :=
  flip_at (Z.shiftl 1 f.2) acc f.1.

Definition with_zoom (d : InputDict) (z : float) : InputDict :=
  {| position := position d; rotation := rotation d; zoom := Some z; bytes := bytes d |}.

(** The deltas of [arithmetic_mutation]. *)
Definition position_deltas : list Z := [-100; -10; -1; 1; 10; 100].

Definition zoom_deltas : list float :=
  [PyFloat.of_Z (-5); PyFloat.of_Z (-1); SFopp PyFloat.lit_0_1; PyFloat.lit_0_1;
   PyFloat.of_Z 1; PyFloat.of_Z 5].

(** [xs'] is [xs] with at most one element, at an index below [n],
    replaced by one of the interesting floats. *)
Definition one_interesting (n : nat) (xs xs' : list float) : Prop :=
  xs' = xs
  \/ exists idx v, (idx < n)%nat /\ v ∈ interesting_floats /\ xs' = <[idx := v]> xs.

(** ** Files: failing writes, partial inputs, exact values *)

(** From a world in which [path] has just been written, the computation
    only appends to that file. *)
Definition appends_to (path : string) (w1 w2 : World) : Prop :=
  forall c w, w1 = written path c w -> exists c', w2 = written path c' w.

(** The number of bytes that a field of [n] floats takes in the file. *)
Definition field_size {A} (n : nat) (field : option A) : nat :=
  match field with
  | Some _ => (4 * n)%nat
  | None => 0%nat
  end.

(** The bit pattern of the quiet NaN that the packer writes. *)
Definition quiet_nan_word : Z := 255 * 2 ^ 23 + 2 ^ 22.

(** Four bytes that are not a NaN with another payload than the quiet
    NaN's. *)
Definition plain_word (bs : list byte) : Prop :=
  Struct.binary32_of_bits (Struct.le_word bs) = S754_nan ->
  Struct.le_word bs = quiet_nan_word.

(** The input that [read_input_file] builds from a file holding the
    encoding of [pos], [rot] and [z]: the new objects, in the order of
    their allocation. *)
Definition read_back (n : nat) (pos rot : list float) (z : float) : list Obj :=
  [OList (map round32 pos); OList (map round32 rot);
   ODict {| position := Some n; rotation := Some (S n); zoom := Some (round32 z);
            bytes := Some (concat (map Struct.pack_f (pos ++ rot ++ [z]))) |}].

(** ** Target runs, oracle and counters *)

(** [self] with [n] as its execution counter. *)
Definition counted (n : Z) (s : CameraFuzzer) : CameraFuzzer :=
  set_stats
    {| start_time := start_time (stats s); total_executions := n;
       crashes := crashes (stats s); timeouts := timeouts (stats s);
       interesting_inputs := interesting_inputs (stats s);
       coverage_increase := coverage_increase (stats s) |} s.

(** What one run of the target leaves behind, from the world [w] on. *)
Definition run_accounted (int_of_str : string -> option Z) (w : World)
  : Res ExecResult -> World -> Prop :=
  fun res w' =>
    let tmp := fuzz_input_path (pid w) in
    let n := total_executions (stats (self w)) in
    heap w' = heap w
    /\ (forall q, q <> tmp -> fs w' !! q = fs w !! q)
    /\ match res with
       | Ok r =>
           self w' = counted (n + 1) (self w)
           /\ fs w' !! tmp = None
           /\ input r = None /\ interesting r = None
           /\ coverage r = extract_coverage int_of_str (stdout r)
           /\ crashed r = (exit_code r <? 0)
           /\ signal r = (if crashed r then Some (- exit_code r) else None)
           /\ (timeout r = true -> exit_code r = 0 /\ stdout r = ""%string)
       | Raise _ => self w' = self w
       end.

(** What the oracle may change: the position on the random tape and, on
    the new-coverage path, the coverage map and its counter. *)
Definition oracle_frame (w w' : World) : Prop :=
  w' = set_self (self w') (set_cursor (cursor w') w)
  /\ (self w' = self w
      \/ exists h, coverage_map (self w) !! h = None
                   /\ self w' = coverage_recorded h (self w)).

Definition oracle_verdict (result : ExecResult) (w : World) : Res bool -> World -> Prop :=
  returns (fun v w' => oracle_frame w w' /\ (crashed result = true -> v = true)).

(** [1] for [True], [0] for [False], as in Python's [int(flag)]. *)
Definition Z_of_flag (flag : bool) : Z := if flag then 1 else 0.

(** Between [w] and [w'] the three result counters went up by [c], [t] and
    [i]; the heap, the random tape, the coverage data and the other
    counters are the same; signatures were only added. *)
Definition tally (c t i : Z) (w w' : World) : Prop :=
  heap w' = heap w /\ cursor w' = cursor w
  /\ coverage_map (self w') = coverage_map (self w)
  /\ unique_crashes (self w) ⊆ unique_crashes (self w')
  /\ stats (self w')
     = {| start_time := start_time (stats (self w));
          total_executions := total_executions (stats (self w));
          crashes := crashes (stats (self w)) + c;
          timeouts := timeouts (stats (self w)) + t;
          interesting_inputs := interesting_inputs (stats (self w)) + i;
          coverage_increase := coverage_increase (stats (self w)) |}.

(** The counters after [process_result]: each flag of the result is counted
    once, the crash flag always, the other two whenever the call gets that
    far. *)
Definition counted_flags (result : ExecResult) (w : World) : Res unit -> World -> Prop :=
  fun res w' =>
    exists t i,
      tally (Z_of_flag (crashed result)) t i w w'
      /\ (t = 0 \/ t = Z_of_flag (timeout result))
      /\ (i = 0 \/ interesting result = Some true /\ i = 1)
      /\ (res = Ok tt ->
          t = Z_of_flag (timeout result)
          /\ exists flag, interesting result = Some flag /\ i = Z_of_flag flag).

(** ** The crash directory *)

(** The text of [reproduce.sh] for a crash with signal [sg]. *)
Definition reproduce_script (sg : Z) (target : string) : string :=
  ("#!/bin/bash" ++ nl
   ++ "# Crash reproduction script" ++ nl
   ++ "# Signal: " ++ str_of_int sg ++ nl
   ++ target ++ " --fuzz-input input.bin" ++ nl)%string.

(** The metadata of a crash with signal [sg] saved at the time [now]. *)
Definition crash_metadata (result : ExecResult) (sg : Z) (now : string) : Metadata :=
  {| md_timestamp := now;
     md_signal := sg;
     md_exit_code := exit_code result;
     md_execution_time := execution_time result;
     md_stdout := str_take 1000 (stdout result);
     md_stderr := str_take 1000 (stderr result) |}.

(** The crash directory and its three files, in a file system [f]. *)
Definition crash_files (f : gmap string Node) (crash_dir : string)
    (input_bytes : list byte) (metadata script : string) : gmap string Node :=
  <[path_join crash_dir "reproduce.sh" := File 493 (encode_text script)]>
    (<[path_join crash_dir "metadata.json" := File default_mode (encode_text metadata)]>
       (<[path_join crash_dir "input.bin" := File default_mode input_bytes]>
          (<[crash_dir := Dir]> f))).

(** ** Coverage lines *)

(** Every character of [s] satisfies [P]. *)
Fixpoint string_all (P : ascii -> Prop) (s : string) : Prop :=
  match s with
  | EmptyString => True
  | String a s' => P a /\ string_all P s'
  end.

(** The characters of a decimal numeral. *)
Definition numeral_char (a : ascii) : bool :=
  let n := nat_of_ascii a in
  (n =? 45)%nat || ((48 <=? n)%nat && (n <=? 57)%nat).

Definition numeral (s : string) : Prop := string_all (fun a => numeral_char a = true) s.

(** A line of target output: text that is not a coverage line, or the
    coverage line [COV:n1,n2,...]. *)
Inductive OutputLine :=
| Text (s : string)
| Cov (ids : list Z).

Definition render_line (l : OutputLine) : string :=
  match l with
  | Text s => s
  | Cov ids => ("COV:" ++ String.concat "," (map str_of_int ids))%string
  end.

Definition render (ls : list OutputLine) : string :=
  String.concat nl (map render_line ls).

Definition line_ids (l : OutputLine) : list Z :=
  match l with
  | Text _ => []
  | Cov ids => ids
  end.

(** A text line has no newline and does not start with [COV:]. *)
Definition plain_text (l : OutputLine) : Prop :=
  match l with
  | Text s => free_of (ascii_of_nat 10) s /\ String.prefix "COV:" s = false
  | Cov _ => True
  end.

(** What one line of output adds to the coverage list. *)
Definition coverage_step (int_of_str : string -> option Z)
    (coverage : list Z) (line : string) : list Z :=
  if String.prefix "COV:" line then
    match split_on ":" line with
    | _ :: field :: _ => extend_ints int_of_str coverage (split_on "," (strip field))
    | _ => coverage
    end
  else coverage.

(** ** The corpus on disk *)

(** The contents of the regular files among [listing], in order. *)
Definition readable_contents (f : gmap string Node) (listing : list string)
  : list (list byte) :=
  omap (fun p => match f !! p with
                 | Some (File _ c) => Some c
                 | _ => None
                 end) listing.

(** The input at [l] carries the payload [c]. *)
Definition holds_payload (h : list Obj) (l : loc) (c : list byte) : Prop :=
  exists d, h !! l = Some (ODict d) /\ bytes d = Some c.

(** ** The seeds on disk *)

(** The input at [l] is a structured input without payload, with three
    position and four rotation components, and [b] is its encoding. *)
Definition seed_input (h : list Obj) (l : loc) (b : list byte) : Prop :=
  exists p r z pos rot,
    h !! l = Some (ODict (structured p r z))
    /\ h !! p = Some (OList pos) /\ length pos = 3%nat
    /\ h !! r = Some (OList rot) /\ length rot = 4%nat
    /\ b = concat (map Struct.pack_f (pos ++ rot ++ [z])).

(** The first [n] seed files of the directory [dir]. *)
Definition seed_paths (dir : string) (n : nat) : list string :=
  map (fun i => path_join dir (seed_filename i)) (seq 0 n).

(** The inputs built so far: the heap has only grown, the random stream
    is at [c], and every input of [corpus] is a new seed input. *)
Definition seeds_built (w : World) (c : nat) (corpus : list loc) (w' : World) : Prop :=
  (exists new, w' = set_heap (heap w ++ new) (set_cursor c w))
  /\ Forall (fun l => (length (heap w) <= l)%nat /\ exists b, seed_input (heap w') l b) corpus.

(** * Concrete worlds *)

(** A random tape that yields the listed raw draws, then zeros. *)
Definition tape_of (draws : list Z) : nat -> Z := fun n => nth n draws 0.

Definition fresh_fuzzer : CameraFuzzer :=
  {| target_binary := "./camera_test"; corpus_dir := "fuzz_corpus";
     crashes_dir := "crashes";
     stats := {| start_time := PyFloat.of_Z 0; total_executions := 0; crashes := 0;
                 timeouts := 0; interesting_inputs := 0; coverage_increase := 0 |};
     coverage_map := ∅; unique_crashes := ∅ |}.

(** A world with the given heap, random tape and files, in which the clock
    reads [now] at every tick and the child exits with status 0. *)
Definition world_of (h : list Obj) (draws : list Z) (now : float)
    (files : gmap string Node) : World :=
  {| heap := h; entropy := tape_of draws; cursor := 0;
     clock := fun _ => now; isoclock := fun _ => "2025-01-01T00:00:00"%string;
     child := fun _ => Exited 0 "" ""; tick := 0; pid := 4242;
     fs := files; self := fresh_fuzzer |}.

Definition set_child (c : nat -> ProcOutcome) (w : World) : World :=
  {| heap := heap w; entropy := entropy w; cursor := cursor w; clock := clock w;
     isoclock := isoclock w; child := c; tick := tick w; pid := pid w;
     fs := fs w; self := self w |}.

Definition bytes_0_to_7 : list byte :=
  ["000"; "001"; "002"; "003"; "004"; "005"; "006"; "007"]%byte.

(** An 8-byte payload; the draws pick block size 4 (first choice) and the
    offsets 0 and 1. *)
Definition overlap_world : World :=
  world_of [ODict (raw_input bytes_0_to_7)] [0; 0; 1] (PyFloat.of_Z 0) ∅.

(** An input with an empty payload. *)
Definition empty_payload_world : World :=
  world_of [ODict (raw_input [])] [5; 9; 7; 3] (PyFloat.of_Z 0) ∅.

(** The literal seed [{position: [0,0,0], rotation: [1,0,0,0], zoom: 5.0}]. *)
Definition seed_heap : list Obj :=
  [ODict (structured 1%nat 2%nat (PyFloat.of_Z 5));
   OList [PyFloat.zero; PyFloat.zero; PyFloat.zero];
   OList [PyFloat.one; PyFloat.zero; PyFloat.zero; PyFloat.zero]].

(** The draws pick [arithmetic_mutation], index 0 and delta 1 for the
    position, delta 1 for the zoom, and 0.5 for the stacking test. *)
Definition arithmetic_world : World :=
  world_of seed_heap [2; 0; 3; 4; 2 ^ 52] (PyFloat.of_Z 0) ∅.

(** The draws pick [interesting_values]; 0.0 < 0.3 lets the position
    branch run with index 0 and the value 1.0; the other two fields are
    skipped (0.5), and so is stacking. *)
Definition interesting_world : World :=
  world_of seed_heap [3; 0; 0; 2; 2 ^ 52; 2 ^ 52; 2 ^ 52] (PyFloat.of_Z 0) ∅.

(** A camera at x = 2^24 + 1, a number that binary32 cannot hold. *)
Definition far_camera_world : World :=
  world_of
    [ODict (structured 1%nat 2%nat (PyFloat.of_Z 5));
     OList [PyFloat.of_Z 16777217; PyFloat.zero; PyFloat.zero];
     OList [PyFloat.one; PyFloat.zero; PyFloat.zero; PyFloat.zero]]
    [] (PyFloat.of_Z 0) ∅.

Definition three_bytes : list byte := ["001"; "002"; "003"]%byte.

(** 32 zero bytes and one more. *)
Definition thirty_three_bytes : list byte := replicate 32 "000"%byte ++ ["255"%byte].

(** A corpus directory with a short and a long file, and no object yet. *)
Definition corpus_world : World :=
  world_of [] [] (PyFloat.of_Z 1700000000)
    {[ "fuzz_corpus/short.bin"%string := File 420 three_bytes;
       "fuzz_corpus/long.bin"%string := File 420 thirty_three_bytes ]}.

(** Two inputs with different payloads, saved within the same second. *)
Definition same_second_world : World :=
  world_of [ODict (raw_input ["001"%byte]); ODict (raw_input ["002"%byte])]
    [] (PyFloat.of_Z 1700000000) ∅.

(** A child that dies of signal 11, and one that hangs. *)
Definition segv_world : World :=
  set_child (fun _ => Exited (-11) "" "Segmentation fault") overlap_world.

Definition hang_world : World :=
  set_child (fun _ => HardTimeout) overlap_world.

(** Stand-ins for the library functions. *)
Definition toy_digest (b : list byte) : string := string_of_list_byte b.

Definition toy_int (s : string) : option Z := None.

Definition toy_json (m : Metadata) : string := md_timestamp m.

Definition benign_result (inp : loc) : ExecResult :=
  {| execution_time := PyFloat.of_Z 1; exit_code := 0; crashed := false;
     timeout := false; stdout := ""; stderr := ""; coverage := None;
     signal := None; input := Some inp; interesting := Some true |}.

Definition segv_result (inp : loc) : ExecResult :=
  {| execution_time := PyFloat.of_Z 0; exit_code := -11; crashed := true;
     timeout := false; stdout := ""; stderr := "Segmentation fault"; coverage := None;
     signal := Some 11; input := Some inp; interesting := Some true |}.

Definition covered_result : ExecResult :=
  {| execution_time := PyFloat.lit_0_5; exit_code := 0; crashed := false;
     timeout := false; stdout := "COV:1,2"; stderr := ""; coverage := Some [2; 1];
     signal := None; input := Some 0%nat; interesting := None |}.

(** A fuzzer that has seen the coverage [1, 2] before. *)
Definition seen_world : World :=
  set_self (set_coverage_map {[ hash_coverage toy_digest [1; 2] := true ]} fresh_fuzzer)
    overlap_world.

(** ** Worlds for the further properties *)

(** A structured input whose position list has one component only. *)
Definition malformed_world : World :=
  world_of
    [ODict (structured 1%nat 2%nat (PyFloat.of_Z 5));
     OList [PyFloat.zero];
     OList [PyFloat.one; PyFloat.zero; PyFloat.zero; PyFloat.zero]]
    [] (PyFloat.of_Z 0) ∅.

(** A 10-byte payload; the draws pick the start 2, the length 4 and the
    insertion point 10 of a splice. *)
Definition bytes_0_to_9 : list byte :=
  ["000"; "001"; "002"; "003"; "004"; "005"; "006"; "007"; "008"; "009"]%byte.

Definition splice_world : World :=
  world_of [ODict (raw_input bytes_0_to_9)] [2; 0; 10] (PyFloat.of_Z 0) ∅.

(** The input [{'zoom': 5.0}]. *)
Definition zoom_only : InputDict :=
  {| position := None; rotation := None; zoom := Some (PyFloat.of_Z 5); bytes := None |}.

Definition zoom_only_world : World :=
  world_of [ODict zoom_only] [] (PyFloat.of_Z 0) ∅.

(** The coverage of [covered_result], reported in another order. *)
Definition covered_result_sorted : ExecResult :=
  {| execution_time := PyFloat.lit_0_5; exit_code := 0; crashed := false;
     timeout := false; stdout := "COV:1,2"; stderr := ""; coverage := Some [1; 2];
     signal := None; input := Some 0%nat; interesting := None |}.

(** A parser that knows the two numerals of [sample_output]. *)
Definition toy_parser (s : string) : option Z :=
  if String.eqb s "7" then Some 7
  else if String.eqb s "12" then Some 12
  else None.

Definition sample_output : list OutputLine :=
  [Text "boot"; Cov [7; 12]; Text "done"].

(** * Proofs *)

(** ** The model on known values *)

Example pack_one : Struct.pack_f PyFloat.one = ["000"; "000"; "128"; "063"]%byte.
Proof. reflexivity. Qed.

Example pack_nan : Struct.pack_f PyFloat.nan = ["000"; "000"; "192"; "127"]%byte.
Proof. reflexivity. Qed.

Example pack_0_1 : Struct.pack_f PyFloat.lit_0_1 = ["205"; "204"; "204"; "061"]%byte.
Proof. reflexivity. Qed.

Example pack_overflow :
  Struct.pack_f (PyFloat.of_Z (10 ^ 39)) = ["000"; "000"; "128"; "127"]%byte.
Proof. reflexivity. Qed.

Example round32_five : round32 (PyFloat.of_Z 5) = PyFloat.of_Z 5.
Proof. reflexivity. Qed.

Example round32_far : round32 (PyFloat.of_Z 16777217) = PyFloat.of_Z 16777216.
Proof. reflexivity. Qed.

Example round32_0_1 : close (round32 PyFloat.lit_0_1) PyFloat.lit_0_1 = true
                      /\ round32 PyFloat.lit_0_1 <> PyFloat.lit_0_1.
Proof. split; [reflexivity|discriminate]. Qed.

Example int_truncates :
  PyFloat.to_Z (SFopp (PyFloat.add (PyFloat.of_Z 2) PyFloat.lit_0_5)) = Some (-2).
Proof. reflexivity. Qed.

Example shuffled_overlap :
  shuffled bytes_0_to_7 0 1 4
  = ["001"; "000"; "001"; "002"; "003"; "005"; "006"; "007"]%byte.
Proof. reflexivity. Qed.

Example coverage_lines :
  extract_coverage
    (fun s => if String.eqb s "1" then Some 1 else if String.eqb s "22" then Some 22 else None)
    ("hello" ++ nl ++ "COV:1,22,,1" ++ nl ++ "COV: 22,x,1" ++ nl)%string
  = Some [1; 22; 1; 22].
Proof. reflexivity. Qed.

Example file_name : interesting_filename 1700000000 [] = "id_1700000000_.bin"%string.
Proof. reflexivity. Qed.

Example signature_prefix :
  crash_signature toy_digest 11 "Segmentation fault" = "11:Segmentation "%string.
Proof. reflexivity. Qed.

(** ** Rules for reasoning about computations *)

Lemma wp_run {A} (m : M A) Q w r w' : m w = (r, w') -> wp m Q w -> Q r w'.
Proof. unfold wp. intros ->. done. Qed.

Lemma wp_mono {A} (m : M A) (Q Q' : Res A -> World -> Prop) w :
  wp m Q w -> (forall r w', Q r w' -> Q' r w') -> wp m Q' w.
Proof. unfold wp. auto. Qed.

Lemma wp_ret {A} (a : A) (Q : Res A -> World -> Prop) w : Q (Ok a) w -> wp (ret a) Q w.
Proof. done. Qed.

Lemma wp_bind {A B} (m : M A) (k : A -> M B) (Q : Res B -> World -> Prop) w :
  wp m (fun r w' => match r with
                    | Ok a => wp (k a) Q w'
                    | Raise e => Q (Raise e) w'
                    end) w ->
  wp (bind m k) Q w.
Proof. unfold wp, bind. destruct (m w) as [[a|e] w']; done. Qed.

(** The rule for a [bind] whose first part cannot raise. *)
Lemma wp_bind_ok {A B} (m : M A) (k : A -> M B) (Q : Res B -> World -> Prop) w :
  wp m (returns (fun a w' => wp (k a) Q w')) w -> wp (bind m k) Q w.
Proof.
  intros H. apply wp_bind. eapply wp_mono; [exact H|].
  intros [a|e] w'; simpl; done.
Qed.

Lemma wp_returns_run {A} (m : M A) (P : A -> World -> Prop) w :
  wp m (returns P) w -> exists a w', m w = (Ok a, w') /\ P a w'.
Proof.
  unfold wp, returns. destruct (m w) as [[a|e] w']; simpl; [eauto | done].
Qed.

(** *** Worlds that differ in one component *)

Lemma set_cursor_twice c c' w : set_cursor c (set_cursor c' w) = set_cursor c w.
Proof. done. Qed.

Lemma set_fs_same w : set_fs (fs w) w = w.
Proof. by destruct w. Qed.

Lemma set_cursor_same w : set_cursor (cursor w) w = w.
Proof. by destruct w. Qed.

(** *** Rules for the primitives *)

Lemma len_nonneg {A} (l : list A) : 0 <= len l.
Proof. unfold len. lia. Qed.

Lemma wp_get_dict l d (Q : Res InputDict -> World -> Prop) w :
  heap w !! l = Some (ODict d) -> Q (Ok d) w -> wp (get_dict l) Q w.
Proof. intros H HQ. unfold wp, get_dict. by rewrite H. Qed.

Lemma wp_draw (Q : Res Z -> World -> Prop) w :
  (forall v, Q (Ok v) (set_cursor (S (cursor w)) w)) -> wp draw Q w.
Proof. intros H. apply H. Qed.

Lemma wp_randbelow n (Q : Res Z -> World -> Prop) w :
  0 < n ->
  (forall v, 0 <= v < n -> Q (Ok v) (set_cursor (S (cursor w)) w)) ->
  wp (randbelow n) Q w.
Proof.
  intros Hn H. unfold randbelow. apply wp_bind, wp_draw. intros v.
  apply wp_ret, H, Z.mod_pos_bound, Hn.
Qed.

Lemma wp_randint a b (Q : Res Z -> World -> Prop) w :
  a <= b ->
  (forall v, a <= v <= b -> Q (Ok v) (set_cursor (S (cursor w)) w)) ->
  wp (random_randint a b) Q w.
Proof.
  intros Hab H. unfold random_randint.
  destruct (Z.ltb_spec b a); [lia|].
  apply wp_bind, wp_randbelow; [lia|]. intros v Hv. apply wp_ret, H. lia.
Qed.

Lemma norm_index_in_range n i :
  0 <= i < n -> norm_index n i = Some (Z.to_nat i).
Proof.
  intros H. unfold norm_index.
  destruct (Z.ltb_spec i 0); [lia|].
  destruct (Z.leb_spec 0 i); [|lia].
  destruct (Z.ltb_spec i n); [done|lia].
Qed.

Lemma wp_getitem {A} (xs : list A) i (Q : Res A -> World -> Prop) w :
  0 <= i < len xs ->
  (forall x, xs !! Z.to_nat i = Some x -> Q (Ok x) w) ->
  wp (getitem xs i) Q w.
Proof.
  intros Hi H. unfold getitem. rewrite norm_index_in_range by done.
  destruct (xs !! Z.to_nat i) as [x|] eqn:E.
  - by apply wp_ret, H.
  - apply lookup_ge_None in E. unfold len in Hi. lia.
Qed.

Lemma wp_setitem {A} (xs : list A) i v (Q : Res (list A) -> World -> Prop) w :
  0 <= i < len xs ->
  Q (Ok (<[Z.to_nat i := v]> xs)) w ->
  wp (setitem xs i v) Q w.
Proof.
  intros Hi H. unfold setitem. rewrite norm_index_in_range by done. by apply wp_ret.
Qed.

Lemma wp_choice {A} (seq : list A) (Q : Res A -> World -> Prop) w :
  seq <> [] ->
  (forall x, x ∈ seq -> Q (Ok x) (set_cursor (S (cursor w)) w)) ->
  wp (random_choice seq) Q w.
Proof.
  intros Hne H. unfold random_choice. destruct seq as [|x0 seq0]; [done|].
  set (seq := x0 :: seq0) in *.
  assert (0 < len seq) by (unfold len, seq; simpl; lia).
  apply wp_bind, wp_randbelow; [done|]. intros v Hv.
  apply wp_getitem; [lia|].
  intros x Hx. apply H. eapply list_elem_of_lookup_2, Hx.
Qed.

Lemma wp_random (Q : Res float -> World -> Prop) w :
  (forall r, Q (Ok r) (set_cursor (S (cursor w)) w)) -> wp random_random Q w.
Proof. intros H. unfold random_random. apply wp_bind, wp_draw. intros v. apply wp_ret, H. Qed.

Lemma wp_urandom n (Q : Res (list byte) -> World -> Prop) w :
  (forall bs c, Q (Ok bs) (set_cursor c w)) -> wp (urandom n) Q w.
Proof.
  revert Q w. induction n as [|n IH]; intros Q w H; simpl.
  - apply wp_ret. rewrite <- (set_cursor_same w). apply H.
  - apply wp_bind, wp_draw. intros v. apply wp_bind, IH. intros bs c.
    apply wp_ret. rewrite set_cursor_twice. apply H.
Qed.

Lemma wp_set_item_bytes l d v (Q : Res unit -> World -> Prop) w :
  heap w !! l = Some (ODict d) ->
  Q (Ok tt) (set_heap (<[l := ODict {| position := position d; rotation := rotation d;
                                        zoom := zoom d; bytes := Some v |}]> (heap w)) w) ->
  wp (set_item_bytes l v) Q w.
Proof.
  intros H HQ. unfold set_item_bytes. apply wp_bind. eapply wp_get_dict; [done|]. exact HQ.
Qed.

(** An invariant of the loop body is an invariant of the loop. *)
Lemma wp_for_range {A} (I : A -> World -> Prop) n (body : A -> M A) acc w :
  (forall acc w, I acc w -> wp (body acc) (returns I) w) ->
  I acc w ->
  wp (for_range n body acc) (returns I) w.
Proof.
  intros Hbody. revert acc w. induction n as [|n IH]; intros acc w HI; simpl.
  - by apply wp_ret.
  - apply wp_bind_ok. eapply wp_mono; [by apply Hbody|].
    intros [a|e] w'; simpl; [apply IH | done].
Qed.

(** ** Byte-oriented strategies never raise *)

Lemma heap_insert_same (w : World) data d b :
  heap w !! data = Some (ODict d) -> bytes d = Some b ->
  heap w = <[data := ODict (with_bytes d b)]> (heap w).
Proof.
  intros H Hb. symmetry. apply list_insert_id. rewrite H. f_equal. f_equal.
  destruct d; simpl in *. unfold with_bytes; simpl. by rewrite Hb.
Qed.

Lemma finish_strategy data d v w0 w (Q := payload_kept data d w0) :
  heap w = heap w0 -> heap w0 !! data = Some (ODict d) ->
  wp (set_item_bytes data v >> ret data) Q w.
Proof.
  intros Hh Hd. apply wp_bind. eapply wp_set_item_bytes; [by rewrite Hh|].
  apply wp_ret. split; [done|]. exists v. simpl. by rewrite Hh.
Qed.

Lemma finish_set data d v w0 w (Q := payload_kept data d w0) :
  heap w = heap w0 -> heap w0 !! data = Some (ODict d) ->
  wp (set_item_bytes data v)
     (fun r w' => match r with
                  | Ok _ => wp (ret data) Q w'
                  | Raise e => Q (Raise e) w'
                  end) w.
Proof.
  intros Hh Hd. eapply wp_set_item_bytes; [by rewrite Hh|].
  apply wp_ret. split; [done|]. exists v. simpl. by rewrite Hh.
Qed.

Lemma xor_loop_ok n (body : list byte -> M (list byte)) b w0 w :
  (forall acc w', length acc = length b -> heap w' = heap w0 ->
     wp (body acc) (returns (fun acc' w'' => length acc' = length b /\ heap w'' = heap w0)) w') ->
  heap w = heap w0 ->
  wp (for_range n body b)
     (returns (fun acc' w'' => length acc' = length b /\ heap w'' = heap w0)) w.
Proof.
  intros Hbody Hw.
  apply (wp_for_range (fun acc w' => length acc = length b /\ heap w' = heap w0)).
  - intros acc w' [? ?]. by apply Hbody.
  - done.
Qed.

Lemma wp_bytearray_ixor bs i m (Q : Res (list byte) -> World -> Prop) w :
  0 <= i < len bs ->
  (forall bs', length bs' = length bs -> Q (Ok bs') w) ->
  wp (bytearray_ixor bs i m) Q w.
Proof.
  intros Hi H. unfold bytearray_ixor. apply wp_bind, wp_getitem; [done|].
  intros x _. apply wp_setitem; [done|]. apply H, length_insert.
Qed.

Lemma bit_flip_ok data d b w :
  heap w !! data = Some (ODict d) -> bytes d = Some b ->
  wp (bit_flip data) (payload_kept data d w) w.
Proof.
  intros Hd Hb. unfold bit_flip. apply wp_bind. eapply wp_get_dict; [done|].
  rewrite Hb. destruct (Z.eqb_spec (len b) 0) as [E|E].
  { apply wp_ret. split; [done|]. exists b. by apply heap_insert_same. }
  pose proof (len_nonneg b).
  apply wp_bind, wp_randint; [lia|]. intros num_flips _.
  apply wp_bind_ok. eapply wp_mono.
  { apply (xor_loop_ok _ _ b w); [|done].
    intros acc w' Hacc Hw'.
    apply wp_bind, wp_randint; [unfold len in *; lia|]. intros byte_idx Hidx.
    apply wp_bind, wp_randint; [lia|]. intros bit_idx _.
    apply wp_bytearray_ixor; [unfold len in *; lia|].
    intros bs' Hbs'. simpl. split; [congruence|done]. }
  intros [acc|e] w'; simpl; [|done]. intros [_ Hw'].
  by apply finish_strategy.
Qed.

Lemma byte_flip_ok data d b w :
  heap w !! data = Some (ODict d) -> bytes d = Some b ->
  wp (byte_flip data) (payload_kept data d w) w.
Proof.
  intros Hd Hb. unfold byte_flip. apply wp_bind. eapply wp_get_dict; [done|].
  rewrite Hb. destruct (Z.eqb_spec (len b) 0) as [E|E].
  { apply wp_ret. split; [done|]. exists b. by apply heap_insert_same. }
  pose proof (len_nonneg b).
  apply wp_bind, wp_randint; [lia|]. intros num_flips _.
  apply wp_bind_ok. eapply wp_mono.
  { apply (xor_loop_ok _ _ b w); [|done].
    intros acc w' Hacc Hw'.
    apply wp_bind, wp_randint; [unfold len in *; lia|]. intros idx Hidx.
    apply wp_bytearray_ixor; [unfold len in *; lia|].
    intros bs' Hbs'. simpl. split; [congruence|done]. }
  intros [acc|e] w'; simpl; [|done]. intros [_ Hw'].
  by apply finish_strategy.
Qed.

Lemma block_shuffle_ok data d b w :
  heap w !! data = Some (ODict d) -> bytes d = Some b ->
  wp (block_shuffle data) (payload_kept data d w) w.
Proof.
  intros Hd Hb. unfold block_shuffle. apply wp_bind. eapply wp_get_dict; [done|].
  rewrite Hb. destruct (Z.ltb_spec (len b) 8).
  { apply wp_ret. split; [done|]. exists b. by apply heap_insert_same. }
  apply wp_bind, wp_choice; [done|]. intros block_size Hbs.
  destruct (Z.ltb_spec (len b / 2) block_size).
  { apply wp_ret. split; [done|]. exists b. simpl. by apply heap_insert_same. }
  assert (0 < block_size) by (set_unfold; lia).
  assert (block_size <= len b) by (pose proof (Z.mul_div_le (len b) 2); lia).
  apply wp_bind, wp_randint; [lia|]. intros idx1 _.
  apply wp_bind, wp_randint; [lia|]. intros idx2 _.
  by apply finish_strategy.
Qed.

Lemma truncate_extend_ok data d b w :
  heap w !! data = Some (ODict d) -> bytes d = Some b ->
  wp (truncate_extend data) (payload_kept data d w) w.
Proof.
  intros Hd Hb. unfold truncate_extend. apply wp_bind. eapply wp_get_dict; [done|].
  rewrite Hb. apply wp_bind, wp_random. intros r.
  apply wp_bind.
  destruct (PyFloat.ltb r PyFloat.lit_0_5).
  - destruct (Z.ltb_spec 4 (len b)).
    + apply wp_bind, wp_randint; [lia|]. intros new_len _. apply wp_ret.
      by apply finish_strategy.
    + apply wp_ret. by apply finish_strategy.
  - apply wp_bind, wp_randint; [lia|]. intros extend_len _.
    apply wp_bind, wp_random. intros r'.
    destruct (PyFloat.ltb r' PyFloat.lit_0_5).
    + apply wp_ret. by apply finish_strategy.
    + unfold os_urandom. apply wp_bind, wp_urandom. intros junk c. apply wp_ret.
      by apply finish_strategy.
Qed.

Lemma splice_inputs_ok data d b w :
  heap w !! data = Some (ODict d) -> bytes d = Some b ->
  wp (splice_inputs data) (payload_kept data d w) w.
Proof.
  intros Hd Hb. unfold splice_inputs. apply wp_bind. eapply wp_get_dict; [done|].
  rewrite Hb. destruct (Z.ltb_spec 8 (len b)).
  - apply wp_bind, wp_bind, wp_randint; [lia|]. intros start Hstart.
    apply wp_bind, wp_randint; [lia|]. intros length _.
    apply wp_bind, wp_randint; [lia|]. intros insert_pos _.
    by apply finish_set.
  - apply wp_bind, wp_ret, wp_ret. split; [done|]. exists b. by apply heap_insert_same.
Qed.

Lemma dictionary_mutation_ok data d b w :
  heap w !! data = Some (ODict d) -> bytes d = Some b ->
  wp (dictionary_mutation data) (payload_kept data d w) w.
Proof.
  intros Hd Hb. unfold dictionary_mutation. apply wp_bind. eapply wp_get_dict; [done|].
  rewrite Hb. apply wp_bind, wp_bind, wp_choice; [done|]. intros token _.
  apply wp_bind.
  destruct (Z.leb_spec (len token) (len b)).
  - apply wp_bind, wp_randint; [lia|]. intros pos _. apply wp_ret.
    by apply finish_set.
  - apply wp_ret. by apply finish_set.
Qed.

(** C10: each byte-oriented strategy, applied to an input that has a byte
    payload of any length (empty included), returns that input and does not
    raise, whatever the random draws are. *)
Theorem byte_strategies_total :
  forall strategy data d b w,
    strategy ∈ byte_strategies ->
    heap w !! data = Some (ODict d) ->
    bytes d = Some b ->
    exists w', strategy data w = (Ok data, w')
               /\ exists b', heap w' !! data = Some (ODict (with_bytes d b')).
Proof.
  intros strategy data d b w Hin Hd Hb.
  assert (wp (strategy data) (payload_kept data d w) w) as H.
  { unfold byte_strategies in Hin. set_unfold.
    destruct Hin as [->|[->|[->|[->|[->|[->|[]]]]]]];
      eauto using bit_flip_ok, byte_flip_ok, block_shuffle_ok, truncate_extend_ok,
                  splice_inputs_ok, dictionary_mutation_ok. }
  apply wp_returns_run in H as (l & w' & Hrun & -> & b' & Hheap).
  exists w'. split; [done|]. exists b'. rewrite Hheap.
  apply list_lookup_insert_eq. by eapply lookup_lt_Some.
Qed.

(** ** Writing an input file *)

Lemma open_wb_run path w :
  fs w !! path <> Some Dir ->
  open_wb path w = (Ok tt, written path [] w).
Proof.
  intros H. unfold open_wb, written, file_mode.
  destruct (fs w !! path) as [[|mode c]|]; done.
Qed.

Lemma file_write_run path b mode c w :
  fs w !! path = Some (File mode c) ->
  file_write path b w = (Ok tt, set_fs (<[path := File mode (c ++ b)]> (fs w)) w).
Proof. intros H. unfold file_write. by rewrite H. Qed.

Lemma file_write_written path b c w :
  file_write path b (written path c w) = (Ok tt, written path (c ++ b) w).
Proof.
  unfold written. erewrite file_write_run; [|by simpl; rewrite lookup_insert_eq].
  simpl. by rewrite insert_insert_eq.
Qed.

Lemma write_field_run path n field c w (h := heap w) packed :
  packed_field h n field = Some packed ->
  (match field with
   | Some p =>
       let* xs := get_list p in
       let* packed := struct_pack n xs in
       file_write path packed
   | None => ret tt
   end) (written path c w) = (Ok tt, written path (c ++ packed) w).
Proof.
  unfold packed_field, h. destruct field as [p|]; simpl.
  - destruct (heap w !! p) as [[|xs]|] eqn:E; try done. intros Hp.
    unfold bind at 1. unfold get_list. simpl. rewrite E.
    unfold bind at 1. unfold struct_pack. rewrite Hp. simpl.
    apply file_write_written.
  - intros [= <-]. by rewrite app_nil_r.
Qed.

Lemma write_input_file_run path l d b w :
  heap w !! l = Some (ODict d) ->
  encode_input (heap w) d = Some b ->
  fs w !! path <> Some Dir ->
  write_input_file path l w = (Ok tt, written path b w).
Proof.
  intros Hd Henc Hpath. unfold write_input_file.
  unfold bind at 1. rewrite open_wb_run by done.
  unfold bind at 1. unfold get_dict. simpl. rewrite Hd.
  unfold encode_input in Henc. destruct (bytes d) as [raw|].
  { injection Henc as <-. apply (file_write_written path raw []). }
  destruct (packed_field (heap w) 3 (position d)) as [pos|] eqn:Epos; [|done].
  destruct (packed_field (heap w) 4 (rotation d)) as [rot|] eqn:Erot; [|done].
  injection Henc as <-.
  unfold bind at 1. rewrite (write_field_run path 3 (position d) [] w pos) by done.
  unfold bind at 1. rewrite (write_field_run path 4 (rotation d) _ w rot) by done.
  destruct (zoom d) as [z|]; simpl.
  - unfold bind at 1. unfold struct_pack. simpl.
    rewrite file_write_written. by rewrite <- app_assoc.
  - unfold ret. by rewrite app_nil_r.
Qed.

Lemma fs_only_at_refl path w : fs_only_at path w w.
Proof. split; [by rewrite set_fs_same|done]. Qed.

Lemma fs_only_at_trans path w1 w2 w3 :
  fs_only_at path w1 w2 -> fs_only_at path w2 w3 -> fs_only_at path w1 w3.
Proof.
  intros (E1 & F1 & D1) (E2 & F2 & D2). split; [|split].
  - rewrite E2 at 1. rewrite E1. done.
  - intros q Hq. rewrite F2, F1; done.
  - rewrite D2, D1. done.
Qed.

Lemma open_wb_frame path w :
  wp (open_wb path) (fun _ w' => fs_only_at path w w') w.
Proof.
  unfold wp, open_wb. destruct (fs w !! path) as [[|mode c]|] eqn:E; simpl.
  - apply fs_only_at_refl.
  - split; [done|]. split; simpl.
    + intros q Hq. by rewrite lookup_insert_ne.
    + rewrite lookup_insert_eq, E. done.
  - split; [done|]. split; simpl.
    + intros q Hq. by rewrite lookup_insert_ne.
    + rewrite lookup_insert_eq, E. done.
Qed.

Lemma file_write_frame path b w :
  wp (file_write path b) (fun _ w' => fs_only_at path w w') w.
Proof.
  unfold wp, file_write. destruct (fs w !! path) as [[|mode c]|] eqn:E; simpl;
    try apply fs_only_at_refl.
  split; [done|]. split; simpl.
  - intros q Hq. by rewrite lookup_insert_ne.
  - rewrite lookup_insert_eq, E. done.
Qed.

(** Sequencing two computations that stay within [fs_only_at]. *)
Lemma frame_bind {A B} path (m : M A) (k : A -> M B) w :
  wp m (fun _ w' => fs_only_at path w w') w ->
  (forall a w', wp (k a) (fun _ w'' => fs_only_at path w' w'') w') ->
  wp (bind m k) (fun _ w' => fs_only_at path w w') w.
Proof.
  intros Hm Hk. apply wp_bind. eapply wp_mono; [exact Hm|].
  intros [a|e] w' Hw'; simpl; [|done].
  eapply wp_mono; [apply Hk|]. intros r w''. simpl. by apply fs_only_at_trans.
Qed.

Lemma pure_frame {A} path (m : M A) w :
  (m w).2 = w -> wp m (fun _ w' => fs_only_at path w w') w.
Proof. unfold wp. intros ->. apply fs_only_at_refl. Qed.

Lemma write_field_frame path n field w :
  wp (match field with
      | Some p =>
          let* xs := get_list p in
          let* packed := struct_pack n xs in
          file_write path packed
      | None => ret tt
      end) (fun _ w' => fs_only_at path w w') w.
Proof.
  destruct field as [p|]; [|by apply pure_frame].
  apply frame_bind.
  { apply pure_frame. unfold get_list. by destruct (heap w !! p) as [[]|]. }
  intros xs w1. apply frame_bind.
  { apply pure_frame. unfold struct_pack. by destruct (Struct.pack n xs). }
  intros packed w2. apply file_write_frame.
Qed.

Lemma write_input_file_frame path l w :
  wp (write_input_file path l) (fun _ w' => fs_only_at path w w') w.
Proof.
  unfold write_input_file. apply frame_bind; [apply open_wb_frame|].
  intros _ w1. apply frame_bind.
  { apply pure_frame. unfold get_dict. by destruct (heap w1 !! l) as [[]|]. }
  intros d w2. destruct (bytes d) as [raw|]; [apply file_write_frame|].
  apply frame_bind; [apply write_field_frame|]. intros _ w3.
  apply frame_bind; [apply write_field_frame|]. intros _ w4.
  destruct (zoom d) as [z|]; [|by apply pure_frame].
  apply frame_bind.
  { apply pure_frame. unfold struct_pack. by destruct (Struct.pack 1 [z]). }
  intros packed w5. apply file_write_frame.
Qed.

(** ** Reading an input file *)

Lemma clamp_in_range n i : 0 <= i <= n -> clamp n i = i.
Proof. intros H. unfold clamp. destruct (Z.ltb_spec i 0); lia. Qed.

Lemma length_slice {A} (l : list A) a b :
  0 <= a <= b -> b <= len l -> length (slice l a b) = Z.to_nat (b - a).
Proof.
  intros Hab Hb. unfold slice. rewrite !clamp_in_range by lia.
  rewrite length_take, length_drop. unfold len in Hb. lia.
Qed.

Lemma struct_unpack_slice n data a b w :
  0 <= a <= b -> b <= len data -> b - a = 4 * Z.of_nat n ->
  struct_unpack n (slice data a b) w
  = (Ok (map Struct.unpack_f (Struct.chunks4 n (slice data a b))), w).
Proof.
  intros Hab Hb Hn. unfold struct_unpack, Struct.unpack.
  rewrite length_slice by done.
  destruct (decide (Z.to_nat (b - a) = (4 * n)%nat)); [done|lia].
Qed.

Lemma read_input_file_short path mode data w :
  fs w !! path = Some (File mode data) ->
  len data < 32 ->
  read_input_file path w
  = (Ok (length (heap w)), set_heap (heap w ++ [ODict (raw_input data)]) w).
Proof.
  intros Hf Hlen. unfold read_input_file.
  unfold bind at 1. unfold read_rb. rewrite Hf.
  destruct (Z.leb_spec 32 (len data)); [lia|done].
Qed.

Lemma read_input_file_long path mode data w (p := length (heap w)) :
  fs w !! path = Some (File mode data) ->
  32 <= len data ->
  read_input_file path w
  = (Ok (S (S p)),
     set_heap (heap w ++ [OList (decoded_position data);
                          OList (decoded_rotation data);
                          ODict (structured_input p (S p) data)]) w).
Proof.
  intros Hf Hlen. unfold read_input_file.
  unfold bind at 1. unfold read_rb. rewrite Hf.
  destruct (Z.leb_spec 32 (len data)); [|lia].
  unfold try_except.
  unfold bind at 1. rewrite (struct_unpack_slice 3) by lia.
  unfold bind at 1. rewrite (struct_unpack_slice 4) by lia.
  unfold bind at 1. rewrite (struct_unpack_slice 1) by lia.
  simpl. unfold alloc. simpl.
  rewrite !length_app. simpl. rewrite !Nat.add_1_r, <- !app_assoc.
  reflexivity.
Qed.

(** C3: reading a file never raises, whatever the length of its content.
    Below 32 bytes the result is the raw-bytes dict alone; from 32 bytes on
    the structured parse always goes through (the slices have exactly the
    sizes the formats ask for), so the raw fallback of the [except] branch
    is never needed.  In both cases the payload is the content as read and
    no object that existed before is changed. *)
Theorem read_input_file_total :
  forall path mode data w,
    fs w !! path = Some (File mode data) ->
    exists l d new w',
      read_input_file path w = (Ok l, w')
      /\ w' = set_heap (heap w ++ new) w
      /\ heap w' !! l = Some (ODict d)
      /\ bytes d = Some data
      /\ (len data < 32 -> d = raw_input data)
      /\ (32 <= len data ->
          exists p r, d = structured_input p r data
            /\ heap w' !! p = Some (OList (decoded_position data))
            /\ heap w' !! r = Some (OList (decoded_rotation data))).
Proof.
  intros path mode data w Hf.
  destruct (Z.lt_ge_cases (len data) 32) as [Hlen|Hlen].
  - eexists _, (raw_input data), _, _.
    split; [by eapply read_input_file_short|].
    split; [done|]. simpl.
    split; [by rewrite lookup_app_r, Nat.sub_diag|].
    split; [done|]. split; [done|lia].
  - eexists _, (structured_input _ _ data), _, _.
    split; [by eapply read_input_file_long|].
    split; [done|]. simpl.
    split.
    { rewrite lookup_app_r by lia.
      by replace (S (S (length (heap w))) - length (heap w))%nat with 2%nat by lia. }
    split; [done|]. split; [lia|]. intros _.
    eexists _, _. split; [done|]. split.
    + by rewrite lookup_app_r, Nat.sub_diag.
    + rewrite lookup_app_r by lia.
      by replace (S (length (heap w)) - length (heap w))%nat with 1%nat by lia.
Qed.

(** C9: decoding a file and encoding the result gives the file back, for
    every content: the decoded dict always carries the bytes that were read,
    and the writer emits a present payload as it is. *)
Theorem write_read_bytes_identity :
  forall src dst mode data w,
    fs w !! src = Some (File mode data) ->
    fs w !! dst <> Some Dir ->
    exists l w1 w2 mode',
      read_input_file src w = (Ok l, w1)
      /\ write_input_file dst l w1 = (Ok tt, w2)
      /\ fs w2 !! dst = Some (File mode' data).
Proof.
  intros src dst mode data w Hsrc Hdst.
  destruct (Z.lt_ge_cases (len data) 32) as [Hlen|Hlen].
  - eexists _, _, _, _.
    split; [by eapply read_input_file_short|].
    split.
    + apply (write_input_file_run dst _ (raw_input data) data); [|done|done].
      simpl. by rewrite lookup_app_r, Nat.sub_diag.
    + unfold written. simpl. by rewrite lookup_insert_eq.
  - eexists _, _, _, _.
    split; [by eapply read_input_file_long|].
    split.
    + apply (write_input_file_run dst _
               (structured_input (length (heap w)) (S (length (heap w))) data) data);
        [|done|done].
      simpl. rewrite lookup_app_r by lia.
      by replace (S (S (length (heap w))) - length (heap w))%nat with 2%nat by lia.
    + unfold written. simpl. by rewrite lookup_insert_eq.
Qed.

(** ** Running the target *)

Lemma write_input_file_not_dir path l w w' :
  write_input_file path l w = (Ok tt, w') -> fs w !! path <> Some Dir.
Proof.
  unfold write_input_file. unfold bind at 1. unfold open_wb.
  intros H E. rewrite E in H. done.
Qed.

(** C6: once the input file is written, the outcome of the child decides
    the result: a negative return code is a crash with the signal number
    [- returncode]; any other return code is neither a crash nor a timeout;
    an expired hard timeout is a timeout and not a crash.  In each of these
    cases the temporary file is gone afterwards.  A child that cannot be
    started makes the call raise. *)
Theorem execute_target_classification :
  forall int_of_str input_data w w1,
    write_input_file (fuzz_input_path (pid w)) input_data w = (Ok tt, w1) ->
    match child w (S (tick w)) with
    | Exited rc out err =>
        exists result w',
          execute_target int_of_str input_data w = (Ok result, w')
          /\ exit_code result = rc
          /\ timeout result = false
          /\ (rc < 0 -> crashed result = true /\ signal result = Some (- rc))
          /\ (0 <= rc -> crashed result = false /\ signal result = None)
          /\ fs w' !! fuzz_input_path (pid w) = None
    | HardTimeout =>
        exists result w',
          execute_target int_of_str input_data w = (Ok result, w')
          /\ timeout result = true
          /\ crashed result = false
          /\ signal result = None
          /\ fs w' !! fuzz_input_path (pid w) = None
    | SpawnError =>
        exists w', execute_target int_of_str input_data w = (Raise OSError, w')
    end.
Proof.
  intros int_of_str input_data w w1 Hwrite.
  pose proof (write_input_file_not_dir _ _ _ _ Hwrite) as Hnd.
  pose proof (write_input_file_frame (fuzz_input_path (pid w)) input_data w) as Hframe.
  eapply wp_run in Hframe; [|exact Hwrite]. destruct Hframe as (Hw1 & _ & Hdir).
  assert (fs w1 !! fuzz_input_path (pid w) <> Some Dir) as Hnd1 by (by rewrite Hdir).
  assert (child w1 = child w) as Hchild by (by rewrite Hw1).
  assert (tick w1 = tick w) as Htick by (by rewrite Hw1).
  unfold execute_target, bind, os_getpid, get_self, time_time, try_finally,
    try_except_on, subprocess_run, ret.
  simpl. rewrite Hwrite. simpl. rewrite Hchild, Htick.
  assert (forall w2, fs w2 = fs w1 ->
            unlink_missing_ok (fuzz_input_path (pid w)) w2
            = (Ok tt, set_fs (delete (fuzz_input_path (pid w)) (fs w1)) w2))
    as Hunlink.
  { intros w2 Hfs. unfold unlink_missing_ok. rewrite Hfs.
    destruct (fs w1 !! fuzz_input_path (pid w)) as [[|m c]|] eqn:E; try done.
    rewrite delete_id by done. rewrite <- Hfs. by rewrite set_fs_same. }
  destruct (child w (S (tick w))) as [rc out err| |].
  - rewrite Hunlink by reflexivity. simpl.
    eexists _, _. split; [reflexivity|]. simpl.
    split; [done|]. split; [done|].
    split; [|split].
    + intros Hrc. destruct (Z.ltb_spec rc 0); [done|lia].
    + intros Hrc. destruct (Z.ltb_spec rc 0); [lia|done].
    + apply lookup_delete_eq.
  - simpl. rewrite Hunlink by reflexivity. simpl.
    eexists _, _. split; [reflexivity|]. simpl.
    split; [done|]. split; [done|]. split; [done|]. apply lookup_delete_eq.
  - simpl. rewrite Hunlink by reflexivity. eexists. reflexivity.
Qed.

(** ** The oracle *)

Lemma compare_cont_swap (p q : positive) :
  PosDef.Pos.compare_cont Eq q p = CompOpp (PosDef.Pos.compare_cont Eq p q).
Proof. symmetry. exact (Pos.compare_cont_antisym p q Eq). Qed.

Lemma SFcompare_antisym (x y : spec_float) :
  SFcompare y x = CompOpp <$> SFcompare x y.
Proof.
  destruct x as [sx|sx| |sx mx ex], y as [sy|sy| |sy my ey]; simpl;
    try done; try (by destruct sx, sy); try (by destruct sx); try (by destruct sy).
  f_equal. destruct sx, sy; try done.
  - rewrite (Z.compare_antisym ex ey), (compare_cont_swap mx my).
    by destruct (ex ?= ey).
  - rewrite (Z.compare_antisym ex ey), (compare_cont_swap mx my).
    by destruct (ex ?= ey).
Qed.

Lemma leb_not_gt (x y : float) :
  PyFloat.leb x y = true -> PyFloat.ltb y x = false.
Proof.
  unfold PyFloat.leb, PyFloat.ltb, SFleb, SFltb.
  rewrite (SFcompare_antisym x y).
  by destruct (SFcompare x y) as [[]|].
Qed.

(** C4: the precedence of the oracle.
    - A crashed result is interesting, whatever the random tape and the
      coverage map hold, and nothing changes.
    - A result that neither crashed nor timed out, whose coverage hash is
      already in the map, that took at most 0.5 s and has at most 1000
      characters of error output is not interesting, and nothing changes.
    - In every case the call returns, and the fields of [self] are either
      left as they were or changed by the new-coverage path alone: the
      result did not crash, its coverage hash was not in the map, the hash
      is added, the coverage counter goes up by one and the answer is
      [True]. *)
Theorem is_interesting_precedence :
  forall sha256_hexdigest result w,
    (crashed result = true ->
     is_interesting sha256_hexdigest result w = (Ok true, w))
    /\ (forall cov v,
          crashed result = false ->
          timeout result = false ->
          truthy_coverage (coverage result) = Some cov ->
          coverage_map (self w) !! hash_coverage sha256_hexdigest cov = Some v ->
          PyFloat.leb (execution_time result) PyFloat.lit_0_5 = true ->
          (String.length (stderr result) <= 1000)%nat ->
          is_interesting sha256_hexdigest result w = (Ok false, w))
    /\ (exists verdict w',
          is_interesting sha256_hexdigest result w = (Ok verdict, w')
          /\ (self w' = self w
              \/ exists cov,
                   crashed result = false
                   /\ truthy_coverage (coverage result) = Some cov
                   /\ coverage_map (self w) !! hash_coverage sha256_hexdigest cov = None
                   /\ self w' = coverage_recorded (hash_coverage sha256_hexdigest cov) (self w)
                   /\ verdict = true)).
Proof.
  intros sha result w. split; [|split].
  - intros Hc. unfold is_interesting. by rewrite Hc.
  - intros cov v Hc Ht Hcov Hseen Htime Herr.
    unfold is_interesting. rewrite Hc, Ht, Hcov.
    unfold bind, ret, get_self. simpl. rewrite Hseen.
    rewrite (leb_not_gt _ _ Htime).
    destruct (Nat.ltb_spec 1000 (String.length (stderr result))); [lia|done].
  - unfold is_interesting. destruct (crashed result); [by eauto|].
    unfold bind, ret, get_self, random_random, draw, record_new_coverage, put_self.
    destruct (timeout result); simpl.
    + destruct (PyFloat.ltb _ PyFloat.lit_0_1); [by eauto|].
      destruct (truthy_coverage (coverage result)) as [cov|] eqn:Hcov; simpl.
      * destruct (coverage_map (self w) !! hash_coverage sha cov) eqn:Hseen; simpl.
        -- destruct (PyFloat.ltb _ _); [by eauto|].
           destruct (_ <? _)%nat; by eauto.
        -- eexists _, _. split; [done|]. right. by exists cov.
      * destruct (PyFloat.ltb _ _); [by eauto|].
        destruct (_ <? _)%nat; by eauto.
    + destruct (truthy_coverage (coverage result)) as [cov|] eqn:Hcov; simpl.
      * destruct (coverage_map (self w) !! hash_coverage sha cov) eqn:Hseen; simpl.
        -- destruct (PyFloat.ltb _ _); [by eauto|].
           destruct (_ <? _)%nat; by eauto.
        -- eexists _, _. split; [done|]. right. by exists cov.
      * destruct (PyFloat.ltb _ _); [by eauto|].
        destruct (_ <? _)%nat; by eauto.
Qed.

(** ** The crash store *)

Lemma keeps_bind (R : World -> World -> Prop) {A B} (m : M A) (k : A -> M B) :
  (forall w1 w2 w3, R w1 w2 -> R w2 w3 -> R w1 w3) ->
  keeps R m -> (forall a, keeps R (k a)) -> keeps R (bind m k).
Proof.
  intros Htrans Hm Hk w. apply wp_bind. eapply wp_mono; [apply Hm|].
  intros [a|e] w' Hw'; simpl; [|done].
  eapply wp_mono; [apply Hk|]. intros r w''. simpl. by apply Htrans.
Qed.

Lemma keeps_pure (R : World -> World -> Prop) {A} (m : M A) :
  (forall w, R w w) -> (forall w, (m w).2 = w) -> keeps R m.
Proof. intros Hrefl Hm w. unfold wp. rewrite Hm. apply Hrefl. Qed.

Lemma keeps_weaken (R R' : World -> World -> Prop) {A} (m : M A) :
  (forall w w', R w w' -> R' w w') -> keeps R m -> keeps R' m.
Proof. intros HR Hm w. eapply wp_mono; [apply Hm|]. simpl. auto. Qed.

Lemma dirs_kept_refl w : dirs_kept w w.
Proof. done. Qed.

Lemma dirs_kept_trans w1 w2 w3 : dirs_kept w1 w2 -> dirs_kept w2 w3 -> dirs_kept w1 w3.
Proof.
  intros [S1 D1] [S2 D2]. split; [congruence|]. intros q. by rewrite D2, D1.
Qed.

Lemma fs_only_at_dirs_kept path w w' : fs_only_at path w w' -> dirs_kept w w'.
Proof.
  intros (E & F & D). split; [by rewrite E|].
  intros q. destruct (decide (q = path)) as [->|Hq]; [done|]. by rewrite F.
Qed.

Lemma write_input_file_keeps path l : keeps dirs_kept (write_input_file path l).
Proof.
  eapply keeps_weaken; [apply (fs_only_at_dirs_kept path)|].
  intros w. apply write_input_file_frame.
Qed.

Lemma write_text_keeps path text : keeps dirs_kept (write_text path text).
Proof.
  eapply keeps_weaken; [apply (fs_only_at_dirs_kept path)|].
  intros w. unfold write_text. apply frame_bind; [apply open_wb_frame|].
  intros _ w'. apply file_write_frame.
Qed.

Lemma os_chmod_keeps path mode : keeps dirs_kept (os_chmod path mode).
Proof.
  intros w. unfold wp, os_chmod.
  destruct (fs w !! path) as [[|m c]|] eqn:E; simpl; try apply dirs_kept_refl.
  split; [done|]. intros q. simpl.
  destruct (decide (q = path)) as [->|Hq].
  - rewrite lookup_insert_eq, E. done.
  - by rewrite lookup_insert_ne.
Qed.

Lemma datetime_keeps : keeps dirs_kept datetime_now_isoformat.
Proof. intros w. done. Qed.

Lemma require_keeps {A} (field : option A) : keeps dirs_kept (require field).
Proof. apply keeps_pure; [apply dirs_kept_refl|]. intros w. by destruct field. Qed.

Lemma get_self_keeps : keeps dirs_kept get_self.
Proof. by apply keeps_pure. Qed.

Ltac keeps_tac :=
  repeat first
    [ apply require_keeps | apply get_self_keeps | apply datetime_keeps
    | apply write_input_file_keeps | apply write_text_keeps | apply os_chmod_keeps
    | apply (keeps_bind dirs_kept); [exact dirs_kept_trans| |intros ?] ].

(** A crash whose signature is known is dropped at once. *)
Lemma save_crash_known sha json result sg w :
  signal result = Some sg ->
  crash_signature sha sg (stderr result) ∈ unique_crashes (self w) ->
  save_crash sha json result w = (Ok tt, w).
Proof.
  intros Hsig Hin. unfold save_crash. rewrite Hsig.
  unfold bind, require, ret, get_self. simpl.
  by destruct (decide _).
Qed.

(** What the first call with a new signature leaves behind. *)
Lemma save_crash_new sha json result sg w
    (crash_id := crash_signature sha sg (stderr result))
    (crash_dir := path_join (crashes_dir (self w)) crash_id) :
  signal result = Some sg ->
  crash_id ∉ unique_crashes (self w) ->
  wp (save_crash sha json result)
     (fun _ w' =>
        self w' = crash_reserved crash_id (self w)
        /\ (forall q, fs w' !! q = Some Dir -> fs w !! q = Some Dir \/ q = crash_dir)
        /\ (forall q, fs w !! q = Some Dir -> fs w' !! q = Some Dir)
        /\ ((forall m c, fs w !! crash_dir <> Some (File m c)) ->
            fs w' !! crash_dir = Some Dir)) w.
Proof.
  intros Hsig Hnew. unfold save_crash. rewrite Hsig.
  apply wp_bind, wp_ret. fold crash_id.
  apply wp_bind. unfold get_self at 1. unfold wp at 1. simpl.
  destruct (decide (crash_id ∈ unique_crashes (self w))); [done|].
  apply wp_bind. unfold put_self at 1. unfold wp at 1. simpl.
  apply wp_bind. unfold get_self at 1. unfold wp at 1. simpl.
  fold crash_dir. set (w0 := set_self _ w).
  apply wp_bind. unfold mkdir_exist_ok at 1. unfold wp at 1.
  change (fs w0) with (fs w).
  destruct (fs w !! crash_dir) as [[|m c]|] eqn:Edir; simpl.
  - (* the directory exists already *)
    match goal with |- wp ?m _ _ => assert (keeps dirs_kept m) as Htail by keeps_tac end.
    eapply wp_mono; [apply Htail|].
    intros r w' [Hself Hdirs]. split; [exact Hself|].
    split; [|split].
    + intros q Hq. left. by apply Hdirs in Hq.
    + intros q Hq. by apply Hdirs.
    + intros _. by apply Hdirs.
  - (* a regular file is in the way: [mkdir] raises *)
    split; [done|]. split; [by left|]. split; [done|].
    intros H. by destruct (H m c).
  - (* the directory is created *)
    set (w1 := set_fs _ w0).
    match goal with |- wp ?m _ _ => assert (keeps dirs_kept m) as Htail by keeps_tac end.
    eapply wp_mono; [apply Htail|].
    intros r w' [Hself Hdirs]. split; [exact Hself|].
    split; [|split].
    + intros q Hq. apply Hdirs in Hq. simpl in Hq.
      destruct (decide (crash_dir = q)) as [<-|Hne]; [by right|].
      left. by rewrite lookup_insert_ne in Hq.
    + intros q Hq. apply Hdirs. simpl.
      destruct (decide (crash_dir = q)) as [<-|Hne]; [congruence|].
      by rewrite lookup_insert_ne.
    + intros _. apply Hdirs. simpl. apply lookup_insert_eq.
Qed.

(** C5: two results with the same signal and the same error text.  After
    the first [save_crash] the second one returns at once and leaves the
    whole world as it is: no file, no directory, no field of [self].  Over
    both calls the signature set only gains the one signature (a set holds
    it once), no directory disappears, and the only directory that can
    appear is the one named by the signature; it does appear when the
    signature is new and no regular file occupies its path. *)
Theorem save_crash_dedup :
  forall sha256_hexdigest json_dump r1 r2 sg w,
    signal r1 = Some sg ->
    signal r2 = Some sg ->
    stderr r2 = stderr r1 ->
    let crash_id := crash_signature sha256_hexdigest sg (stderr r1) in
    let crash_dir := path_join (crashes_dir (self w)) crash_id in
    exists res w1,
      save_crash sha256_hexdigest json_dump r1 w = (res, w1)
      /\ save_crash sha256_hexdigest json_dump r2 w1 = (Ok tt, w1)
      /\ self w1 = crash_reserved crash_id (self w)
      /\ unique_crashes (self w) ⊆ unique_crashes (self w1)
      /\ (forall q, fs w1 !! q = Some Dir -> fs w !! q = Some Dir \/ q = crash_dir)
      /\ (forall q, fs w !! q = Some Dir -> fs w1 !! q = Some Dir)
      /\ (crash_id ∈ unique_crashes (self w) -> w1 = w)
      /\ (crash_id ∉ unique_crashes (self w) ->
          (forall m c, fs w !! crash_dir <> Some (File m c)) ->
          fs w1 !! crash_dir = Some Dir).
Proof.
  intros sha json r1 r2 sg w H1 H2 Herr crash_id crash_dir.
  destruct (decide (crash_id ∈ unique_crashes (self w))) as [Hin|Hnew].
  - exists (Ok tt), w.
    assert (self w = crash_reserved crash_id (self w)) as Hself.
    { unfold crash_reserved.
      assert (unique_crashes (self w) ∪ {[crash_id]} = unique_crashes (self w)) as E.
      { rewrite union_comm_L. apply subseteq_union_1_L. by apply singleton_subseteq_l. }
      rewrite E. by destruct (self w). }
    split; [by apply (save_crash_known _ _ _ sg)|].
    split; [apply (save_crash_known _ _ _ sg); [done|by rewrite Herr]|].
    split; [done|]. split; [done|]. split; [by left|]. split; [done|].
    split; [done|]. done.
  - pose proof (save_crash_new sha json r1 sg w H1 Hnew) as Hwp.
    unfold wp in Hwp. fold crash_id crash_dir in Hwp.
    destruct (save_crash sha json r1 w) as [res w1]. simpl in Hwp.
    destruct Hwp as (Hself & Hdirs & Hkeep & Hdir).
    exists res, w1. split; [done|].
    split.
    { apply (save_crash_known _ _ _ sg); [done|].
      rewrite Herr, Hself. fold crash_id. unfold crash_reserved. simpl. set_solver. }
    split; [done|].
    split; [rewrite Hself; unfold crash_reserved; simpl; set_solver|].
    split; [done|]. split; [done|]. split; [done|]. done.
Qed.

(** ** Block shuffle *)

Lemma slice_block {A} (l : list A) i n :
  0 <= i -> 0 <= n -> i + n <= len l ->
  slice l i (i + n) = take (Z.to_nat n) (drop (Z.to_nat i) l).
Proof.
  intros Hi Hn Hlen. unfold slice. rewrite !clamp_in_range by lia.
  f_equal. lia.
Qed.

Lemma slice_assign_block {A} (l v : list A) i n :
  0 <= i -> 0 <= n -> i + n <= len l ->
  slice_assign l i (i + n) v
  = take (Z.to_nat i) l ++ v ++ drop (Z.to_nat i + Z.to_nat n) l.
Proof.
  intros Hi Hn Hlen. unfold slice_assign. rewrite !clamp_in_range by lia.
  do 3 f_equal. lia.
Qed.

Lemma length_slice_assign_block {A} (l v : list A) i n :
  0 <= i -> 0 <= n -> i + n <= len l -> length v = Z.to_nat n ->
  length (slice_assign l i (i + n) v) = length l.
Proof.
  intros Hi Hn Hlen Hv. rewrite slice_assign_block by done.
  rewrite !length_app, length_take, length_drop, Hv. unfold len in Hlen. lia.
Qed.

Lemma length_shuffled b idx1 idx2 n :
  0 <= idx1 -> 0 <= idx2 -> 0 <= n -> idx1 + n <= len b -> idx2 + n <= len b ->
  length (shuffled b idx1 idx2 n) = length b.
Proof.
  intros. unfold shuffled.
  assert (length (slice_assign b idx1 (idx1 + n) (slice b idx2 (idx2 + n))) = length b) as E.
  { apply length_slice_assign_block; try done.
    rewrite length_slice; [lia|lia|done]. }
  rewrite length_slice_assign_block; try done.
  - unfold len. rewrite E. done.
  - rewrite length_slice; [lia|lia|done].
Qed.

(** Blocks that do not overlap are exchanged, first block below the
    second ... *)
Lemma shuffled_swap_lo b idx1 idx2 n :
  0 <= idx1 -> 0 <= n -> idx1 + n <= idx2 -> idx2 + n <= len b ->
  shuffled b idx1 idx2 n = swap_blocks b (Z.to_nat idx1) (Z.to_nat idx2) (Z.to_nat n).
Proof.
  intros H1 Hn H12 H2. unfold shuffled, swap_blocks.
  assert (Hlen : (Z.to_nat idx2 + Z.to_nat n <= length b)%nat) by (unfold len in H2; lia).
  set (i := Z.to_nat idx1) in *. set (j := Z.to_nat idx2) in *. set (k := Z.to_nat n) in *.
  assert (i + k <= j)%nat by lia.
  rewrite (slice_block b idx1 n), (slice_block b idx2 n) by lia.
  fold i j k.
  rewrite (slice_assign_block b _ idx1 n) by lia. fold i k.
  set (B1 := take k (drop i b)). set (B2 := take k (drop j b)).
  assert (length B2 = k) as HB2 by (unfold B2; rewrite length_take, length_drop; lia).
  assert (length (take i b) = i) as Hti by (rewrite length_take; lia).
  rewrite slice_assign_block.
  2: lia. 2: lia.
  2: { unfold len. rewrite !length_app, Hti, HB2, length_drop. lia. }
  fold j k.
  set (D := drop (i + k) b).
  assert (take j (take i b ++ B2 ++ D) = take i b ++ B2 ++ take (j - (i + k)) D) as ->.
  { rewrite take_app_ge by lia. rewrite Hti. f_equal.
    rewrite take_app_ge by lia. rewrite HB2. do 2 f_equal. lia. }
  assert (drop (j + k) (take i b ++ B2 ++ D) = drop (j + k) b) as ->.
  { rewrite drop_app_ge by lia. rewrite Hti.
    rewrite drop_app_ge by lia. rewrite HB2.
    unfold D. rewrite drop_drop. f_equal. lia. }
  by rewrite <- !app_assoc.
Qed.

(** ... or above it. *)
Lemma shuffled_swap_hi b idx1 idx2 n :
  0 <= idx2 -> 0 <= n -> idx2 + n <= idx1 -> idx1 + n <= len b ->
  shuffled b idx1 idx2 n = swap_blocks b (Z.to_nat idx2) (Z.to_nat idx1) (Z.to_nat n).
Proof.
  intros H2 Hn H21 H1. unfold shuffled, swap_blocks.
  assert (Hlen : (Z.to_nat idx1 + Z.to_nat n <= length b)%nat) by (unfold len in H1; lia).
  set (i := Z.to_nat idx1) in *. set (j := Z.to_nat idx2) in *. set (k := Z.to_nat n) in *.
  assert (j + k <= i)%nat by lia.
  rewrite (slice_block b idx1 n), (slice_block b idx2 n) by lia.
  fold i j k.
  rewrite (slice_assign_block b _ idx1 n) by lia. fold i k.
  set (B1 := take k (drop i b)). set (B2 := take k (drop j b)).
  assert (length B2 = k) as HB2 by (unfold B2; rewrite length_take, length_drop; lia).
  assert (length (take i b) = i) as Hti by (rewrite length_take; lia).
  rewrite slice_assign_block.
  2: lia. 2: lia.
  2: { unfold len. rewrite !length_app, Hti, HB2, length_drop. lia. }
  fold j k.
  set (D := drop (i + k) b).
  assert (take j (take i b ++ B2 ++ D) = take j b) as ->.
  { rewrite take_app_le by lia. rewrite take_take. f_equal. lia. }
  assert (drop (j + k) (take i b ++ B2 ++ D)
          = take (i - (j + k)) (drop (j + k) b) ++ B2 ++ D) as ->.
  { rewrite drop_app_le by lia. f_equal. apply skipn_firstn_comm. }
  reflexivity.
Qed.

Lemma random_choice_block_size w :
  random_choice [4; 8; 16; 32] w = (Ok (block_size_drawn w), set_cursor (S (cursor w)) w).
Proof.
  unfold random_choice, randbelow, draw, bind, ret, block_size_drawn, drawn.
  cbn [fst snd Nat.add].
  change (len [4; 8; 16; 32]) with 4.
  pose proof (Z.mod_pos_bound (entropy w (cursor w)) 4 eq_refl) as Hr.
  set (r := entropy w (cursor w) mod 4) in *.
  assert (r = 0 \/ r = 1 \/ r = 2 \/ r = 3) as Hcases by lia.
  destruct Hcases as [E|[E|[E|E]]]; by rewrite E.
Qed.

Lemma block_size_drawn_elem w : block_size_drawn w ∈ [4; 8; 16; 32].
Proof.
  unfold block_size_drawn.
  pose proof (Z.mod_pos_bound (drawn 0 w) 4 eq_refl) as Hr.
  set (r := drawn 0 w mod 4) in *.
  assert (r = 0 \/ r = 1 \/ r = 2 \/ r = 3) as Hcases by lia.
  destruct Hcases as [E|[E|[E|E]]]; rewrite E; apply list_elem_of_In; simpl; lia.
Qed.

Lemma random_randint_run n w :
  0 <= n ->
  random_randint 0 n w = (Ok (drawn 0 w mod (n + 1)), set_cursor (S (cursor w)) w).
Proof.
  intros Hn. unfold random_randint. destruct (Z.ltb_spec n 0); [lia|].
  unfold bind, randbelow, draw, ret, drawn. cbn [fst snd Nat.add].
  by rewrite Z.sub_0_r.
Qed.

Lemma set_item_bytes_run l d v w :
  heap w !! l = Some (ODict d) ->
  set_item_bytes l v w = (Ok tt, set_heap (<[l := ODict (with_bytes d v)]> (heap w)) w).
Proof. intros Hd. unfold set_item_bytes, bind, get_dict. by rewrite Hd. Qed.

Lemma with_bytes_same d b : bytes d = Some b -> with_bytes d b = d.
Proof. intros H. destruct d. simpl in H. by subst. Qed.

(** C7, as the code has it: block shuffle returns the input and keeps the
    length of the payload.  A payload shorter than 8 bytes is returned
    without a draw.  Otherwise the first draw selects the block size from
    {4, 8, 16, 32}; when the payload is shorter than twice that size the
    call ends there and the payload is as it was.  Otherwise the next two
    draws select, each on its own, the two offsets in [0, len - block size],
    and the payload is rebound: to itself when the offsets are equal, else
    to the result of writing the second block at the first offset and after
    that the first block (as it was) at the second offset.  When the offsets
    are at least a block apart that result is the exchange of the two
    blocks.  Nothing else in the world changes. *)
Theorem block_shuffle_effect :
  forall data d b w,
    heap w !! data = Some (ODict d) ->
    bytes d = Some b ->
    let block_size := block_size_drawn w in
    let idx1 := offset_drawn 1 b w in
    let idx2 := offset_drawn 2 b w in
    exists b' w',
      block_shuffle data w = (Ok data, w')
      /\ heap w' !! data = Some (ODict (with_bytes d b'))
      /\ length b' = length b
      /\ block_size ∈ [4; 8; 16; 32]
      /\ (len b < 8 -> b' = b /\ w' = w)
      /\ (8 <= len b -> len b < 2 * block_size ->
            b' = b /\ w' = set_cursor (S (cursor w)) w)
      /\ (8 <= len b -> 2 * block_size <= len b ->
            0 <= idx1 <= len b - block_size
            /\ 0 <= idx2 <= len b - block_size
            /\ w' = set_heap (<[data := ODict (with_bytes d b')]> (heap w))
                             (set_cursor (3 + cursor w) w)
            /\ (idx1 = idx2 -> b' = b)
            /\ (idx1 <> idx2 -> b' = shuffled b idx1 idx2 block_size)
            /\ (idx1 + block_size <= idx2 ->
                  b' = swap_blocks b (Z.to_nat idx1) (Z.to_nat idx2) (Z.to_nat block_size))
            /\ (idx2 + block_size <= idx1 ->
                  b' = swap_blocks b (Z.to_nat idx2) (Z.to_nat idx1) (Z.to_nat block_size))).
Proof.
  intros data d b w Hd Hb block_size idx1 idx2.
  pose proof (block_size_drawn_elem w) as Hbs. fold block_size in Hbs.
  assert (0 < block_size) as Hpos by (set_unfold; lia).
  assert (block_shuffle data w
          = if len b <? 8 then (Ok data, w)
            else if len b / 2 <? block_size then (Ok data, set_cursor (S (cursor w)) w)
            else (Ok data,
                  set_heap
                    (<[data := ODict (with_bytes d
                                        (if idx1 =? idx2 then b
                                         else shuffled b idx1 idx2 block_size))]> (heap w))
                    (set_cursor (3 + cursor w) w))) as Hrun.
  { unfold block_shuffle. unfold bind at 1. unfold get_dict. rewrite Hd, Hb.
    destruct (len b <? 8); [reflexivity|].
    unfold bind at 1. rewrite random_choice_block_size. fold block_size.
    destruct (Z.ltb_spec (len b / 2) block_size) as [|Hfit]; [reflexivity|].
    assert (2 * block_size <= len b) by (pose proof (Z.mul_div_le (len b) 2); lia).
    unfold bind at 1. rewrite random_randint_run by lia.
    unfold bind at 1. rewrite random_randint_run by lia.
    unfold bind at 1. erewrite set_item_bytes_run by exact Hd.
    reflexivity. }
  assert (0 <= idx1 <= len b - block_size /\ 0 <= idx2 <= len b - block_size
          \/ len b < 2 * block_size) as Hrange.
  { destruct (Z_lt_le_dec (len b) (2 * block_size)); [by right|left].
    unfold idx1, idx2, offset_drawn. fold block_size.
    pose proof (Z.mod_pos_bound (drawn 1 w) (len b - block_size + 1)).
    pose proof (Z.mod_pos_bound (drawn 2 w) (len b - block_size + 1)). lia. }
  rewrite Hrun. clear Hrun.
  destruct (Z.ltb_spec (len b) 8) as [Hshort|Hlong].
  { exists b, w. rewrite (with_bytes_same d b Hb).
    repeat split; try done; lia. }
  destruct (Z.ltb_spec (len b / 2) block_size) as [Hbig|Hfit].
  { assert (len b < 2 * block_size)
      by (pose proof (Z.div_mod (len b) 2); pose proof (Z.mod_pos_bound (len b) 2); lia).
    exists b, (set_cursor (S (cursor w)) w). rewrite (with_bytes_same d b Hb).
    repeat split; try done; lia. }
  assert (2 * block_size <= len b) by (pose proof (Z.mul_div_le (len b) 2); lia).
  destruct Hrange as [[H1 H2]|]; [|lia].
  eexists _, _. split; [reflexivity|].
  split. { cbn [heap set_heap]. apply list_lookup_insert_eq. by eapply lookup_lt_Some. }
  split. { destruct (idx1 =? idx2); [done|]. apply length_shuffled; lia. }
  split; [done|]. split; [lia|]. split; [lia|]. intros _ _.
  split; [done|]. split; [done|]. split; [reflexivity|].
  destruct (Z.eqb_spec idx1 idx2) as [E|E].
  - repeat split; try done; lia.
  - split; [done|]. split; [done|]. split.
    + intros. apply shuffled_swap_lo; lia.
    + intros. apply shuffled_swap_hi; lia.
Qed.

(** C7 as stated fails: with block size 4 and the offsets 0 and 1 on an
    8-byte payload the two blocks overlap, and the outcome is neither the
    payload nor an exchange of two disjoint blocks. *)
Lemma block_shuffle_overlap : ~ swaps_or_noop 0%nat overlap_world.
Proof.
  intros H.
  destruct (H (raw_input bytes_0_to_7) bytes_0_to_7 eq_refl eq_refl)
    as (b' & w' & Hrun & Hheap & Hcases).
  vm_compute in Hrun. injection Hrun as <-.
  vm_compute in Hheap. injection Hheap as <-.
  destruct Hcases as [E|(i & j & n & Hn & Hij & Hj & E)]; [done|].
  change (length bytes_0_to_7) with 8%nat in Hj.
  assert (n = 4 /\ i = 0 /\ j = 4)%nat as (-> & -> & ->) by (set_unfold; lia).
  vm_compute in E. done.
Qed.

(** ** Saving interesting inputs *)

Lemma save_interesting_input_frame result w :
  wp (save_interesting_input result)
     (fun _ w' =>
        forall q,
          (forall ts, PyFloat.to_Z (clock w (tick w)) = Some ts ->
             q <> interesting_path (corpus_dir (self w)) ts result) ->
          fs w' !! q = fs w !! q) w.
Proof.
  unfold save_interesting_input.
  apply wp_bind. unfold time_time at 1. unfold wp at 1. simpl.
  apply wp_bind. unfold int_of_float.
  destruct (PyFloat.to_Z (clock w (tick w))) as [ts|]; [|done].
  apply wp_ret, wp_bind. unfold get_self at 1. unfold wp at 1. simpl.
  apply wp_bind. destruct (input result) as [l|]; [|done].
  apply wp_ret.
  eapply wp_mono; [apply write_input_file_frame|].
  intros r w' (_ & Hother & _) q Hq. simpl in Hother. apply Hother. by apply Hq.
Qed.

(** File names: the decimal timestamp has no underscore, so the name
    determines the timestamp and the property list. *)
Lemma pretty_N_go_free (x : N) (s : string) :
  free_of "_" s -> free_of "_" (pretty_N_go x s).
Proof.
  revert s. induction (N.lt_wf_0 x) as [x _ IH]; intros s Hs.
  assert (x = 0 \/ 0 < x)%N as [->|Hx] by lia.
  - by rewrite pretty_N_go_0.
  - rewrite pretty_N_go_step by done. apply IH; [by apply N.div_lt|].
    split; [|done]. unfold pretty_N_char. by repeat case_match.
Qed.

Lemma str_of_int_free (n : Z) : free_of "_" (str_of_int n).
Proof.
  unfold str_of_int, pretty, pretty_Z, pretty, pretty_positive, pretty, pretty_N.
  destruct n as [|p|p].
  - by compute.
  - case_decide; [by compute|]. by apply pretty_N_go_free.
  - split; [done|]. case_decide; [by compute|]. by apply pretty_N_go_free.
Qed.

Lemma underscore_split (a b r1 r2 : string) :
  free_of "_" a -> free_of "_" b ->
  (a ++ String "_" r1)%string = (b ++ String "_" r2)%string -> a = b /\ r1 = r2.
Proof.
  revert b. induction a as [|c a IH]; intros [|c' b] Ha Hb; simpl; intros E.
  - by injection E.
  - injection E as <- _. by destruct Hb.
  - injection E as -> _. by destruct Ha.
  - injection E as -> E. destruct Ha as [_ Ha], Hb as [_ Hb].
    destruct (IH b Ha Hb E) as [-> ->]. done.
Qed.

Lemma properties_joined_inj (r1 r2 : ExecResult) :
  (String.concat "_" (properties r1) ++ ".bin")%string
  = (String.concat "_" (properties r2) ++ ".bin")%string ->
  properties r1 = properties r2.
Proof.
  unfold properties.
  destruct (crashed r1), (timeout r1), (truthy_coverage (coverage r1)),
    (crashed r2), (timeout r2), (truthy_coverage (coverage r2)); simpl; done.
Qed.

Lemma interesting_path_inj dir ts1 ts2 r1 r2 :
  interesting_path dir ts1 r1 = interesting_path dir ts2 r2 ->
  ts1 = ts2 /\ properties r1 = properties r2.
Proof.
  unfold interesting_path, path_join, interesting_filename. intros E.
  apply (inj (String.app dir)) in E. simpl in E. injection E as E.
  apply underscore_split in E as [Ets Eprops]; try apply str_of_int_free.
  split; [by apply (inj pretty)|].
  by apply properties_joined_inj.
Qed.

(** C8, as the code has it: the call touches one path only, the file
    [<corpus_dir>/id_<int(time)>_<properties>.bin]; every other path keeps
    what it held, in particular the file of any result saved at another
    whole second or with other properties.  When the input encodes and the
    path is not a directory, the call returns and the file holds the encoded
    input, whether or not the path held a file before. *)
Theorem save_interesting_input_effect :
  forall result w,
    let now := clock w (tick w) in
    let dir := corpus_dir (self w) in
    exists res w',
      save_interesting_input result w = (res, w')
      /\ (forall q,
            (forall ts, PyFloat.to_Z now = Some ts -> q <> interesting_path dir ts result) ->
            fs w' !! q = fs w !! q)
      /\ (forall ts ts' earlier,
            PyFloat.to_Z now = Some ts ->
            ts' <> ts \/ properties earlier <> properties result ->
            fs w' !! interesting_path dir ts' earlier
            = fs w !! interesting_path dir ts' earlier)
      /\ (forall ts l d b,
            PyFloat.to_Z now = Some ts ->
            input result = Some l ->
            heap w !! l = Some (ODict d) ->
            encode_input (heap w) d = Some b ->
            fs w !! interesting_path dir ts result <> Some Dir ->
            res = Ok tt
            /\ fs w' !! interesting_path dir ts result
               = Some (File (file_mode (fs w) (interesting_path dir ts result)) b)).
Proof.
  intros result w now dir.
  pose proof (save_interesting_input_frame result w) as Hframe.
  unfold wp in Hframe.
  destruct (save_interesting_input result w) as [res w'] eqn:Hrun. simpl in Hframe.
  exists res, w'. split; [done|]. split; [exact Hframe|]. split.
  { intros ts ts' earlier Hts Hdiff. apply Hframe.
    intros ts0 Hts0 E. fold now in Hts0. rewrite Hts in Hts0. injection Hts0 as <-.
    apply interesting_path_inj in E as [? ?]. destruct Hdiff; congruence. }
  intros ts l d b Hts Hl Hd Henc Hnd.
  unfold save_interesting_input in Hrun.
  unfold bind, time_time, int_of_float, get_self, require in Hrun. simpl in Hrun.
  fold now in Hrun. rewrite Hts, Hl in Hrun. unfold ret in Hrun. simpl in Hrun.
  fold dir in Hrun. fold (interesting_path dir ts result) in Hrun.
  rewrite (write_input_file_run _ l d b) in Hrun by done.
  injection Hrun as <- <-. split; [done|].
  unfold written. simpl. apply lookup_insert_eq.
Qed.

(** C8 as stated fails: two calls within the same clock second and with the
    same properties name the same file, and the second call replaces what
    the first one wrote. *)
Lemma save_interesting_input_overwrites :
  ~ never_overwrites (benign_result 0%nat) (benign_result 1%nat) same_second_world.
Proof.
  intros H.
  destruct (save_interesting_input (benign_result 0%nat) same_second_world)
    as [res1 w1] eqn:E1.
  destruct (save_interesting_input (benign_result 1%nat) w1) as [res2 w2] eqn:E2.
  vm_compute in E1. injection E1 as <- <-.
  vm_compute in E2. injection E2 as <- <-.
  specialize (H _ _ "fuzz_corpus/id_1700000000_.bin"%string 420 ["001"%byte]
                eq_refl eq_refl).
  vm_compute in H. specialize (H eq_refl eq_refl). done.
Qed.

(** ** Rounding to a binary format yields a value of that format *)

Lemma digits2_pos_bounds (m : positive) :
  2 ^ (Z.pos (digits2_pos m) - 1) <= Z.pos m < 2 ^ Z.pos (digits2_pos m).
Proof.
  induction m as [m IH|m IH|]; simpl digits2_pos.
  - rewrite Pos2Z.inj_succ.
    replace (Z.succ (Z.pos (digits2_pos m)) - 1) with (Z.succ (Z.pos (digits2_pos m) - 1)) by lia.
    rewrite !Z.pow_succ_r by lia. lia.
  - rewrite Pos2Z.inj_succ.
    replace (Z.succ (Z.pos (digits2_pos m)) - 1) with (Z.succ (Z.pos (digits2_pos m) - 1)) by lia.
    rewrite !Z.pow_succ_r by lia. lia.
  - simpl. lia.
Qed.

Lemma Zdigits2_nonneg (m : Z) : 0 <= Zdigits2 m.
Proof. destruct m; simpl; lia. Qed.

Lemma Zdigits2_bounds (m : Z) :
  0 < m -> 2 ^ (Zdigits2 m - 1) <= m < 2 ^ Zdigits2 m.
Proof. destruct m as [|p|p]; try lia. intros _. apply digits2_pos_bounds. Qed.

Lemma Zdigits2_pos (m : Z) : 0 < m -> 0 < Zdigits2 m.
Proof. destruct m; simpl; lia. Qed.

Lemma Zdigits2_unique (m d : Z) :
  0 < d -> 2 ^ (d - 1) <= m < 2 ^ d -> Zdigits2 m = d.
Proof.
  intros Hd [Hlo Hhi].
  assert (0 < m) by (pose proof (Z.pow_pos_nonneg 2 (d - 1)); lia).
  pose proof (Zdigits2_bounds m H) as [Hlo' Hhi'].
  pose proof (Zdigits2_pos m H).
  destruct (Z.lt_trichotomy (Zdigits2 m) d) as [Hlt|[Heq|Hgt]]; [|done|].
  - pose proof (Z.pow_le_mono_r 2 (Zdigits2 m) (d - 1)). lia.
  - pose proof (Z.pow_le_mono_r 2 d (Zdigits2 m - 1)). lia.
Qed.

Lemma Zdigits2_mono (a b : Z) : 0 <= a <= b -> Zdigits2 a <= Zdigits2 b.
Proof.
  intros [Ha Hab]. destruct (Z.eq_dec a 0) as [->|Hne].
  { apply Zdigits2_nonneg. }
  pose proof (Zdigits2_bounds a) as Ba. pose proof (Zdigits2_bounds b) as Bb.
  destruct (Z.le_gt_cases (Zdigits2 a) (Zdigits2 b)) as [|Hgt]; [done|].
  pose proof (Z.pow_le_mono_r 2 (Zdigits2 b) (Zdigits2 a - 1)). lia.
Qed.

Lemma Zdigits2_div_pow (m n : Z) :
  0 < m -> 0 <= n -> 0 < m / 2 ^ n -> Zdigits2 (m / 2 ^ n) = Zdigits2 m - n.
Proof.
  intros Hm Hn Hq.
  pose proof (Zdigits2_bounds m Hm) as [Hlo Hhi].
  pose proof (Zdigits2_pos m Hm) as Hd.
  assert (0 < 2 ^ n) by (apply Z.pow_pos_nonneg; lia).
  assert (2 ^ n <= m).
  { destruct (Z.le_gt_cases (2 ^ n) m); [done|]. rewrite Z.div_small in Hq; lia. }
  assert (n < Zdigits2 m).
  { destruct (Z.lt_ge_cases n (Zdigits2 m)); [done|].
    pose proof (Z.pow_le_mono_r 2 (Zdigits2 m) n). lia. }
  apply Zdigits2_unique; [lia|]. split.
  - apply Z.div_le_lower_bound; [done|].
    rewrite <- Z.pow_add_r by lia.
    replace (n + (Zdigits2 m - n - 1)) with (Zdigits2 m - 1) by lia. done.
  - apply Z.div_lt_upper_bound; [done|].
    rewrite <- Z.pow_add_r by lia.
    replace (n + (Zdigits2 m - n)) with (Zdigits2 m) by lia. done.
Qed.

Lemma shr_m_shr_1 (mrs : shr_record) :
  0 <= shr_m mrs -> shr_m (shr_1 mrs) = shr_m mrs / 2.
Proof.
  destruct mrs as [m r s]. simpl. intros Hm.
  destruct m as [|[p|p|]|p]; simpl shr_m; try lia;
    first [ apply (Z.div_unique _ _ _ 0); lia | apply (Z.div_unique _ _ _ 1); lia ].
Qed.

Lemma shr_m_iter_pos (p : positive) (mrs : shr_record) :
  0 <= shr_m mrs -> shr_m (SpecFloat.iter_pos shr_1 p mrs) = shr_m mrs / 2 ^ Z.pos p.
Proof.
  revert mrs. induction p as [p IH|p IH|]; intros mrs Hm; simpl SpecFloat.iter_pos.
  - assert (0 <= shr_m (shr_1 mrs)) by (rewrite shr_m_shr_1 by done; apply Z.div_pos; lia).
    assert (0 < 2 ^ Z.pos p) by (apply Z.pow_pos_nonneg; lia).
    assert (0 <= shr_m (SpecFloat.iter_pos shr_1 p (shr_1 mrs)))
      by (rewrite IH by done; apply Z.div_pos; lia).
    rewrite IH, IH, shr_m_shr_1 by done.
    rewrite !Z.div_div by lia. f_equal.
    replace (Z.pos p~1) with (Z.succ (Z.pos p + Z.pos p)) by lia.
    rewrite Z.pow_succ_r, Z.pow_add_r by lia. lia.
  - assert (0 < 2 ^ Z.pos p) by (apply Z.pow_pos_nonneg; lia).
    assert (0 <= shr_m (SpecFloat.iter_pos shr_1 p mrs))
      by (rewrite IH by done; apply Z.div_pos; lia).
    rewrite IH, IH by done.
    rewrite !Z.div_div by lia. f_equal.
    replace (Z.pos p~0) with (Z.pos p + Z.pos p) by lia.
    rewrite Z.pow_add_r by lia. lia.
  - by rewrite shr_m_shr_1.
Qed.

Lemma shr_m_of_loc m l : shr_m (shr_record_of_loc m l) = m.
Proof. by destruct l as [|[]]. Qed.

Lemma round_nearest_even_bounds m l :
  m <= round_nearest_even m l <= m + 1.
Proof.
  destruct l as [|[]]; simpl; try lia. destruct (Z.even m); lia.
Qed.

Lemma digits2_pos_iter_xO (m d : positive) :
  Z.pos (digits2_pos (Pos.iter xO m d)) = Z.pos (digits2_pos m) + Z.pos d.
Proof.
  induction d as [|d IH] using Pos.peano_ind.
  - simpl. lia.
  - rewrite Pos.iter_succ. simpl digits2_pos. lia.
Qed.

Section BinaryRound.

Variables prec emax : Z.
Hypothesis prec_pos : 0 < prec.

Let fexp := SpecFloat.fexp prec emax.
Let emin := SpecFloat.emin prec emax.

Lemma fexp_mono a b : a <= b -> fexp a <= fexp b.
Proof. unfold fexp, SpecFloat.fexp. lia. Qed.

Lemma fexp_ge_emin a : emin <= fexp a.
Proof. unfold fexp, emin, SpecFloat.fexp. lia. Qed.

(** After [shr_fexp] on a positive mantissa that needs no left shift, the
    exponent is the one the format prescribes; the mantissa either matches
    it or has been shifted out completely, at the smallest exponent. *)
Lemma shr_fexp_canonical m e l mrs' e' :
  0 < m -> e <= fexp (Zdigits2 m + e) ->
  shr_fexp prec emax m e l = (mrs', e') ->
  0 <= shr_m mrs'
  /\ ((0 < shr_m mrs' /\ fexp (Zdigits2 (shr_m mrs') + e') = e')
      \/ (shr_m mrs' = 0 /\ e' = emin)).
Proof.
  intros Hm He. unfold shr_fexp, shr. fold fexp.
  set (n := fexp (Zdigits2 m + e) - e).
  destruct n as [|p|p] eqn:En.
  - intros [= <- <-]. rewrite shr_m_of_loc. split; [lia|]. left. split; [done|lia].
  - intros [= <- <-].
    rewrite shr_m_iter_pos by (rewrite shr_m_of_loc; lia).
    rewrite shr_m_of_loc.
    assert (0 < 2 ^ Z.pos p) by (apply Z.pow_pos_nonneg; lia).
    assert (0 <= m / 2 ^ Z.pos p) by (apply Z.div_pos; lia).
    split; [done|].
    destruct (Z.eq_dec (m / 2 ^ Z.pos p) 0) as [Hz|Hnz].
    + right. split; [done|].
      apply Z.div_small_iff in Hz; [|lia].
      assert (Zdigits2 m <= Z.pos p).
      { pose proof (Zdigits2_bounds m Hm).
        destruct (Z.le_gt_cases (Zdigits2 m) (Z.pos p)); [done|].
        pose proof (Z.pow_le_mono_r 2 (Z.pos p) (Zdigits2 m - 1)). lia. }
      unfold n, fexp, SpecFloat.fexp in En. unfold emin. lia.
    + left. split; [lia|].
      rewrite Zdigits2_div_pow by lia.
      replace (Zdigits2 m - Z.pos p + (e + Z.pos p)) with (Zdigits2 m + e) by lia.
      unfold n in En. lia.
  - lia.
Qed.

Lemma binary_round_aux_valid s m e l :
  0 < m -> e <= fexp (Zdigits2 m + e) ->
  valid_binary prec emax (binary_round_aux prec emax s m e l) = true.
Proof.
  intros Hm He. unfold binary_round_aux.
  destruct (shr_fexp prec emax m e l) as [mrs' e'] eqn:E1.
  destruct (shr_fexp_canonical _ _ _ _ _ Hm He E1) as [Hnn Hcases].
  set (m1 := round_nearest_even (shr_m mrs') (loc_of_shr_record mrs')).
  pose proof (round_nearest_even_bounds (shr_m mrs') (loc_of_shr_record mrs')) as Hr.
  fold m1 in Hr.
  destruct (shr_fexp prec emax m1 e' loc_Exact) as [mrs'' e''] eqn:E2.
  destruct (Z.eq_dec m1 0) as [Hz|Hnz].
  { (* rounded to zero *)
    rewrite Hz in E2. unfold shr_fexp, shr in E2. simpl Zdigits2 in E2.
    destruct (SpecFloat.fexp prec emax (0 + e') - e') as [|p|p]; injection E2 as <- <-.
    - done.
    - rewrite shr_m_iter_pos by (simpl; lia). simpl shr_m. by rewrite Z.div_0_l by (apply Z.pow_nonzero; lia).
    - done. }
  assert (0 < m1) by lia.
  assert (e' <= fexp (Zdigits2 m1 + e')) as He'.
  { destruct Hcases as [[Hpos Hcan]|[Hzero Hemin]].
    - rewrite <- Hcan at 1. apply fexp_mono.
      pose proof (Zdigits2_mono (shr_m mrs') m1). lia.
    - rewrite Hemin. apply fexp_ge_emin. }
  destruct (shr_fexp_canonical _ _ _ _ _ H He' E2) as [Hnn2 Hcases2].
  destruct (shr_m mrs'') as [|m2|m2] eqn:Em2; [done| |done].
  destruct (Z.leb_spec e'' (emax - prec)); [|done].
  simpl. unfold bounded, canonical_mantissa.
  destruct Hcases2 as [[_ Hcan]|[Hzero _]]; [|lia].
  simpl in Hcan. fold fexp. rewrite Hcan, Z.eqb_refl. simpl.
  by apply Z.leb_le.
Qed.

Lemma binary_round_valid s m e :
  valid_binary prec emax (binary_round prec emax s m e) = true.
Proof.
  unfold binary_round, shl_align. fold fexp.
  destruct (fexp (Z.pos (digits2_pos m) + e) - e) as [|p|p] eqn:En.
  - apply binary_round_aux_valid; [lia|]. simpl. lia.
  - apply binary_round_aux_valid; [lia|]. simpl. lia.
  - apply binary_round_aux_valid; [lia|]. simpl.
    rewrite digits2_pos_iter_xO.
    replace (Z.pos (digits2_pos m) + Z.pos p + fexp (Z.pos (digits2_pos m) + e))
      with (Z.pos (digits2_pos m) + e) by lia.
    lia.
Qed.

End BinaryRound.

(** ** The binary32 bit pattern and its four bytes *)

Lemma Z_of_byte_of_Z (z : Z) : Z_of_byte (byte_of_Z z) = z mod 256.
Proof.
  unfold Z_of_byte, byte_of_Z.
  pose proof (Z.mod_pos_bound z 256 eq_refl) as Hz.
  destruct (Byte.of_N (Z.to_N (z mod 256))) as [b|] eqn:E; simpl.
  - apply Byte.to_of_N in E. rewrite E. lia.
  - apply Byte.of_N_None_iff in E. lia.
Qed.

Lemma le_word_le_bytes (b : Z) :
  0 <= b < 2 ^ 32 -> Struct.le_word (Struct.le_bytes b) = b.
Proof.
  intros Hb. unfold Struct.le_word, Struct.le_bytes.
  rewrite !Z_of_byte_of_Z.
  change (2 ^ 8) with 256. change (2 ^ 16) with 65536. change (2 ^ 24) with 16777216.
  change (2 ^ 32) with 4294967296 in Hb.
  Z.to_euclidean_division_equations. lia.
Qed.

(** A sign, an 8-bit exponent field and a 23-bit fraction are read back
    from the word they make up. *)
Lemma bits_fields (s : bool) (ex frac : Z) (b := Struct.sign_bit s + ex * 2 ^ 23 + frac) :
  0 <= ex < 256 -> 0 <= frac < 2 ^ 23 ->
  0 <= b < 2 ^ 32
  /\ (2 ^ 31 <=? b) = s
  /\ (b / 2 ^ 23) mod 256 = ex
  /\ b mod 2 ^ 23 = frac.
Proof.
  intros Hex Hfrac. unfold b, Struct.sign_bit.
  change (2 ^ 23) with 8388608 in *. change (2 ^ 31) with 2147483648.
  change (2 ^ 32) with 4294967296.
  destruct s.
  - split; [lia|]. split; [apply Z.leb_le; lia|].
    Z.to_euclidean_division_equations. lia.
  - split; [lia|]. split; [apply Z.leb_gt; lia|].
    Z.to_euclidean_division_equations. lia.
Qed.

Lemma bits_of_binary32_range (x : spec_float) :
  valid_binary 24 128 x = true -> 0 <= Struct.bits_of_binary32 x < 2 ^ 32.
Proof.
  destruct x as [s|s| |s m e]; simpl.
  - intros _. unfold Struct.sign_bit. destruct s; lia.
  - intros _. destruct (bits_fields s 255 0) as (H & _); lia.
  - intros _. lia.
  - unfold bounded, canonical_mantissa, SpecFloat.fexp, SpecFloat.emin.
    intros H. apply andb_true_iff in H as [Hc He].
    apply Z.eqb_eq in Hc. apply Z.leb_le in He.
    pose proof (digits2_pos_bounds m) as [Hlo Hhi].
    destruct (Z.leb_spec (2 ^ 23) (Z.pos m)) as [Hn|Hs].
    + assert (Z.pos (digits2_pos m) = 24) as Hd.
      { destruct (Z.le_gt_cases (Z.pos (digits2_pos m)) 23) as [Hle|Hgt].
        - pose proof (Z.pow_le_mono_r 2 (Z.pos (digits2_pos m)) 23). lia.
        - lia. }
      rewrite Hd in Hhi.
      destruct (bits_fields s (e + 150) (Z.pos m - 2 ^ 23)) as (H & _); lia.
    + destruct (bits_fields s 0 (Z.pos m)) as (H & _); lia.
Qed.

Lemma binary32_of_bits_of_binary32 (x : spec_float) :
  valid_binary 24 128 x = true ->
  Struct.binary32_of_bits (Struct.bits_of_binary32 x) = x.
Proof.
  destruct x as [s|s| |s m e]; simpl.
  - intros _. unfold Struct.binary32_of_bits.
    destruct (bits_fields s 0 0) as (_ & Hs & He & Hf); [lia|lia|].
    replace (Struct.sign_bit s + 0 * 2 ^ 23 + 0) with (Struct.sign_bit s) in * by lia.
    rewrite Hs, He, Hf. done.
  - intros _. unfold Struct.binary32_of_bits.
    destruct (bits_fields s 255 0) as (_ & Hs & He & Hf); [lia|lia|].
    replace (Struct.sign_bit s + 255 * 2 ^ 23 + 0) with (Struct.sign_bit s + 255 * 2 ^ 23) in * by lia.
    rewrite Hs, He, Hf. done.
  - intros _. reflexivity.
  - unfold bounded, canonical_mantissa, SpecFloat.fexp, SpecFloat.emin.
    intros H. apply andb_true_iff in H as [Hc He].
    apply Z.eqb_eq in Hc. apply Z.leb_le in He.
    pose proof (digits2_pos_bounds m) as [Hlo Hhi].
    unfold Struct.binary32_of_bits.
    destruct (Z.leb_spec (2 ^ 23) (Z.pos m)) as [Hn|Hs].
    + assert (Z.pos (digits2_pos m) = 24) as Hd.
      { destruct (Z.le_gt_cases (Z.pos (digits2_pos m)) 23) as [Hle|Hgt].
        - pose proof (Z.pow_le_mono_r 2 (Z.pos (digits2_pos m)) 23). lia.
        - lia. }
      rewrite Hd in Hhi.
      destruct (bits_fields s (e + 150) (Z.pos m - 2 ^ 23)) as (_ & Hsg & Hex & Hf);
        [lia|lia|].
      rewrite Hsg, Hex, Hf.
      destruct (Z.eqb_spec (e + 150) 0); [lia|].
      destruct (Z.eqb_spec (e + 150) 255); [lia|].
      replace (Z.pos m - 2 ^ 23 + 2 ^ 23) with (Z.pos m) by lia.
      f_equal. lia.
    + destruct (bits_fields s 0 (Z.pos m)) as (_ & Hsg & Hex & Hf); [lia|lia|].
      replace (Struct.sign_bit s + 0 * 2 ^ 23 + Z.pos m) with (Struct.sign_bit s + Z.pos m) in * by lia.
      rewrite Hsg, Hex, Hf. simpl. f_equal.
      assert (Z.pos (digits2_pos m) <= 23).
      { destruct (Z.le_gt_cases (Z.pos (digits2_pos m)) 23) as [Hle|Hgt]; [done|].
        pose proof (Z.pow_le_mono_r 2 23 (Z.pos (digits2_pos m) - 1)). lia. }
      lia.
Qed.

Lemma to_binary32_valid (x : float) : valid_binary 24 128 (Struct.to_binary32 x) = true.
Proof.
  destruct x as [s|s| |s m e]; simpl; try done. by apply binary_round_valid.
Qed.

Lemma length_pack_f (x : float) : length (Struct.pack_f x) = 4%nat.
Proof. done. Qed.

Lemma unpack_pack_f (x : float) : Struct.unpack_f (Struct.pack_f x) = round32 x.
Proof.
  unfold Struct.unpack_f, Struct.pack_f, round32.
  pose proof (to_binary32_valid x) as Hv.
  rewrite le_word_le_bytes by (by apply bits_of_binary32_range).
  by rewrite binary32_of_bits_of_binary32.
Qed.

(** ** Writing a structured input and reading it back *)

Lemma chunks4_packed (xs : list float) :
  Struct.chunks4 (length xs) (concat (map Struct.pack_f xs)) = map Struct.pack_f xs.
Proof.
  induction xs as [|x xs IH]; [done|].
  cbn [length map concat Struct.chunks4].
  rewrite (take_app_length' (Struct.pack_f x)) by done.
  rewrite (drop_app_length' (Struct.pack_f x)) by done.
  by rewrite IH.
Qed.

Lemma length_packed (xs : list float) :
  length (concat (map Struct.pack_f xs)) = (4 * length xs)%nat.
Proof.
  induction xs as [|x xs IH]; [done|].
  cbn [length map concat]. rewrite length_app, IH, length_pack_f. lia.
Qed.

Lemma unpack_packed (xs : list float) :
  map Struct.unpack_f (Struct.chunks4 (length xs) (concat (map Struct.pack_f xs)))
  = map round32 xs.
Proof.
  rewrite chunks4_packed, map_map. apply map_ext. intros x. apply unpack_pack_f.
Qed.

Lemma slices_of_three {A} (p r z : list A) :
  length p = 12%nat -> length r = 16%nat -> length z = 4%nat ->
  slice (p ++ r ++ z) 0 12 = p
  /\ slice (p ++ r ++ z) 12 28 = r
  /\ slice (p ++ r ++ z) 28 32 = z.
Proof.
  intros Hp Hr Hz.
  assert (len (p ++ r ++ z) = 32) as Hlen
    by (unfold len; rewrite !length_app; lia).
  split; [|split].
  - rewrite (slice_block _ 0 12) by lia.
    change (Z.to_nat 12) with 12%nat. change (Z.to_nat 0) with 0%nat. rewrite drop_0.
    by rewrite (take_app_length' p) by done.
  - rewrite (slice_block _ 12 16) by lia.
    change (Z.to_nat 12) with 12%nat. change (Z.to_nat 16) with 16%nat.
    rewrite (drop_app_length' p) by done.
    by rewrite (take_app_length' r) by done.
  - rewrite (slice_block _ 28 4) by lia.
    change (Z.to_nat 28) with 28%nat. change (Z.to_nat 4) with 4%nat.
    rewrite (drop_app_ge p) by lia. rewrite Hp.
    rewrite (drop_app_length' r) by done.
    apply take_ge. lia.
Qed.

(** C2, as the code has it: a structured input with its three fields and
    no payload is written as 32 bytes, and reading them back gives a new
    input whose position, rotation and zoom are those of the original
    rounded to binary32, and which has in addition a ['bytes'] entry holding
    the 32 bytes.  The original objects are not changed. *)
Theorem write_read_structured :
  forall path x p r z pos rot w,
    heap w !! x = Some (ODict (structured p r z)) ->
    heap w !! p = Some (OList pos) -> length pos = 3%nat ->
    heap w !! r = Some (OList rot) -> length rot = 4%nat ->
    fs w !! path <> Some Dir ->
    let encoded := concat (map Struct.pack_f (pos ++ rot ++ [z])) in
    exists w1 y w2 p' r' mode,
      write_input_file path x w = (Ok tt, w1)
      /\ fs w1 !! path = Some (File mode encoded)
      /\ length encoded = 32%nat
      /\ read_input_file path w1 = (Ok y, w2)
      /\ heap w2 !! y = Some (ODict {| position := Some p'; rotation := Some r';
                                        zoom := Some (round32 z);
                                        bytes := Some encoded |})
      /\ heap w2 !! p' = Some (OList (map round32 pos))
      /\ heap w2 !! r' = Some (OList (map round32 rot))
      /\ (forall l o, heap w !! l = Some o -> heap w2 !! l = Some o).
Proof.
  intros path x p r z pos rot w Hx Hp Hlp Hr Hlr Hpath encoded.
  assert (encoded = concat (map Struct.pack_f pos) ++ concat (map Struct.pack_f rot)
                    ++ Struct.pack_f z) as Henc.
  { unfold encoded. rewrite !map_app, !concat_app. cbn [map concat].
    by rewrite app_nil_r. }
  assert (length encoded = 32%nat) as Hlen.
  { unfold encoded. rewrite length_packed, !length_app, Hlp, Hlr. done. }
  assert (write_input_file path x w = (Ok tt, written path encoded w)) as Hwrite.
  { apply (write_input_file_run path x (structured p r z)); [done| |done].
    unfold encode_input, packed_field, Struct.pack. simpl. rewrite Hp, Hr.
    destruct (decide (length pos = 3%nat)); [|done].
    destruct (decide (length rot = 4%nat)); [|done].
    by rewrite Henc. }
  assert (fs (written path encoded w) !! path
          = Some (File (file_mode (fs w) path) encoded)) as Hfile
    by apply lookup_insert_eq.
  pose proof (read_input_file_long path _ encoded _ Hfile) as Hread.
  simpl in Hread. specialize (Hread ltac:(unfold len; lia)).
  destruct (slices_of_three (concat (map Struct.pack_f pos))
              (concat (map Struct.pack_f rot)) (Struct.pack_f z))
    as (S1 & S2 & S3); [by rewrite length_packed, Hlp|by rewrite length_packed, Hlr|done|].
  rewrite <- Henc in S1, S2, S3.
  assert (decoded_position encoded = map round32 pos) as Dp.
  { unfold decoded_position. rewrite S1. rewrite <- Hlp. apply unpack_packed. }
  assert (decoded_rotation encoded = map round32 rot) as Dr.
  { unfold decoded_rotation. rewrite S2. rewrite <- Hlr. apply unpack_packed. }
  assert (decoded_zoom encoded = round32 z) as Dz.
  { unfold decoded_zoom. rewrite S3. rewrite take_ge by (simpl; lia).
    apply unpack_pack_f. }
  eexists _, _, _, (length (heap w)), (S (length (heap w))), _.
  split; [exact Hwrite|]. split; [exact Hfile|]. split; [exact Hlen|].
  split; [exact Hread|]. simpl.
  split.
  { rewrite lookup_app_r by lia.
    replace (S (S (length (heap w))) - length (heap w))%nat with 2%nat by lia.
    simpl. unfold structured_input. by rewrite Dz. }
  split.
  { rewrite lookup_app_r by lia. rewrite Nat.sub_diag. simpl. by rewrite Dp. }
  split.
  { rewrite lookup_app_r by lia.
    replace (S (length (heap w)) - length (heap w))%nat with 1%nat by lia.
    simpl. by rewrite Dr. }
  intros l o Hl. by apply lookup_app_l_Some.
Qed.

(** C2 as stated fails on two counts.  Read back, the far camera has x =
    2^24, one unit away from the x = 2^24 + 1 that was written, and it has
    a ['bytes'] key that the original does not have. *)
Lemma far_camera_does_not_round_trip :
  ~ round_trips agree 0%nat "camera.bin" far_camera_world.
Proof.
  intros (w1 & y & w2 & dx & dy & H1 & H2 & Hx & Hy & Hcmp).
  vm_compute in H1. injection H1 as <-.
  vm_compute in H2. injection H2 as <- <-.
  vm_compute in Hx. injection Hx as <-.
  vm_compute in Hy. injection Hy as <-.
  vm_compute in Hcmp. done.
Qed.

Lemma far_camera_keys_differ :
  ~ round_trips (fun _ => same_keys) 0%nat "camera.bin" far_camera_world.
Proof.
  intros (w1 & y & w2 & dx & dy & H1 & H2 & Hx & Hy & Hcmp).
  vm_compute in H1. injection H1 as <-.
  vm_compute in H2. injection H2 as <- <-.
  vm_compute in Hx. injection Hx as <-.
  vm_compute in Hy. injection Hy as <-.
  vm_compute in Hcmp. done.
Qed.

Lemma far_camera_fields_differ :
  ~ round_trips fields_close 0%nat "camera.bin" far_camera_world.
Proof.
  intros (w1 & y & w2 & dx & dy & H1 & H2 & Hx & Hy & Hcmp).
  vm_compute in H1. injection H1 as <-.
  vm_compute in H2. injection H2 as <- <-.
  vm_compute in Hx. injection Hx as <-.
  vm_compute in Hy. injection Hy as <-.
  vm_compute in Hcmp. done.
Qed.

(** ** Mutation and the seed *)

(** C1 on the code: [mutate_input] on the seed at location 0 returns a new
    dict (location 3) and leaves the seed dict's bindings alone, but the
    copy is shallow: the new dict refers to the seed's position list, and
    [arithmetic_mutation] adds the delta in that list.  The seed's position
    changes from [0, 0, 0] to [1, 0, 0]. *)
Theorem mutate_input_writes_seed_position :
  exists w',
    mutate_input 0%nat arithmetic_world = (Ok 3%nat, w')
    /\ heap w' !! 0%nat = heap arithmetic_world !! 0%nat
    /\ heap w' !! 3%nat = Some (ODict (structured 1%nat 2%nat (PyFloat.of_Z 6)))
    /\ heap arithmetic_world !! 1%nat
       = Some (OList [PyFloat.zero; PyFloat.zero; PyFloat.zero])
    /\ heap w' !! 1%nat = Some (OList [PyFloat.one; PyFloat.zero; PyFloat.zero])
    /\ ~ seed_untouched 0%nat arithmetic_world w'.
Proof.
  destruct (mutate_input 0%nat arithmetic_world) as [res w'] eqn:E.
  vm_compute in E. injection E as <- <-.
  eexists. split; [reflexivity|].
  split; [reflexivity|]. split; [reflexivity|]. split; [reflexivity|].
  split; [reflexivity|].
  intros H. destruct (H _ eq_refl) as (_ & Hpos & _).
  vm_compute in Hpos. done.
Qed.

(** The same happens through [interesting_values]. *)
Lemma interesting_values_writes_seed_position :
  exists l w',
    mutate_input 0%nat interesting_world = (Ok l, w')
    /\ ~ seed_untouched 0%nat interesting_world w'.
Proof.
  destruct (mutate_input 0%nat interesting_world) as [res w'] eqn:E.
  vm_compute in E. injection E as <- <-.
  eexists _, _. split; [reflexivity|].
  intros H. destruct (H _ eq_refl) as (_ & Hpos & _).
  vm_compute in Hpos. done.
Qed.

(** * Further properties *)

(** ** What a strategy may change *)

Lemma strategy_frame_refl data w : strategy_frame data w w.
Proof.
  split; [by destruct w|]. split; [done|]. split; [done|]. eauto.
Qed.

Lemma strategy_frame_trans data w1 w2 w3 :
  strategy_frame data w1 w2 -> strategy_frame data w2 w3 -> strategy_frame data w1 w3.
Proof.
  intros (E1 & L1 & O1 & D1) (E2 & L2 & O2 & D2). split; [|split; [|split]].
  - rewrite E2 at 1. rewrite E1 at 1. done.
  - congruence.
  - eauto.
  - intros d Hd. destruct (D1 d Hd) as (d1 & H1 & P1 & R1).
    destruct (D2 d1 H1) as (d2 & H2 & P2 & R2). exists d2. split; [done|]. split; congruence.
Qed.

Lemma strategy_frame_cursor data c w : strategy_frame data w (set_cursor c w).
Proof. split; [done|]. split; [done|]. split; [done|]. eauto. Qed.

Lemma keeps_for_range (R : World -> World -> Prop) {A} n (body : A -> M A) acc :
  (forall w, R w w) -> (forall w1 w2 w3, R w1 w2 -> R w2 w3 -> R w1 w3) ->
  (forall a, keeps R (body a)) -> keeps R (for_range n body acc).
Proof.
  intros Hrefl Htrans Hbody. revert acc. induction n as [|n IH]; intros acc; simpl.
  - by apply keeps_pure.
  - apply keeps_bind; auto.
Qed.

Section StrategyFrame.

Variable data : loc.
Let R := strategy_frame data.

Lemma sf_pure {A} (m : M A) : (forall w, (m w).2 = w) -> keeps R m.
Proof. apply keeps_pure. apply strategy_frame_refl. Qed.

Lemma sf_ret {A} (a : A) : keeps R (ret a).
Proof. by apply sf_pure. Qed.

Lemma sf_get_dict l : keeps R (get_dict l).
Proof. apply sf_pure. intros w. unfold get_dict. by destruct (heap w !! l) as [[]|]. Qed.

Lemma sf_get_list l : keeps R (get_list l).
Proof. apply sf_pure. intros w. unfold get_list. by destruct (heap w !! l) as [[]|]. Qed.

Lemma sf_getitem {A} (xs : list A) i : keeps R (getitem xs i).
Proof.
  apply sf_pure. intros w. unfold getitem.
  destruct (norm_index _ _); [|done]. by destruct (xs !! _).
Qed.

Lemma sf_setitem {A} (xs : list A) i v : keeps R (setitem xs i v).
Proof. apply sf_pure. intros w. unfold setitem. by destruct (norm_index _ _). Qed.

Lemma sf_draw : keeps R draw.
Proof. intros w. apply strategy_frame_cursor. Qed.

Lemma sf_bind {A B} (m : M A) (k : A -> M B) :
  keeps R m -> (forall a, keeps R (k a)) -> keeps R (bind m k).
Proof. apply keeps_bind. apply strategy_frame_trans. Qed.

Lemma sf_randint a b : keeps R (random_randint a b).
Proof.
  unfold random_randint. destruct (b <? a); [by apply sf_pure|].
  apply sf_bind; [|intros; apply sf_ret].
  apply sf_bind; [apply sf_draw|intros; apply sf_ret].
Qed.

Lemma sf_choice {A} (seq : list A) : keeps R (random_choice seq).
Proof.
  unfold random_choice. destruct seq; [by apply sf_pure|].
  apply sf_bind; [|intros; apply sf_getitem].
  apply sf_bind; [apply sf_draw|intros; apply sf_ret].
Qed.

Lemma sf_random : keeps R random_random.
Proof. apply sf_bind; [apply sf_draw|intros; apply sf_ret]. Qed.

Lemma sf_urandom n : keeps R (os_urandom n).
Proof.
  unfold os_urandom. induction (Z.to_nat n) as [|k IH]; simpl; [apply sf_ret|].
  apply sf_bind; [apply sf_draw|intros]. apply sf_bind; [apply IH|intros; apply sf_ret].
Qed.

Lemma sf_put_data d d' w :
  heap w !! data = Some (ODict d) ->
  position d' = position d -> rotation d' = rotation d ->
  R w (set_heap (<[data := ODict d']> (heap w)) w).
Proof.
  intros Hd Hp Hr. split; [done|]. simpl. split; [apply length_insert|]. split.
  - intros l d0 Hl Hd0. by rewrite list_lookup_insert_ne.
  - intros d0 Hd0. exists d'. split; [|split; congruence].
    apply list_lookup_insert_eq. by eapply lookup_lt_Some.
Qed.

Lemma sf_set_item_bytes v : keeps R (set_item_bytes data v).
Proof.
  intros w. unfold wp, set_item_bytes, bind, get_dict, put_dict.
  destruct (heap w !! data) as [[d|]|] eqn:E; simpl; try apply strategy_frame_refl.
  by eapply sf_put_data.
Qed.

Lemma sf_set_item_zoom v : keeps R (set_item_zoom data v).
Proof.
  intros w. unfold wp, set_item_zoom, bind, get_dict, put_dict.
  destruct (heap w !! data) as [[d|]|] eqn:E; simpl; try apply strategy_frame_refl.
  by eapply sf_put_data.
Qed.

Lemma sf_put_list p xs xs' w :
  heap w !! p = Some (OList xs) ->
  R w (set_heap (<[p := OList xs']> (heap w)) w).
Proof.
  intros Hp. split; [done|]. simpl. split; [apply length_insert|]. split.
  - intros l d0 Hl Hd0. rewrite list_lookup_insert_ne; [done|].
    intros E. subst l. by pose proof (eq_trans (eq_sym Hp) Hd0).
  - intros d0 Hd0. exists d0. split; [|done].
    rewrite list_lookup_insert_ne; [done|]. intros E. subst p. by pose proof (eq_trans (eq_sym Hp) Hd0).
Qed.

Lemma sf_list_setitem p i v : keeps R (list_setitem p i v).
Proof.
  intros w. unfold wp, list_setitem, bind, get_list, put_list.
  destruct (heap w !! p) as [[|xs]|] eqn:E; simpl; try apply strategy_frame_refl.
  unfold setitem. destruct (norm_index _ _); simpl; [|apply strategy_frame_refl].
  by eapply sf_put_list.
Qed.

Lemma sf_list_iadd p i v : keeps R (list_iadd p i v).
Proof.
  intros w. unfold wp, list_iadd, bind, get_list, put_list.
  destruct (heap w !! p) as [[|xs]|] eqn:E; simpl; try apply strategy_frame_refl.
  unfold getitem, setitem. destruct (norm_index _ _); simpl; [|apply strategy_frame_refl].
  destruct (xs !! n); simpl; [|apply strategy_frame_refl].
  by eapply sf_put_list.
Qed.

Lemma sf_for_range {A} n (body : A -> M A) acc :
  (forall a, keeps R (body a)) -> keeps R (for_range n body acc).
Proof.
  apply keeps_for_range; [apply strategy_frame_refl|apply strategy_frame_trans].
Qed.

End StrategyFrame.

Ltac frame_tac :=
  repeat first
    [ apply sf_ret | apply sf_get_dict | apply sf_get_list | apply sf_getitem
    | apply sf_setitem | apply sf_randint | apply sf_choice | apply sf_random
    | apply sf_urandom | apply sf_set_item_bytes | apply sf_set_item_zoom
    | apply sf_list_setitem | apply sf_list_iadd
    | apply sf_for_range; intros ?
    | apply sf_bind; [|intros ?]
    | match goal with
      | |- keeps _ (match ?x with _ => _ end) => destruct x
      end ].

Lemma bit_flip_frame data : keeps (strategy_frame data) (bit_flip data).
Proof. unfold bit_flip, bytearray_ixor. frame_tac. Qed.
Lemma byte_flip_frame data : keeps (strategy_frame data) (byte_flip data).
Proof. unfold byte_flip, bytearray_ixor. frame_tac. Qed.
Lemma arithmetic_mutation_frame data : keeps (strategy_frame data) (arithmetic_mutation data).
Proof. unfold arithmetic_mutation. frame_tac. Qed.
Lemma interesting_values_frame data : keeps (strategy_frame data) (interesting_values data).
Proof. unfold interesting_values, present_and_lucky. frame_tac. Qed.
Lemma block_shuffle_frame data : keeps (strategy_frame data) (block_shuffle data).
Proof. unfold block_shuffle. frame_tac. Qed.
Lemma truncate_extend_frame data : keeps (strategy_frame data) (truncate_extend data).
Proof. unfold truncate_extend. frame_tac. Qed.
Lemma splice_inputs_frame data : keeps (strategy_frame data) (splice_inputs data).
Proof. unfold splice_inputs. frame_tac. Qed.
Lemma dictionary_mutation_frame data : keeps (strategy_frame data) (dictionary_mutation data).
Proof. unfold dictionary_mutation. frame_tac. Qed.

Lemma yields_ret {A} (a : A) : yields a (ret a).
Proof. intros w x [= <-]. done. Qed.

Lemma yields_bind {A B} (a : B) (m : M A) (k : A -> M B) :
  (forall x, yields a (k x)) -> yields a (bind m k).
Proof.
  intros Hk w. unfold wp, bind. destruct (m w) as [[x|e] w'].
  - apply Hk.
  - simpl. intros x [=].
Qed.

Ltac yields_tac :=
  repeat first
    [ apply yields_ret
    | apply yields_bind; intros ?
    | match goal with
      | |- yields _ (match ?x with _ => _ end) => destruct x
      end ].

Lemma wp_conj {A} (m : M A) (Q1 Q2 : Res A -> World -> Prop) w :
  wp m Q1 w -> wp m Q2 w -> wp m (fun r w' => Q1 r w' /\ Q2 r w') w.
Proof. unfold wp. done. Qed.

Lemma strategy_in_place strategy data w :
  strategy ∈ mutation_strategies -> wp (strategy data) (in_place data w) w.
Proof.
  intros Hin. unfold mutation_strategies in Hin. apply wp_conj.
  - revert w. change (keeps (strategy_frame data) (strategy data)).
    set_unfold.
    destruct Hin as [->|[->|[->|[->|[->|[->|[->|[->|[]]]]]]]]];
      eauto using bit_flip_frame, byte_flip_frame, arithmetic_mutation_frame,
        interesting_values_frame, block_shuffle_frame, truncate_extend_frame,
        splice_inputs_frame, dictionary_mutation_frame.
  - revert w. change (yields data (strategy data)).
    set_unfold.
    destruct Hin as [->|[->|[->|[->|[->|[->|[->|[->|[]]]]]]]]].
    + unfold bit_flip. yields_tac.
    + unfold byte_flip. yields_tac.
    + unfold arithmetic_mutation. yields_tac.
    + unfold interesting_values. yields_tac.
    + unfold block_shuffle. yields_tac.
    + unfold truncate_extend. yields_tac.
    + unfold splice_inputs. yields_tac.
    + unfold dictionary_mutation. yields_tac.
Qed.

Lemma in_place_step data w0 w (m : M loc) :
  strategy_frame data w0 w ->
  wp m (in_place data w) w ->
  wp m (in_place data w0) w.
Proof.
  intros H0 Hm. eapply wp_mono; [exact Hm|]. intros r w' [Hf Hr].
  split; [by eapply strategy_frame_trans|done].
Qed.

Lemma for_range_S {A} n (body : A -> M A) acc :
  for_range (S n) body acc = bind (body acc) (for_range n body).
Proof. done. Qed.

Lemma stacked_in_place n data w :
  wp (for_range n
        (fun mutated => let* strategy := random_choice mutation_strategies in strategy mutated)
        data) (in_place data w) w.
Proof.
  assert (forall w0, strategy_frame data w0 w ->
            wp (for_range n
                  (fun mutated =>
                     let* strategy := random_choice mutation_strategies in strategy mutated)
                  data) (in_place data w0) w) as H;
    [|apply H, strategy_frame_refl].
  revert w. induction n as [|n IH]; intros w w0 H0.
  - apply wp_ret. split; [done|]. by intros l [= <-].
  - rewrite for_range_S. apply wp_bind. apply wp_bind, wp_choice; [done|]. intros strategy Hin.
    eapply wp_mono; [by apply (strategy_in_place strategy data)|].
    intros [l|e] w' [Hf Hr]; simpl.
    + rewrite (Hr l eq_refl). apply IH.
      eapply strategy_frame_trans; [|exact Hf].
      eapply strategy_frame_trans; [exact H0|]. apply strategy_frame_cursor.
    + split; [|done].
      eapply strategy_frame_trans; [|exact Hf].
      eapply strategy_frame_trans; [exact H0|]. apply strategy_frame_cursor.
Qed.

Lemma mutate_input_in_place seed d w :
  heap w !! seed = Some (ODict d) ->
  wp (mutate_input seed) (in_place (length (heap w)) (copied d w)) w.
Proof.
  intros Hd. set (copy := length (heap w)). set (w1 := copied d w).
  unfold mutate_input. apply wp_bind, wp_choice; [done|]. intros strategy Hin.
  apply wp_bind. unfold dict_copy.
  apply wp_bind. eapply wp_get_dict; [exact Hd|].
  unfold alloc at 1. unfold wp at 1. simpl. fold copy. fold (copied d w). fold w1.
  apply wp_bind. eapply wp_mono; [by apply (strategy_in_place strategy copy)|].
  intros [l|e] w2 [Hf Hr]; simpl; [|done].
  rewrite (Hr l eq_refl).
  apply wp_bind, wp_random. intros r.
  destruct (PyFloat.ltb r PyFloat.lit_0_1).
  - apply wp_bind, wp_randint; [lia|]. intros n _.
    apply in_place_step; [|apply stacked_in_place].
    eapply strategy_frame_trans; [exact Hf|].
    eapply strategy_frame_trans; apply strategy_frame_cursor.
  - apply wp_ret. split; [|by intros ? [= <-]].
    eapply strategy_frame_trans; [exact Hf|]. apply strategy_frame_cursor.
Qed.

Lemma in_place_copied seed d w res w' :
  heap w !! seed = Some (ODict d) ->
  in_place (length (heap w)) (copied d w) res w' ->
  w' = set_heap (heap w') (set_cursor (cursor w') w)
  /\ length (heap w') = S (length (heap w))
  /\ (forall l d0, heap w !! l = Some (ODict d0) -> heap w' !! l = Some (ODict d0))
  /\ (exists d', heap w' !! length (heap w) = Some (ODict d')
                 /\ position d' = position d /\ rotation d' = rotation d)
  /\ (forall l, res = Ok l -> l = length (heap w)).
Proof.
  intros Hd [(E & L & O & D) Hr].
  split; [|split; [|split; [|split]]].
  - rewrite E at 1. done.
  - rewrite L. unfold copied. simpl. rewrite length_app. simpl. lia.
  - intros l d0 Hl. apply O.
    + apply lookup_lt_Some in Hl. lia.
    + unfold copied. simpl. rewrite lookup_app_l; [done|]. by eapply lookup_lt_Some.
  - apply D. unfold copied. simpl. by rewrite lookup_app_r, Nat.sub_diag.
  - exact Hr.
Qed.

(** X1: [mutate_input] allocates exactly one object, the copy of the seed
    dict, and returns it whenever it returns.  Every dict that existed
    before, the seed included, keeps its bindings, whatever the random
    draws are and also when a strategy raises; apart from the heap only the
    position on the random tape changes.  The copy still refers to the
    seed's own position and rotation list objects. *)
Theorem mutate_input_copy_on_write :
  forall seed d w,
    heap w !! seed = Some (ODict d) ->
    let res := (mutate_input seed w).1 in
    let w' := (mutate_input seed w).2 in
    let copy := length (heap w) in
    w' = set_heap (heap w') (set_cursor (cursor w') w)
    /\ length (heap w') = S (length (heap w))
    /\ (forall l d0, heap w !! l = Some (ODict d0) -> heap w' !! l = Some (ODict d0))
    /\ (exists d', heap w' !! copy = Some (ODict d')
                   /\ position d' = position d /\ rotation d' = rotation d)
    /\ (forall l, res = Ok l -> l = copy).
Proof.
  intros seed d w Hd res w' copy.
  eapply in_place_copied; [exact Hd|]. by apply mutate_input_in_place.
Qed.

(** ** Well-formed inputs stay well formed *)

Lemma same_shape_refl d : same_shape d d.
Proof. done. Qed.

Lemma same_shape_trans d1 d2 d3 : same_shape d1 d2 -> same_shape d2 d3 -> same_shape d1 d3.
Proof.
  intros (P1 & R1 & Z1 & B1) (P2 & R2 & Z2 & B2).
  split; [congruence|]. split; [congruence|]. split; [by rewrite Z2|by rewrite B2].
Qed.

Lemma list_of_length_put_list h n field p xs xs' :
  h !! p = Some (OList xs) -> length xs' = length xs ->
  list_of_length h n field -> list_of_length (<[p := OList xs']> h) n field.
Proof.
  intros Hp Hlen. destruct field as [q|]; [|done]. intros (ys & Hq & Hn).
  destruct (decide (q = p)) as [->|Hne].
  - exists xs'. split.
    + apply list_lookup_insert_eq. by eapply lookup_lt_Some.
    + pose proof (eq_trans (eq_sym Hp) Hq) as E. injection E as ->. congruence.
  - exists ys. split; [|done]. by rewrite list_lookup_insert_ne.
Qed.

Lemma well_formed_put_list data d h p xs xs' :
  h !! p = Some (OList xs) -> length xs' = length xs ->
  well_formed_at data d h -> well_formed_at data d (<[p := OList xs']> h).
Proof.
  intros Hp Hlen [Hd [Hpos Hrot]]. split; [|split].
  - rewrite list_lookup_insert_ne; [done|].
    intros E. subst p. by pose proof (eq_trans (eq_sym Hp) Hd).
  - by eapply list_of_length_put_list.
  - by eapply list_of_length_put_list.
Qed.

Lemma list_of_length_put_dict h n field data d d' :
  h !! data = Some (ODict d) ->
  list_of_length h n field -> list_of_length (<[data := ODict d']> h) n field.
Proof.
  intros Hd. destruct field as [q|]; [|done]. intros (ys & Hq & Hn).
  exists ys. split; [|done]. rewrite list_lookup_insert_ne; [done|].
  intros E. subst q. by pose proof (eq_trans (eq_sym Hd) Hq).
Qed.

Lemma well_formed_put_dict data d d' h :
  position d' = position d -> rotation d' = rotation d ->
  well_formed_at data d h -> well_formed_at data d' (<[data := ODict d']> h).
Proof.
  intros Hp Hr [Hd [Hpos Hrot]]. split; [|split].
  - apply list_lookup_insert_eq. by eapply lookup_lt_Some.
  - rewrite Hp. by eapply list_of_length_put_dict.
  - rewrite Hr. by eapply list_of_length_put_dict.
Qed.

(** *** Rules for the list and dict updates *)

Lemma wp_get_list l xs (Q : Res (list float) -> World -> Prop) w :
  heap w !! l = Some (OList xs) -> Q (Ok xs) w -> wp (get_list l) Q w.
Proof. intros H HQ. unfold wp, get_list. by rewrite H. Qed.

Lemma wp_list_setitem p xs i v (Q : Res unit -> World -> Prop) w :
  heap w !! p = Some (OList xs) -> 0 <= i < len xs ->
  Q (Ok tt) (set_heap (<[p := OList (<[Z.to_nat i := v]> xs)]> (heap w)) w) ->
  wp (list_setitem p i v) Q w.
Proof.
  intros Hp Hi HQ. unfold list_setitem. apply wp_bind. eapply wp_get_list; [done|].
  apply wp_bind, wp_setitem; [done|]. exact HQ.
Qed.

Lemma wp_list_iadd p xs i delta (Q : Res unit -> World -> Prop) w :
  heap w !! p = Some (OList xs) -> 0 <= i < len xs ->
  (forall x, xs !! Z.to_nat i = Some x ->
     Q (Ok tt) (set_heap (<[p := OList (<[Z.to_nat i := PyFloat.add x delta]> xs)]> (heap w)) w)) ->
  wp (list_iadd p i delta) Q w.
Proof.
  intros Hp Hi HQ. unfold list_iadd. apply wp_bind. eapply wp_get_list; [done|].
  apply wp_bind, wp_getitem; [done|]. intros x Hx.
  apply wp_bind, wp_setitem; [done|]. by apply HQ.
Qed.

Lemma wp_set_item_zoom l d v (Q : Res unit -> World -> Prop) w :
  heap w !! l = Some (ODict d) ->
  Q (Ok tt) (set_heap (<[l := ODict {| position := position d; rotation := rotation d;
                                        zoom := Some v; bytes := bytes d |}]> (heap w)) w) ->
  wp (set_item_zoom l v) Q w.
Proof.
  intros H HQ. unfold set_item_zoom. apply wp_bind. eapply wp_get_dict; [done|]. exact HQ.
Qed.

(** *** The byte strategies on an input without payload *)

Lemma bit_flip_absent data d w :
  heap w !! data = Some (ODict d) -> bytes d = None -> bit_flip data w = (Ok data, w).
Proof. intros Hd Hb. unfold bit_flip, bind, get_dict. by rewrite Hd, Hb. Qed.

Lemma byte_flip_absent data d w :
  heap w !! data = Some (ODict d) -> bytes d = None -> byte_flip data w = (Ok data, w).
Proof. intros Hd Hb. unfold byte_flip, bind, get_dict. by rewrite Hd, Hb. Qed.

Lemma block_shuffle_absent data d w :
  heap w !! data = Some (ODict d) -> bytes d = None -> block_shuffle data w = (Ok data, w).
Proof. intros Hd Hb. unfold block_shuffle, bind, get_dict. by rewrite Hd, Hb. Qed.

Lemma truncate_extend_absent data d w :
  heap w !! data = Some (ODict d) -> bytes d = None -> truncate_extend data w = (Ok data, w).
Proof. intros Hd Hb. unfold truncate_extend, bind, get_dict. by rewrite Hd, Hb. Qed.

Lemma splice_inputs_absent data d w :
  heap w !! data = Some (ODict d) -> bytes d = None -> splice_inputs data w = (Ok data, w).
Proof. intros Hd Hb. unfold splice_inputs, bind, get_dict. by rewrite Hd, Hb. Qed.

Lemma dictionary_mutation_absent data d w :
  heap w !! data = Some (ODict d) -> bytes d = None ->
  dictionary_mutation data w = (Ok data, w).
Proof. intros Hd Hb. unfold dictionary_mutation, bind, get_dict. by rewrite Hd, Hb. Qed.

(** X3: a byte-oriented strategy applied to an input without the
    ['bytes'] key returns the input at once: nothing in the world changes
    and no random number is drawn. *)
Theorem byte_strategies_skip_without_payload :
  forall strategy data d w,
    strategy ∈ byte_strategies ->
    heap w !! data = Some (ODict d) ->
    bytes d = None ->
    strategy data w = (Ok data, w).
Proof.
  intros strategy data d w Hin Hd Hb. unfold byte_strategies in Hin. set_unfold.
  destruct Hin as [->|[->|[->|[->|[->|[->|[]]]]]]];
    eauto using bit_flip_absent, byte_flip_absent, block_shuffle_absent,
      truncate_extend_absent, splice_inputs_absent, dictionary_mutation_absent.
Qed.

(** *** The field strategies on a well-formed input *)

Lemma arithmetic_mutation_shape data d w :
  well_formed_at data d (heap w) ->
  wp (arithmetic_mutation data) (shape_kept data d) w.
Proof.
  intros Hwf. pose proof Hwf as [Hd [Hpos Hrot]].
  unfold arithmetic_mutation. apply wp_bind. eapply wp_get_dict; [done|].
  apply wp_bind_ok.
  apply (wp_mono _ (returns (fun _ w' => well_formed_at data d (heap w')))).
  { destruct (position d) as [p|] eqn:Ep; [|by apply wp_ret].
    destruct Hpos as (xs & Hp & Hlen).
    apply wp_bind, wp_randint; [lia|]. intros idx Hidx.
    apply wp_bind, wp_choice; [done|]. intros delta _.
    eapply wp_list_iadd; [exact Hp|unfold len; lia|]. intros x Hx. simpl.
    eapply well_formed_put_list; [exact Hp|by rewrite length_insert|done]. }
  intros [[]|e] w1; unfold returns; [|done]. intros Hwf1. pose proof Hwf1 as [Hd1 _].
  apply wp_bind. eapply wp_get_dict; [done|].
  destruct (zoom d) as [z|] eqn:Ez.
  - apply wp_bind, wp_bind, wp_choice; [done|]. intros delta _.
    eapply wp_set_item_zoom; [exact Hd1|].
    apply wp_ret. split; [done|]. eexists. split.
    + simpl. eapply well_formed_put_dict; [| |exact Hwf1]; done.
    + split; [done|]. split; [done|]. simpl. rewrite Ez. split; [|done].
      split; eauto.
  - apply wp_bind, wp_ret, wp_ret. split; [done|]. exists d. done.
Qed.

Lemma wp_present_and_lucky {A} (field : option A) (Q : Res (option A) -> World -> Prop) w :
  (forall c, Q (Ok None) (set_cursor c w)) ->
  (forall v, field = Some v -> Q (Ok (Some v)) (set_cursor (S (cursor w)) w)) ->
  wp (present_and_lucky field) Q w.
Proof.
  intros Hno Hyes. unfold present_and_lucky. destruct field as [v|].
  - apply wp_bind, wp_random. intros r. apply wp_ret.
    destruct (PyFloat.ltb r PyFloat.lit_0_3); [by apply Hyes|apply Hno].
  - apply wp_ret. rewrite <- (set_cursor_same w). apply Hno.
Qed.

Lemma interesting_list_part data d n field bound w :
  well_formed_at data d (heap w) ->
  list_of_length (heap w) n field -> bound < Z.of_nat n -> 0 <= bound ->
  wp (let* go := present_and_lucky field in
      match go with
      | Some p =>
          let* idx := random_randint 0 bound in
          let* v := random_choice interesting_floats in
          list_setitem p idx v
      | None => ret tt
      end)
     (returns (fun _ w' => well_formed_at data d (heap w'))) w.
Proof.
  intros Hwf Hlist Hb Hb0. apply wp_bind, wp_present_and_lucky.
  - intros c. by apply wp_ret.
  - intros p ->. destruct Hlist as (xs & Hp & Hlen).
    apply wp_bind, wp_randint; [lia|]. intros idx Hidx.
    apply wp_bind, wp_choice; [done|]. intros v _.
    eapply wp_list_setitem; [exact Hp|unfold len; lia|]. simpl.
    eapply well_formed_put_list; [exact Hp|by rewrite length_insert|done].
Qed.

Lemma wp_assoc {A B C} (m : M A) (f : A -> M B) (g : B -> M C) Q w :
  wp (bind (bind m f) g) Q w -> wp (bind m (fun x => bind (f x) g)) Q w.
Proof. unfold wp, bind. by destruct (m w) as [[a|e] w']. Qed.

Lemma interesting_values_shape data d w :
  well_formed_at data d (heap w) ->
  wp (interesting_values data) (shape_kept data d) w.
Proof.
  intros Hwf. pose proof Hwf as [Hd [Hpos Hrot]].
  unfold interesting_values. apply wp_bind. eapply wp_get_dict; [done|].
  apply wp_assoc, wp_bind_ok.
  eapply wp_mono; [by apply (interesting_list_part data d 3 (position d) 2 w)|].
  intros [[]|e] w1; unfold returns; [|done]. intros Hwf1. pose proof Hwf1 as [Hd1 [_ Hrot1]].
  apply wp_bind. eapply wp_get_dict; [done|].
  apply wp_assoc, wp_bind_ok.
  eapply wp_mono; [by apply (interesting_list_part data d 4 (rotation d) 3 w1)|].
  intros [[]|e] w2; unfold returns; [|done]. intros Hwf2. pose proof Hwf2 as [Hd2 _].
  apply wp_bind. eapply wp_get_dict; [done|].
  apply wp_bind, wp_present_and_lucky.
  - intros c. apply wp_bind, wp_ret, wp_ret. split; [done|]. exists d. done.
  - intros z Hz. apply wp_bind, wp_bind, wp_choice; [done|]. intros v _.
    eapply wp_set_item_zoom; [exact Hd2|].
    apply wp_ret. split; [done|]. eexists. split.
    + simpl. eapply well_formed_put_dict; [| |exact Hwf2]; done.
    + split; [done|]. split; [done|]. simpl. rewrite Hz. split; [|done].
      split; eauto.
Qed.

(** *** Every strategy on a well-formed input *)

Lemma payload_kept_shape data d b w r w' :
  well_formed_at data d (heap w) -> bytes d = Some b ->
  payload_kept data d w r w' -> shape_kept data d r w'.
Proof.
  intros Hwf Hb. destruct r as [l|e]; simpl; [|done].
  intros [-> (b' & ->)]. split; [done|]. exists (with_bytes d b'). split.
  - eapply well_formed_put_dict; [| |exact Hwf]; done.
  - split; [done|]. split; [done|]. split; [done|]. simpl. rewrite Hb.
    split; eauto.
Qed.

Lemma strategy_shape strategy data d w :
  strategy ∈ mutation_strategies ->
  well_formed_at data d (heap w) ->
  wp (strategy data) (shape_kept data d) w.
Proof.
  intros Hin Hwf. pose proof Hwf as [Hd _].
  assert (forall s,
            (forall b, bytes d = Some b -> wp (s data) (payload_kept data d w) w) ->
            (bytes d = None -> s data w = (Ok data, w)) ->
            wp (s data) (shape_kept data d) w) as Hbyte.
  { intros s Hsome Hnone. destruct (bytes d) as [b|] eqn:Hb.
    - eapply wp_mono; [by eapply Hsome|]. intros r w'. by eapply payload_kept_shape.
    - unfold wp. rewrite Hnone by done. simpl. split; [done|]. exists d. done. }
  unfold mutation_strategies in Hin. set_unfold.
  destruct Hin as [->|[->|[->|[->|[->|[->|[->|[->|[]]]]]]]]].
  - apply Hbyte; eauto using bit_flip_ok, bit_flip_absent.
  - apply Hbyte; eauto using byte_flip_ok, byte_flip_absent.
  - by apply arithmetic_mutation_shape.
  - by apply interesting_values_shape.
  - apply Hbyte; eauto using block_shuffle_ok, block_shuffle_absent.
  - apply Hbyte; eauto using truncate_extend_ok, truncate_extend_absent.
  - apply Hbyte; eauto using splice_inputs_ok, splice_inputs_absent.
  - apply Hbyte; eauto using dictionary_mutation_ok, dictionary_mutation_absent.
Qed.

Lemma stacked_shape n data d w :
  well_formed_at data d (heap w) ->
  wp (for_range n
        (fun mutated => let* strategy := random_choice mutation_strategies in strategy mutated)
        data) (shape_kept data d) w.
Proof.
  intros Hwf.
  eapply wp_mono.
  { apply (wp_for_range
             (fun l w' => l = data
                          /\ exists d', well_formed_at data d' (heap w') /\ same_shape d d')).
    - intros acc w1 [-> (d1 & Hwf1 & Hs1)].
      apply wp_bind, wp_choice; [done|]. intros strategy Hin.
      eapply wp_mono; [by apply (strategy_shape strategy data d1)|].
      intros [l|e] w2; simpl; [|done]. intros [-> (d2 & Hwf2 & Hs2)].
      split; [done|]. exists d2. split; [done|]. by eapply same_shape_trans.
    - split; [done|]. exists d. done. }
  done.
Qed.

(** X2: on a seed whose position list (if present) has three components
    and whose rotation list (if present) has four, [mutate_input] returns,
    for every random tape, stacked mutations included.  The result is a new
    dict with the same keys as the seed and the same list objects, and those
    lists still have three and four components. *)
Theorem mutate_input_total :
  forall seed d w,
    well_formed_at seed d (heap w) ->
    exists w' d',
      mutate_input seed w = (Ok (length (heap w)), w')
      /\ well_formed_at (length (heap w)) d' (heap w')
      /\ same_shape d d'.
Proof.
  intros seed d w Hwf. pose proof Hwf as [Hd [Hpos Hrot]].
  set (copy := length (heap w)).
  assert (wp (mutate_input seed) (shape_kept copy d) w) as H.
  { unfold mutate_input. apply wp_bind, wp_choice; [done|]. intros strategy Hin.
    apply wp_bind. unfold dict_copy.
    apply wp_bind. eapply wp_get_dict; [exact Hd|].
    unfold alloc at 1. unfold wp at 1. simpl. fold copy.
    set (w1 := set_heap _ _).
    assert (well_formed_at copy d (heap w1)) as Hwf1.
    { unfold w1, copy. simpl. split; [by rewrite lookup_app_r, Nat.sub_diag|].
      split.
      - destruct (position d) as [p|]; [|done]. destruct Hpos as (xs & Hp & Hlen).
        exists xs. split; [|done]. rewrite lookup_app_l; [done|]. by eapply lookup_lt_Some.
      - destruct (rotation d) as [p|]; [|done]. destruct Hrot as (xs & Hp & Hlen).
        exists xs. split; [|done]. rewrite lookup_app_l; [done|]. by eapply lookup_lt_Some. }
    apply wp_bind. eapply wp_mono; [by apply (strategy_shape strategy copy d)|].
    intros [l|e] w2; unfold shape_kept, returns; [|done]. intros [-> (d2 & Hwf2 & Hs2)].
    apply wp_bind, wp_random. intros r.
    destruct (PyFloat.ltb r PyFloat.lit_0_1).
    - apply wp_bind, wp_randint; [lia|]. intros n _.
      eapply wp_mono; [by apply (stacked_shape _ copy d2)|].
      intros [l|e] w3; unfold shape_kept, returns; [|done]. intros [-> (d3 & Hwf3 & Hs3)].
      split; [done|]. exists d3. split; [done|]. by eapply same_shape_trans.
    - apply wp_ret. split; [done|]. exists d2. done. }
  apply wp_returns_run in H as (l & w' & Hrun & -> & d' & Hwf' & Hs).
  by exists w', d'.
Qed.

(** ** Bit and byte flips *)

Lemma finish_with data d v w0 w (P : list byte -> Prop) :
  heap w = heap w0 -> heap w0 !! data = Some (ODict d) -> P v ->
  wp (set_item_bytes data v >> ret data) (payload_becomes data d w0 P) w.
Proof.
  intros Hh Hd HP. apply wp_bind. eapply wp_set_item_bytes; [by rewrite Hh|].
  apply wp_ret. split; [done|]. exists v. simpl. by rewrite Hh.
Qed.

Lemma finish_set_with data d v w0 w (P : list byte -> Prop) :
  heap w = heap w0 -> heap w0 !! data = Some (ODict d) -> P v ->
  wp (set_item_bytes data v)
     (fun r w' => match r with
                  | Ok _ => wp (ret data) (payload_becomes data d w0 P) w'
                  | Raise e => payload_becomes data d w0 P (Raise e) w'
                  end) w.
Proof.
  intros Hh Hd HP. eapply wp_set_item_bytes; [by rewrite Hh|].
  apply wp_ret. split; [done|]. exists v. simpl. by rewrite Hh.
Qed.

Lemma payload_becomes_run data d w (P : list byte -> Prop) (m : M loc) :
  heap w !! data = Some (ODict d) ->
  wp m (payload_becomes data d w P) w ->
  exists b' w', m w = (Ok data, w')
                /\ heap w' !! data = Some (ODict (with_bytes d b')) /\ P b'.
Proof.
  intros Hd H. apply wp_returns_run in H as (l & w' & Hrun & -> & b' & Hheap & HP).
  exists b', w'. split; [done|]. split; [|done]. rewrite Hheap.
  apply list_lookup_insert_eq. by eapply lookup_lt_Some.
Qed.

Lemma wp_for_range_count {A} (I : nat -> A -> World -> Prop) n (body : A -> M A) acc w :
  (forall k acc w, I k acc w -> wp (body acc) (returns (I (S k))) w) ->
  I 0%nat acc w ->
  wp (for_range n body acc) (returns (I n)) w.
Proof.
  intros Hbody.
  assert (forall k acc w, I k acc w ->
            wp (for_range n body acc) (returns (I (k + n)%nat)) w) as H;
    [|apply (H 0%nat)].
  induction n as [|n IH]; intros k acc' w' HI.
  - rewrite Nat.add_0_r. by apply wp_ret.
  - rewrite for_range_S. apply wp_bind_ok. eapply wp_mono; [by apply Hbody|].
    intros [a|e] w''; unfold returns; [|done]. intros HI'.
    replace (k + S n)%nat with (S k + n)%nat by lia. by apply IH.
Qed.

Lemma wp_bytearray_ixor_at bs i m (Q : Res (list byte) -> World -> Prop) w :
  0 <= i < len bs ->
  Q (Ok (flip_at m bs (Z.to_nat i))) w ->
  wp (bytearray_ixor bs i m) Q w.
Proof.
  intros Hi H. unfold bytearray_ixor. apply wp_bind, wp_getitem; [done|].
  intros x Hx. apply wp_setitem; [done|]. unfold flip_at in H. by rewrite Hx in H.
Qed.

Lemma length_flip_at mask acc i : length (flip_at mask acc i) = length acc.
Proof. unfold flip_at. destruct (acc !! i); [apply length_insert|done]. Qed.

Lemma flip_at_other mask acc i j : i <> j -> flip_at mask acc i !! j = acc !! j.
Proof.
  intros Hne. unfold flip_at. destruct (acc !! i); [|done]. by rewrite list_lookup_insert_ne.
Qed.

Lemma flip_at_same mask acc i x :
  acc !! i = Some x -> flip_at mask acc i !! i = Some (byte_xor x mask).
Proof.
  intros Hx. unfold flip_at. rewrite Hx. apply list_lookup_insert_eq. by eapply lookup_lt_Some.
Qed.

Lemma byte_complement_twice (x : byte) : byte_xor (byte_xor x 255) 255 = x.
Proof. destruct x; reflexivity. Qed.

Lemma length_foldl_flip {F} (step : list byte -> F -> list byte) fs b :
  (forall acc f, length (step acc f) = length acc) ->
  length (foldl step b fs) = length b.
Proof.
  intros Hstep. revert b. induction fs as [|f fs IH]; intros b; simpl; [done|].
  by rewrite IH, Hstep.
Qed.

Lemma foldl_snoc {A B} (f : A -> B -> A) a l x : foldl f a (l ++ [x]) = f (foldl f a l) x.
Proof. by rewrite foldl_app. Qed.

Lemma foldl_flip_untouched {F} (step : list byte -> F -> list byte) (pos : F -> nat) fs b j :
  (forall acc f, pos f <> j -> step acc f !! j = acc !! j) ->
  j ∉ map pos fs -> foldl step b fs !! j = b !! j.
Proof.
  intros Hstep. revert b. induction fs as [|f fs IH]; intros b Hj; simpl; [done|].
  simpl in Hj. apply not_elem_of_cons in Hj as [Hne Hj]. rewrite IH by done.
  apply Hstep. congruence.
Qed.

(** X4: [bit_flip] on a payload [b] returns the input with the payload
    obtained from [b] by between 1 and 8 single-bit flips (none when [b] is
    empty), each at a byte index inside the payload and a bit index from 0
    to 7.  The length is kept and every byte at an index that no flip names
    is unchanged. *)
Theorem bit_flip_effect :
  forall data d b w,
    heap w !! data = Some (ODict d) ->
    bytes d = Some b ->
    exists b' w' flips,
      bit_flip data w = (Ok data, w')
      /\ heap w' !! data = Some (ODict (with_bytes d b'))
      /\ b' = foldl flip_bit b flips
      /\ (length flips <= 8)%nat
      /\ (b <> [] -> (1 <= length flips)%nat)
      /\ Forall (fun f => (f.1 < length b)%nat /\ 0 <= f.2 <= 7) flips
      /\ length b' = length b
      /\ (forall i, i ∉ map fst flips -> b' !! i = b !! i).
Proof.
  intros data d b w Hd Hb.
  set (P := fun b' : list byte =>
    exists flips,
      b' = foldl flip_bit b flips /\ (length flips <= 8)%nat
      /\ (b <> [] -> (1 <= length flips)%nat)
      /\ Forall (fun f => (f.1 < length b)%nat /\ 0 <= f.2 <= 7) flips).
  assert (wp (bit_flip data) (payload_becomes data d w P) w) as H.
  { unfold bit_flip. apply wp_bind. eapply wp_get_dict; [done|].
    rewrite Hb. destruct (Z.eqb_spec (len b) 0) as [E|E].
    { apply wp_ret. split; [done|]. exists b. split; [by apply heap_insert_same|].
      exists []. split; [done|]. split; [simpl; lia|]. split; [|done].
      intros Hne. destruct b; [done|]. unfold len in E. simpl in E. lia. }
    pose proof (len_nonneg b).
    apply wp_bind, wp_randint; [lia|]. intros num_flips Hnum.
    apply wp_bind_ok. eapply wp_mono.
    { apply (wp_for_range_count
               (fun k acc w' =>
                  heap w' = heap w
                  /\ exists flips,
                       acc = foldl flip_bit b flips /\ length flips = k
                       /\ Forall (fun f => (f.1 < length b)%nat /\ 0 <= f.2 <= 7) flips)).
      - intros k acc w' (Hw' & flips & -> & Hk & Hall).
        assert (length (foldl flip_bit b flips) = length b) as Hlen.
        { apply length_foldl_flip. intros. apply length_flip_at. }
        apply wp_bind, wp_randint; [unfold len in *; lia|]. intros byte_idx Hidx.
        apply wp_bind, wp_randint; [lia|]. intros bit_idx Hbit.
        apply wp_bytearray_ixor_at; [unfold len in *; lia|].
        split; [done|]. exists (flips ++ [(Z.to_nat byte_idx, bit_idx)]).
        split; [by rewrite foldl_snoc|].
        split; [rewrite length_app; simpl; lia|].
        apply Forall_app. split; [done|]. apply Forall_singleton. simpl.
        unfold len in *. lia.
      - split; [done|]. by exists []. }
    intros [acc|e] w'; unfold returns; [|done]. intros (Hw' & flips & -> & Hk & Hall).
    apply finish_with; [done|done|].
    exists flips. split; [done|]. split; [lia|]. split; [lia|done]. }
  destruct (payload_becomes_run _ _ _ _ _ Hd H) as (b' & w' & Hrun & Hheap & flips & -> & ? & ? & ?).
  exists (foldl flip_bit b flips), w', flips.
  split; [done|]. split; [done|]. split; [done|]. split; [done|]. split; [done|].
  split; [done|]. split.
  - apply length_foldl_flip. intros. apply length_flip_at.
  - intros i Hi. apply (foldl_flip_untouched flip_bit fst); [|done].
    intros acc f Hne. by apply flip_at_other.
Qed.

Lemma foldl_complement_cases idxs b i x :
  b !! i = Some x ->
  foldl (flip_at 255) b idxs !! i = Some x
  \/ foldl (flip_at 255) b idxs !! i = Some (byte_xor x 255).
Proof.
  revert b x. induction idxs as [|j idxs IH]; intros b x Hx; simpl; [by left|].
  destruct (decide (j = i)) as [->|Hne].
  - destruct (IH (flip_at 255 b i) (byte_xor x 255)) as [H|H].
    + by apply flip_at_same.
    + by right.
    + left. by rewrite byte_complement_twice in H.
  - apply IH. by rewrite flip_at_other.
Qed.

(** X5: [byte_flip] on a payload [b] returns the input with the payload
    obtained from [b] by between 1 and 4 XORs with [0xFF] (none when [b] is
    empty) at indices inside the payload.  The length is kept, a byte at an
    index that is not drawn is unchanged, and every byte of the result is
    the original byte or its complement. *)
Theorem byte_flip_effect :
  forall data d b w,
    heap w !! data = Some (ODict d) ->
    bytes d = Some b ->
    exists b' w' idxs,
      byte_flip data w = (Ok data, w')
      /\ heap w' !! data = Some (ODict (with_bytes d b'))
      /\ b' = foldl (flip_at 255) b idxs
      /\ (length idxs <= 4)%nat
      /\ (b <> [] -> (1 <= length idxs)%nat)
      /\ Forall (fun i => (i < length b)%nat) idxs
      /\ length b' = length b
      /\ (forall i, i ∉ idxs -> b' !! i = b !! i)
      /\ (forall i x, b !! i = Some x ->
            b' !! i = Some x \/ b' !! i = Some (byte_xor x 255)).
Proof.
  intros data d b w Hd Hb.
  set (P := fun b' : list byte =>
    exists idxs,
      b' = foldl (flip_at 255) b idxs /\ (length idxs <= 4)%nat
      /\ (b <> [] -> (1 <= length idxs)%nat)
      /\ Forall (fun i => (i < length b)%nat) idxs).
  assert (wp (byte_flip data) (payload_becomes data d w P) w) as H.
  { unfold byte_flip. apply wp_bind. eapply wp_get_dict; [done|].
    rewrite Hb. destruct (Z.eqb_spec (len b) 0) as [E|E].
    { apply wp_ret. split; [done|]. exists b. split; [by apply heap_insert_same|].
      exists []. split; [done|]. split; [simpl; lia|]. split; [|done].
      intros Hne. destruct b; [done|]. unfold len in E. simpl in E. lia. }
    pose proof (len_nonneg b).
    apply wp_bind, wp_randint; [lia|]. intros num_flips Hnum.
    apply wp_bind_ok. eapply wp_mono.
    { apply (wp_for_range_count
               (fun k acc w' =>
                  heap w' = heap w
                  /\ exists idxs,
                       acc = foldl (flip_at 255) b idxs /\ length idxs = k
                       /\ Forall (fun i => (i < length b)%nat) idxs)).
      - intros k acc w' (Hw' & idxs & -> & Hk & Hall).
        assert (length (foldl (flip_at 255) b idxs) = length b) as Hlen.
        { apply length_foldl_flip. intros. apply length_flip_at. }
        apply wp_bind, wp_randint; [unfold len in *; lia|]. intros idx Hidx.
        apply wp_bytearray_ixor_at; [unfold len in *; lia|].
        split; [done|]. exists (idxs ++ [Z.to_nat idx]).
        split; [by rewrite foldl_snoc|].
        split; [rewrite length_app; simpl; lia|].
        apply Forall_app. split; [done|]. apply Forall_singleton.
        unfold len in *. lia.
      - split; [done|]. by exists []. }
    intros [acc|e] w'; unfold returns; [|done]. intros (Hw' & idxs & -> & Hk & Hall).
    apply finish_with; [done|done|].
    exists idxs. split; [done|]. split; [lia|]. split; [lia|done]. }
  destruct (payload_becomes_run _ _ _ _ _ Hd H) as (b' & w' & Hrun & Hheap & idxs & -> & ? & ? & ?).
  exists (foldl (flip_at 255) b idxs), w', idxs.
  split; [done|]. split; [done|]. split; [done|]. split; [done|]. split; [done|].
  split; [done|]. split; [|split].
  - apply length_foldl_flip. intros. apply length_flip_at.
  - intros i Hi. apply (foldl_flip_untouched (flip_at 255) id).
    + intros acc f Hne. by apply flip_at_other.
    + by rewrite map_id.
  - intros i x. apply foldl_complement_cases.
Qed.

(** ** Truncation, splicing and dictionary tokens *)

Lemma wp_urandom_length n (Q : Res (list byte) -> World -> Prop) w :
  (forall bs c, length bs = n -> Q (Ok bs) (set_cursor c w)) -> wp (urandom n) Q w.
Proof.
  revert Q w. induction n as [|n IH]; intros Q w H; simpl.
  - apply wp_ret. rewrite <- (set_cursor_same w). by apply H.
  - apply wp_bind, wp_draw. intros v. apply wp_bind, IH. intros bs c Hbs.
    apply wp_ret. rewrite set_cursor_twice. apply H. simpl. by rewrite Hbs.
Qed.

Lemma slice_prefix {A} (l : list A) n :
  0 <= n <= len l -> slice l 0 n = take (Z.to_nat n) l.
Proof.
  intros Hn. rewrite <- (Z.add_0_l n) at 1. rewrite slice_block by lia. by rewrite drop_0.
Qed.

Lemma slice_assign_insert {A} (l v : list A) i :
  0 <= i <= len l ->
  slice_assign l i i v = take (Z.to_nat i) l ++ v ++ drop (Z.to_nat i) l.
Proof.
  intros Hi. unfold slice_assign. rewrite !clamp_in_range by lia.
  by rewrite Z.max_id.
Qed.

(** X6: [truncate_extend] returns the input with a payload that is
    - the old payload, when truncation was drawn and the payload has at
      most 4 bytes;
    - a proper prefix of the old payload of at least one byte, when
      truncation was drawn and the payload has more than 4 bytes;
    - the old payload followed by 1 to 100 further bytes otherwise. *)
Theorem truncate_extend_effect :
  forall data d b w,
    heap w !! data = Some (ODict d) ->
    bytes d = Some b ->
    exists b' w',
      truncate_extend data w = (Ok data, w')
      /\ heap w' !! data = Some (ODict (with_bytes d b'))
      /\ ((b' = b /\ len b <= 4)
          \/ (exists n, (1 <= n < length b)%nat /\ 4 < len b /\ b' = take n b)
          \/ (exists ext, (1 <= length ext <= 100)%nat /\ b' = b ++ ext)).
Proof.
  intros data d b w Hd Hb.
  set (P := fun b' : list byte =>
    (b' = b /\ len b <= 4)
    \/ (exists n, (1 <= n < length b)%nat /\ 4 < len b /\ b' = take n b)
    \/ (exists ext, (1 <= length ext <= 100)%nat /\ b' = b ++ ext)).
  assert (wp (truncate_extend data) (payload_becomes data d w P) w) as H.
  { unfold truncate_extend. apply wp_bind. eapply wp_get_dict; [done|].
    rewrite Hb. apply wp_bind, wp_random. intros r.
    apply wp_bind.
    destruct (PyFloat.ltb r PyFloat.lit_0_5).
    - destruct (Z.ltb_spec 4 (len b)).
      + apply wp_bind, wp_randint; [lia|]. intros new_len Hnew. apply wp_ret.
        apply finish_with; [done|done|]. right. left.
        exists (Z.to_nat new_len). split; [unfold len in *; lia|]. split; [done|].
        apply slice_prefix. lia.
      + apply wp_ret. apply finish_with; [done|done|]. by left.
    - apply wp_bind, wp_randint; [lia|]. intros extend_len Hext.
      apply wp_bind, wp_random. intros r'.
      destruct (PyFloat.ltb r' PyFloat.lit_0_5).
      + apply wp_ret. apply finish_with; [done|done|]. right. right.
        eexists. split; [|done]. rewrite length_replicate. lia.
      + unfold os_urandom. apply wp_bind, wp_urandom_length. intros junk c Hjunk.
        apply wp_ret. apply finish_with; [done|done|]. right. right.
        exists junk. split; [lia|done]. }
  destruct (payload_becomes_run _ _ _ _ _ Hd H) as (b' & w' & Hrun & Hheap & HP).
  by exists b', w'.
Qed.

(** X7: [splice_inputs] leaves an input with at most 8 payload bytes, and
    the whole world, as it is.  On a longer payload [b] it inserts, at some
    position [0 <= pos <= len b], a copy of between 4 and 32 consecutive
    bytes of [b]; the payload grows by that many bytes. *)
Theorem splice_inputs_effect :
  forall data d b w,
    heap w !! data = Some (ODict d) ->
    bytes d = Some b ->
    exists b' w',
      splice_inputs data w = (Ok data, w')
      /\ heap w' !! data = Some (ODict (with_bytes d b'))
      /\ (len b <= 8 -> b' = b /\ w' = w)
      /\ (8 < len b ->
          exists start n pos,
            (4 <= n <= 32)%nat /\ (start + n <= length b)%nat /\ (pos <= length b)%nat
            /\ b' = take pos b ++ take n (drop start b) ++ drop pos b
            /\ length b' = (length b + n)%nat).
Proof.
  intros data d b w Hd Hb.
  destruct (Z.ltb_spec 8 (len b)) as [Hlong|Hshort].
  - set (P := fun b' : list byte =>
      exists start n pos,
        (4 <= n <= 32)%nat /\ (start + n <= length b)%nat /\ (pos <= length b)%nat
        /\ b' = take pos b ++ take n (drop start b) ++ drop pos b
        /\ length b' = (length b + n)%nat).
    assert (wp (splice_inputs data) (payload_becomes data d w P) w) as H.
    { unfold splice_inputs. apply wp_bind. eapply wp_get_dict; [done|].
      rewrite Hb. destruct (Z.ltb_spec 8 (len b)); [|lia].
      apply wp_bind, wp_bind, wp_randint; [lia|]. intros start Hstart.
      apply wp_bind, wp_randint; [lia|]. intros n Hn.
      apply wp_bind, wp_randint; [lia|]. intros pos Hpos.
      apply finish_set_with; [done|done|].
      exists (Z.to_nat start), (Z.to_nat n), (Z.to_nat pos).
      split; [lia|]. split; [unfold len in *; lia|]. split; [unfold len in *; lia|].
      rewrite slice_assign_insert by lia. rewrite slice_block by lia.
      split; [done|].
      rewrite !length_app, length_take, length_drop, length_take, length_drop.
      unfold len in *. lia. }
    destruct (payload_becomes_run _ _ _ _ _ Hd H) as (b' & w' & Hrun & Hheap & HP).
    exists b', w'. split; [done|]. split; [done|]. split; [lia|]. by intros _.
  - exists b, w. split.
    { unfold splice_inputs, bind, get_dict. rewrite Hd, Hb.
      destruct (Z.ltb_spec 8 (len b)); [lia|done]. }
    split.
    { rewrite Hd. do 2 f_equal. destruct d; simpl in *. unfold with_bytes. simpl. by rewrite Hb. }
    split; [done|lia].
Qed.

(** X8: [dictionary_mutation] draws one of the ten tokens and returns the
    input with a payload of the same length: the token overwrites the bytes
    at some position where it fits entirely, or, when the token is longer
    than the payload, the payload is unchanged. *)
Theorem dictionary_mutation_effect :
  forall data d b w,
    heap w !! data = Some (ODict d) ->
    bytes d = Some b ->
    exists token b' w',
      dictionary_mutation data w = (Ok data, w')
      /\ heap w' !! data = Some (ODict (with_bytes d b'))
      /\ token ∈ tokens
      /\ length b' = length b
      /\ (len b < len token -> b' = b)
      /\ (len token <= len b ->
          exists pos,
            (pos + length token <= length b)%nat
            /\ b' = take pos b ++ token ++ drop (pos + length token) b).
Proof.
  intros data d b w Hd Hb.
  set (P := fun b' : list byte =>
    exists token,
      token ∈ tokens /\ length b' = length b
      /\ (len b < len token -> b' = b)
      /\ (len token <= len b ->
          exists pos,
            (pos + length token <= length b)%nat
            /\ b' = take pos b ++ token ++ drop (pos + length token) b)).
  assert (wp (dictionary_mutation data) (payload_becomes data d w P) w) as H.
  { unfold dictionary_mutation. apply wp_bind. eapply wp_get_dict; [done|].
    rewrite Hb. apply wp_bind, wp_bind, wp_choice; [done|]. intros token Htoken.
    pose proof (len_nonneg token).
    apply wp_bind.
    destruct (Z.leb_spec (len token) (len b)).
    - apply wp_bind, wp_randint; [lia|]. intros pos Hpos. apply wp_ret.
      apply finish_set_with; [done|done|].
      exists token. split; [done|].
      split; [apply length_slice_assign_block; unfold len in *; lia|].
      split; [lia|]. intros _. exists (Z.to_nat pos).
      split; [unfold len in *; lia|].
      rewrite slice_assign_block by lia. unfold len. by rewrite Nat2Z.id.
    - apply wp_ret. apply finish_set_with; [done|done|].
      exists token. split; [done|]. split; [done|]. split; [done|lia]. }
  destruct (payload_becomes_run _ _ _ _ _ Hd H) as (b' & w' & Hrun & Hheap & token & ? & ? & ? & ?).
  by exists token, b', w'.
Qed.

(** ** Coverage hashes and failing writes *)

Lemma sorted_Permutation (xs ys : list Z) : xs ≡ₚ ys -> sorted xs = sorted ys.
Proof.
  intros Hp. unfold sorted. apply (Sorted_unique Z.le).
  - apply Sorted_merge_sort. apply _.
  - apply Sorted_merge_sort. apply _.
  - by rewrite !merge_sort_Permutation.
Qed.

(** X18: the coverage hash does not depend on the order in which the ids
    are listed. *)
Theorem hash_coverage_order_insensitive :
  forall sha256_hexdigest cov cov',
    cov ≡ₚ cov' ->
    hash_coverage sha256_hexdigest cov = hash_coverage sha256_hexdigest cov'.
Proof.
  intros sha cov cov' Hp. unfold hash_coverage. by rewrite (sorted_Permutation cov cov').
Qed.

(** What [write_input_file] leaves at [path] when it raises after the file
    has been opened. *)
Lemma write_input_file_raises_once_open path l d e w w' :
  heap w !! l = Some (ODict d) ->
  fs w !! path <> Some Dir ->
  write_input_file path l w = (Raise e, w') ->
  bytes d = None
  /\ (e = StructError \/ e = TypeError)
  /\ exists c,
         w' = written path c w
         /\ (c = []
             \/ exists p pos, position d = Some p /\ heap w !! p = Some (OList pos)
                              /\ length pos = 3%nat /\ c = concat (map Struct.pack_f pos)).
Proof.
  intros Hd Hpath. unfold write_input_file.
  unfold bind at 1. rewrite open_wb_run by done.
  unfold bind at 1. unfold get_dict. simpl. rewrite Hd.
  destruct (bytes d) as [raw|].
  { rewrite file_write_written. done. }
  intros Hrun. split; [done|].
  unfold bind at 1 in Hrun.
  destruct (position d) as [p|] eqn:Ep.
  - unfold bind at 1 in Hrun. unfold get_list in Hrun. simpl in Hrun.
    destruct (heap w !! p) as [[|pos]|] eqn:Hp;
      try (injection Hrun as <- <-; split; [by right|]; exists []; split; [done|by left]).
    unfold bind at 1 in Hrun. unfold struct_pack, Struct.pack in Hrun.
    destruct (decide (length pos = 3%nat)) as [Hlen|Hlen]; simpl in Hrun;
      [|injection Hrun as <- <-; split; [by left|]; exists []; split; [done|by left]].
    rewrite file_write_written in Hrun. simpl in Hrun.
    assert (exists c, c = concat (map Struct.pack_f pos)) as (c & Hc) by eauto.
    rewrite <- Hc in Hrun.
    unfold bind at 1 in Hrun.
    destruct (rotation d) as [r|] eqn:Er.
    + unfold bind at 1 in Hrun. unfold get_list in Hrun. simpl in Hrun.
      destruct (heap w !! r) as [[|rot]|] eqn:Hr;
        try (injection Hrun as <- <-; split; [by right|]; exists c; split; [done|];
             right; by exists p, pos).
      unfold bind at 1 in Hrun. unfold struct_pack, Struct.pack in Hrun.
      destruct (decide (length rot = 4%nat)) as [Hlen4|Hlen4]; simpl in Hrun;
        [|injection Hrun as <- <-; split; [by left|]; exists c; split; [done|];
          right; by exists p, pos].
      rewrite file_write_written in Hrun.
      destruct (zoom d) as [z|]; [|done].
      unfold bind at 1 in Hrun. unfold struct_pack in Hrun. simpl in Hrun.
      rewrite file_write_written in Hrun. done.
    + unfold ret at 1 in Hrun.
      destruct (zoom d) as [z|]; [|done].
      unfold bind at 1 in Hrun. unfold struct_pack in Hrun. simpl in Hrun.
      rewrite file_write_written in Hrun. done.
  - unfold ret at 1 in Hrun. unfold bind at 1 in Hrun.
    destruct (rotation d) as [r|] eqn:Er.
    + unfold bind at 1 in Hrun. unfold get_list in Hrun. simpl in Hrun.
      destruct (heap w !! r) as [[|rot]|] eqn:Hr;
        try (injection Hrun as <- <-; split; [by right|]; exists []; split; [done|by left]).
      unfold bind at 1 in Hrun. unfold struct_pack, Struct.pack in Hrun.
      destruct (decide (length rot = 4%nat)) as [Hlen4|Hlen4]; simpl in Hrun;
        [|injection Hrun as <- <-; split; [by left|]; exists []; split; [done|by left]].
      rewrite file_write_written in Hrun.
      destruct (zoom d) as [z|]; [|done].
      unfold bind at 1 in Hrun. unfold struct_pack in Hrun. simpl in Hrun.
      rewrite file_write_written in Hrun. done.
    + unfold ret at 1 in Hrun.
      destruct (zoom d) as [z|]; [|done].
      unfold bind at 1 in Hrun. unfold struct_pack in Hrun. simpl in Hrun.
      rewrite file_write_written in Hrun. done.
Qed.

(** X11: when [write_input_file] raises [struct.error] or [TypeError] on a
    dict, the dict has no ['bytes'] key, the path is not a directory, and
    the file had already been opened for writing: afterwards it exists and
    holds nothing, or only the 12 bytes of a position packed before the
    failure.  The previous content of the file is lost. *)
Theorem write_input_file_failure_truncates :
  forall path l d e w w',
    heap w !! l = Some (ODict d) ->
    write_input_file path l w = (Raise e, w') ->
    e = StructError \/ e = TypeError ->
    bytes d = None
    /\ fs w !! path <> Some Dir
    /\ exists c,
         w' = written path c w
         /\ (c = []
             \/ exists p pos, position d = Some p /\ heap w !! p = Some (OList pos)
                              /\ length pos = 3%nat /\ c = concat (map Struct.pack_f pos)).
Proof.
  intros path l d e w w' Hd Hrun He.
  assert (fs w !! path <> Some Dir) as Hpath.
  { intros Hdir. unfold write_input_file, bind, open_wb in Hrun. rewrite Hdir in Hrun.
    injection Hrun as <- _. by destruct He. }
  destruct (write_input_file_raises_once_open path l d e w w' Hd Hpath Hrun)
    as (Hb & _ & Hc).
  done.
Qed.

(** ** Accounting of a target run *)

Lemma counted_same s : counted (total_executions (stats s)) s = s.
Proof. by destruct s as [? ? ? [] ? ?]. Qed.

Lemma execute_target_accounted int_of_str input_data w :
  wp (execute_target int_of_str input_data) (run_accounted int_of_str w) w.
Proof.
  pose proof (write_input_file_frame (fuzz_input_path (pid w)) input_data w) as Hframe.
  unfold wp in *.
  destruct (write_input_file (fuzz_input_path (pid w)) input_data w) as [[[]|e] w1] eqn:Hwrite;
    simpl in Hframe; destruct Hframe as (Hw1 & Hother & Hdir).
  - pose proof (write_input_file_not_dir _ _ _ _ Hwrite) as Hnd.
    assert (fs w1 !! fuzz_input_path (pid w) <> Some Dir) as Hnd1 by (by rewrite Hdir).
    assert (child w1 = child w) as Hchild by (by rewrite Hw1).
    assert (tick w1 = tick w) as Htick by (by rewrite Hw1).
    assert (heap w1 = heap w) as Hheap by (by rewrite Hw1).
    assert (self w1 = self w) as Hself by (by rewrite Hw1).
    unfold execute_target, bind, os_getpid, get_self, time_time, try_finally,
      try_except_on, subprocess_run, ret, bump_total_executions, put_self.
    simpl. rewrite Hwrite. simpl. rewrite Hchild, Htick.
    assert (forall w2, fs w2 = fs w1 ->
              unlink_missing_ok (fuzz_input_path (pid w)) w2
              = (Ok tt, set_fs (delete (fuzz_input_path (pid w)) (fs w1)) w2))
      as Hunlink.
    { intros w2 Hfs. unfold unlink_missing_ok. rewrite Hfs.
      destruct (fs w1 !! fuzz_input_path (pid w)) as [[|m c]|] eqn:E; try done.
      rewrite delete_id by done. rewrite <- Hfs. by rewrite set_fs_same. }
    destruct (child w (S (tick w))) as [rc out err| |].
    + rewrite Hunlink by reflexivity. unfold run_accounted. simpl. rewrite Hheap, Hself.
      split; [done|]. split.
      { intros q Hq. rewrite lookup_delete_ne by done. by apply Hother. }
      split; [done|]. split; [apply lookup_delete_eq|].
      split; [done|]. split; [done|]. split; [done|]. split; [done|]. split; [done|]. done.
    + simpl. rewrite Hunlink by reflexivity. unfold run_accounted. simpl. rewrite Hheap, Hself.
      split; [done|]. split.
      { intros q Hq. rewrite lookup_delete_ne by done. by apply Hother. }
      split; [done|]. split; [apply lookup_delete_eq|].
      split; [done|]. split; [done|]. split; [done|]. split; [done|]. split; [done|]. done.
    + simpl. rewrite Hunlink by reflexivity. unfold run_accounted. simpl. rewrite Hheap, Hself.
      split; [done|]. split; [|done].
      intros q Hq. rewrite lookup_delete_ne by done. by apply Hother.
  - unfold execute_target, bind, os_getpid. simpl. rewrite Hwrite. simpl.
    split; [by rewrite Hw1|]. split; [done|]. by rewrite Hw1.
Qed.

(** X15: what [execute_target] leaves behind, for every input and every
    outcome of the child.  The heap is unchanged and so is every path other
    than the temporary input file.  When the call returns, the execution
    counter has gone up by one and no other field of [self] has changed,
    the temporary file is gone, the result has neither ['input'] nor
    ['interesting'], its coverage is what [extract_coverage] finds in its
    stdout, it is a crash exactly when the exit code is negative, and the
    signal is the negated exit code of a crash.  When the call raises,
    [self] is unchanged: the execution is not counted. *)
Theorem execute_target_accounting :
  forall int_of_str input_data w,
    let tmp := fuzz_input_path (pid w) in
    let n := total_executions (stats (self w)) in
    let res := (execute_target int_of_str input_data w).1 in
    let w' := (execute_target int_of_str input_data w).2 in
    heap w' = heap w
    /\ (forall q, q <> tmp -> fs w' !! q = fs w !! q)
    /\ match res with
       | Ok r =>
           self w' = counted (n + 1) (self w)
           /\ fs w' !! tmp = None
           /\ input r = None /\ interesting r = None
           /\ coverage r = extract_coverage int_of_str (stdout r)
           /\ crashed r = (exit_code r <? 0)
           /\ signal r = (if crashed r then Some (- exit_code r) else None)
           /\ (timeout r = true -> exit_code r = 0 /\ stdout r = ""%string)
       | Raise _ => self w' = self w
       end.
Proof. intros. apply execute_target_accounted. Qed.

(** ** What the oracle changes *)

Lemma oracle_frame_refl w : oracle_frame w w.
Proof. split; [by destruct w|by left]. Qed.

Lemma oracle_frame_cursor c w : oracle_frame w (set_cursor c w).
Proof. split; [done|by left]. Qed.

Lemma oracle_since_crash result w v w0 :
  crashed result = false -> oracle_frame w w0 -> oracle_verdict result w (Ok v) w0.
Proof. intros Hc H. split; [done|]. by rewrite Hc. Qed.

Lemma is_interesting_tail sha result w c :
  crashed result = false ->
  wp (let* fresh :=
        match truthy_coverage (coverage result) with
        | Some cov =>
            let coverage_hash := hash_coverage sha cov in
            let* s := get_self in
            match coverage_map s !! coverage_hash with
            | None => record_new_coverage coverage_hash >> ret true
            | Some _ => ret false
            end
        | None => ret false
        end in
      if fresh then ret true
      else if PyFloat.ltb PyFloat.lit_0_5 (execution_time result) then ret true
      else if (1000 <? String.length (stderr result))%nat then ret true
      else ret false)
     (oracle_verdict result w) (set_cursor c w).
Proof.
  intros Hc.
  assert (forall v : bool, wp (if v then ret true
                        else if PyFloat.ltb PyFloat.lit_0_5 (execution_time result) then ret true
                        else if (1000 <? String.length (stderr result))%nat then ret true
                        else ret false)
                      (oracle_verdict result w) (set_cursor c w)) as Hquiet.
  { intros v. destruct v; [apply wp_ret|destruct (PyFloat.ltb _ _); [apply wp_ret|]];
      [| |destruct (_ <? _)%nat; apply wp_ret];
      apply oracle_since_crash; auto using oracle_frame_cursor. }
  apply wp_bind.
  destruct (truthy_coverage (coverage result)) as [cov|]; [|apply wp_ret, (Hquiet false)].
  apply wp_bind. unfold get_self at 1. unfold wp at 1. simpl.
  destruct (coverage_map (self w) !! hash_coverage sha cov) eqn:Hseen; [apply wp_ret, (Hquiet false)|].
  apply wp_bind. unfold record_new_coverage, bind, get_self, put_self. unfold wp at 1. simpl.
  apply wp_ret, wp_ret. apply oracle_since_crash; [done|].
  split; [done|]. right. by exists (hash_coverage sha cov).
Qed.

Lemma is_interesting_verdict sha result w :
  wp (is_interesting sha result) (oracle_verdict result w) w.
Proof.
  unfold is_interesting. destruct (crashed result) eqn:Hc.
  { apply wp_ret. split; [apply oracle_frame_refl|done]. }
  apply wp_bind. destruct (timeout result).
  - apply wp_bind, wp_random. intros r. apply wp_ret.
    destruct (PyFloat.ltb r PyFloat.lit_0_1).
    + apply wp_ret. apply oracle_since_crash; auto using oracle_frame_cursor.
    + by apply is_interesting_tail.
  - apply wp_ret. rewrite <- (set_cursor_same w) at 2. by apply is_interesting_tail.
Qed.

(** X19: [is_interesting] never removes a hash from the coverage map, and
    the counter [coverage_increase] moves in step with the size of the map.
    Apart from these two and the position on the random tape the call
    changes nothing: not the crash signatures, not the other counters, not
    the heap or the files. *)
Theorem is_interesting_coverage_accounting :
  forall sha256_hexdigest result w,
    let w' := (is_interesting sha256_hexdigest result w).2 in
    coverage_map (self w) ⊆ coverage_map (self w')
    /\ coverage_increase (stats (self w')) - Z.of_nat (size (coverage_map (self w')))
       = coverage_increase (stats (self w)) - Z.of_nat (size (coverage_map (self w)))
    /\ w' = set_self (self w') (set_cursor (cursor w') w)
    /\ unique_crashes (self w') = unique_crashes (self w)
    /\ total_executions (stats (self w')) = total_executions (stats (self w))
    /\ crashes (stats (self w')) = crashes (stats (self w))
    /\ timeouts (stats (self w')) = timeouts (stats (self w))
    /\ interesting_inputs (stats (self w')) = interesting_inputs (stats (self w)).
Proof.
  intros sha result w w'.
  pose proof (is_interesting_verdict sha result w) as H. unfold wp in H. fold w' in H.
  destruct (is_interesting sha result w).1 as [v|e]; [|done].
  destruct H as [[E [Hs|(h & Hnew & Hs)]] _]; (split; [|split; [|split; [exact E|]]]);
    rewrite Hs; try done; simpl.
  - by apply insert_subseteq.
  - rewrite map_size_insert_None by done. lia.
Qed.

(** X20: once [is_interesting] has seen a coverage list on a result that
    neither crashed nor timed out, a later quiet result with the same ids in
    any order is not interesting, and the second call changes nothing.  If
    the hash was new, the first call answers [True] and records it. *)
Theorem new_coverage_is_reported_once :
  forall sha256_hexdigest r1 r2 c1 c2 w,
    crashed r1 = false -> timeout r1 = false ->
    coverage r1 = Some c1 -> c1 <> [] ->
    crashed r2 = false -> timeout r2 = false ->
    coverage r2 = Some c2 -> c1 ≡ₚ c2 ->
    PyFloat.leb (execution_time r2) PyFloat.lit_0_5 = true ->
    (String.length (stderr r2) <= 1000)%nat ->
    exists v w1,
      is_interesting sha256_hexdigest r1 w = (Ok v, w1)
      /\ (coverage_map (self w) !! hash_coverage sha256_hexdigest c1 = None ->
          v = true /\ self w1 = coverage_recorded (hash_coverage sha256_hexdigest c1) (self w))
      /\ is_interesting sha256_hexdigest r2 w1 = (Ok false, w1).
Proof.
  intros sha r1 r2 c1 c2 w Hc1 Ht1 Hcov1 Hne Hc2 Ht2 Hcov2 Hperm Htime Herr.
  assert (truthy_coverage (Some c1) = Some c1) as Htr1 by (by destruct c1).
  assert (truthy_coverage (Some c2) = Some c2) as Htr2.
  { destruct c2; [|done]. apply Permutation_nil_r in Hperm. done. }
  assert (hash_coverage sha c2 = hash_coverage sha c1) as Hhash.
  { unfold hash_coverage. by rewrite (sorted_Permutation c1 c2). }
  assert (forall w1, is_Some (coverage_map (self w1) !! hash_coverage sha c1) ->
            is_interesting sha r2 w1 = (Ok false, w1)) as Hsecond.
  { intros w1 [x Hx]. unfold is_interesting. rewrite Hc2, Ht2, Hcov2, Htr2.
    unfold bind, ret, get_self. simpl. rewrite Hhash, Hx.
    rewrite (leb_not_gt _ _ Htime).
    destruct (Nat.ltb_spec 1000 (String.length (stderr r2))); [lia|done]. }
  unfold is_interesting at 1. rewrite Hc1, Ht1, Hcov1, Htr1.
  unfold bind, ret, get_self, record_new_coverage, put_self. simpl.
  destruct (coverage_map (self w) !! hash_coverage sha c1) eqn:Hseen; simpl.
  - destruct (PyFloat.ltb _ _).
    + eexists _, _. split; [done|]. split; [done|]. apply Hsecond. by rewrite Hseen.
    + destruct (_ <? _)%nat; eexists _, _; (split; [done|]); (split; [done|]);
        apply Hsecond; by rewrite Hseen.
  - eexists _, _. split; [done|]. split; [done|]. apply Hsecond. simpl.
    rewrite lookup_insert_eq. eauto.
Qed.

(** ** One fuzzing iteration *)

(** X21: when [fuzz_iteration] returns, the result's ['input'] is the new
    dict made by [mutate_input], which shares the seed's lists; the seed
    dict has the bindings it had; ['interesting'] is set, and it is [True]
    for every crash; the execution counter has gone up by one; the
    temporary input file is gone and no other path has changed. *)
Theorem fuzz_iteration_result :
  forall sha256_hexdigest int_of_str seed d w r w',
    heap w !! seed = Some (ODict d) ->
    fuzz_iteration sha256_hexdigest int_of_str seed w = (Ok r, w') ->
    let tmp := fuzz_input_path (pid w) in
    input r = Some (length (heap w))
    /\ heap w' !! seed = Some (ODict d)
    /\ (exists d', heap w' !! length (heap w) = Some (ODict d')
                   /\ position d' = position d /\ rotation d' = rotation d)
    /\ (exists v, interesting r = Some v /\ (crashed r = true -> v = true))
    /\ total_executions (stats (self w')) = total_executions (stats (self w)) + 1
    /\ fs w' !! tmp = None
    /\ (forall q, q <> tmp -> fs w' !! q = fs w !! q).
Proof.
  intros sha int seed d w r w' Hd Hrun tmp.
  unfold fuzz_iteration in Hrun. unfold bind at 1 in Hrun.
  pose proof (mutate_input_in_place seed d w Hd) as Hm. unfold wp in Hm.
  destruct (mutate_input seed w) as [[l|e] w1]; [|done]. simpl in Hm.
  apply (in_place_copied seed) in Hm as (E1 & L1 & O1 & D1 & R1); [|done].
  rewrite (R1 l eq_refl) in Hrun. clear R1 l.
  unfold bind at 1 in Hrun.
  pose proof (execute_target_accounted int (length (heap w)) w1) as Hx. unfold wp in Hx.
  destruct (execute_target int (length (heap w)) w1) as [[x|e] w2]; [|done].
  simpl in Hx. destruct Hx as (H2 & F2 & S2 & T2 & _).
  unfold bind at 1 in Hrun.
  match type of Hrun with
  | context [is_interesting sha ?res w2] =>
      pose proof (is_interesting_verdict sha res w2) as Hi; unfold wp in Hi;
      destruct (is_interesting sha res w2) as [[v|e] w3]; [|done]
  end.
  simpl in Hi. destruct Hi as [[E3 S3] Hv].
  injection Hrun as <- <-. simpl.
  assert (pid w1 = pid w) as Hpid by (by rewrite E1).
  assert (fs w1 = fs w) as Hfs1 by (by rewrite E1).
  assert (self w1 = self w) as Hself1 by (by rewrite E1).
  assert (heap w3 = heap w1) as Hheap by (by rewrite E3).
  assert (fs w3 = fs w2) as Hfs3 by (by rewrite E3).
  split; [done|]. split; [rewrite Hheap; by apply O1|].
  split; [by rewrite Hheap|]. split; [by exists v|].
  split.
  { destruct S3 as [->|(h & _ & ->)]; rewrite S2, Hself1; done. }
  unfold tmp. rewrite Hfs3, <- Hpid. split; [done|].
  intros q Hq. rewrite F2 by done. by rewrite Hfs1.
Qed.

(** ** Counting results *)

Lemma tally_refl w : tally 0 0 0 w w.
Proof.
  split; [done|]. split; [done|]. split; [done|]. split; [done|].
  destruct (stats (self w)); simpl. f_equal; lia.
Qed.

Lemma tally_trans c1 t1 i1 c2 t2 i2 w1 w2 w3 :
  tally c1 t1 i1 w1 w2 -> tally c2 t2 i2 w2 w3 ->
  tally (c1 + c2) (t1 + t2) (i1 + i2) w1 w3.
Proof.
  intros (H1 & C1 & M1 & U1 & S1) (H2 & C2 & M2 & U2 & S2).
  split; [congruence|]. split; [congruence|]. split; [congruence|].
  split; [set_solver|]. rewrite S2, S1. simpl. f_equal; lia.
Qed.

Lemma tally_zero_trans w1 w2 w3 : tally 0 0 0 w1 w2 -> tally 0 0 0 w2 w3 -> tally 0 0 0 w1 w3.
Proof. apply (tally_trans 0 0 0 0 0 0). Qed.

Lemma tally_same_self w w' :
  heap w' = heap w -> cursor w' = cursor w -> self w' = self w -> tally 0 0 0 w w'.
Proof.
  intros Hh Hc Hs. split; [done|]. split; [done|]. rewrite Hs.
  split; [done|]. split; [done|]. destruct (stats (self w)); simpl. f_equal; lia.
Qed.

Lemma fs_only_at_tally path w w' : fs_only_at path w w' -> tally 0 0 0 w w'.
Proof. intros (E & _ & _). rewrite E. by apply tally_same_self. Qed.

Lemma write_input_file_tally path l : keeps (tally 0 0 0) (write_input_file path l).
Proof.
  eapply keeps_weaken; [apply (fs_only_at_tally path)|].
  intros w. apply write_input_file_frame.
Qed.

Lemma write_text_tally path text : keeps (tally 0 0 0) (write_text path text).
Proof.
  eapply keeps_weaken; [apply (fs_only_at_tally path)|].
  intros w. unfold write_text. apply frame_bind; [apply open_wb_frame|].
  intros _ w'. apply file_write_frame.
Qed.

Lemma os_chmod_tally path mode : keeps (tally 0 0 0) (os_chmod path mode).
Proof.
  intros w. unfold wp, os_chmod.
  destruct (fs w !! path) as [[|m c]|]; simpl; by apply tally_same_self.
Qed.

Lemma mkdir_tally path : keeps (tally 0 0 0) (mkdir_exist_ok path).
Proof.
  intros w. unfold wp, mkdir_exist_ok.
  destruct (fs w !! path) as [[|m c]|]; simpl; by apply tally_same_self.
Qed.

Lemma datetime_tally : keeps (tally 0 0 0) datetime_now_isoformat.
Proof. intros w. by apply tally_same_self. Qed.

Lemma time_tally : keeps (tally 0 0 0) time_time.
Proof. intros w. by apply tally_same_self. Qed.

Lemma require_tally {A} (field : option A) : keeps (tally 0 0 0) (require field).
Proof. apply keeps_pure; [apply tally_refl|]. intros w. by destruct field. Qed.

Lemma int_of_float_tally x : keeps (tally 0 0 0) (int_of_float x).
Proof.
  apply keeps_pure; [apply tally_refl|]. intros w. unfold int_of_float.
  by destruct (PyFloat.to_Z x).
Qed.

Lemma get_self_tally : keeps (tally 0 0 0) get_self.
Proof. apply keeps_pure; [apply tally_refl|done]. Qed.

Ltac tally_tac :=
  repeat first
    [ apply require_tally | apply get_self_tally | apply datetime_tally | apply time_tally
    | apply int_of_float_tally | apply mkdir_tally
    | apply write_input_file_tally | apply write_text_tally | apply os_chmod_tally
    | apply (keeps_bind (tally 0 0 0)); [exact tally_zero_trans| |intros ?] ].

Lemma save_interesting_input_tally result : keeps (tally 0 0 0) (save_interesting_input result).
Proof. unfold save_interesting_input. tally_tac. Qed.

Lemma save_crash_tally sha json result : keeps (tally 0 0 0) (save_crash sha json result).
Proof.
  intros w. unfold save_crash.
  destruct (signal result) as [sg|]; [|apply tally_refl].
  apply wp_bind, wp_ret.
  apply wp_bind. unfold get_self at 1. unfold wp at 1. simpl.
  destruct (decide _) as [Hin|Hnew]; [apply wp_ret, tally_refl|].
  apply wp_bind. unfold put_self at 1. unfold wp at 1. simpl.
  match goal with
  | |- wp ?m _ ?w1 =>
      assert (keeps (tally 0 0 0) m) as Htail by tally_tac;
      assert (tally 0 0 0 w w1) as Hfirst
  end.
  { split; [done|]. split; [done|]. split; [done|]. split; [simpl; set_solver|].
    simpl. destruct (stats (self w)); simpl. f_equal; lia. }
  eapply wp_mono; [apply Htail|]. intros r w'. simpl. by apply tally_zero_trans.
Qed.

Lemma update_stats_run f w :
  update_stats f w = (Ok tt, set_self (set_stats (f (stats (self w))) (self w)) w).
Proof. done. Qed.

Lemma bump_crashes_tally w :
  tally 1 0 0 w (set_self (set_stats (bump_crashes (stats (self w))) (self w)) w).
Proof.
  split; [done|]. split; [done|]. split; [done|]. split; [done|].
  simpl. unfold bump_crashes. f_equal; lia.
Qed.

Lemma bump_timeouts_tally w :
  tally 0 1 0 w (set_self (set_stats (bump_timeouts (stats (self w))) (self w)) w).
Proof.
  split; [done|]. split; [done|]. split; [done|]. split; [done|].
  simpl. unfold bump_timeouts. f_equal; lia.
Qed.

Lemma bump_interesting_tally w :
  tally 0 0 1 w (set_self (set_stats (bump_interesting_inputs (stats (self w))) (self w)) w).
Proof.
  split; [done|]. split; [done|]. split; [done|]. split; [done|].
  simpl. unfold bump_interesting_inputs. f_equal; lia.
Qed.

Lemma process_result_counted sha json result w :
  wp (process_result sha json result) (counted_flags result w) w.
Proof.
  unfold process_result. apply wp_bind.
  apply (wp_mono _ (fun _ w1 => tally (Z_of_flag (crashed result)) 0 0 w w1)).
  { destruct (crashed result).
    - apply wp_bind. unfold wp at 1. rewrite update_stats_run. simpl.
      eapply wp_mono; [apply save_crash_tally|]. intros r w1 H. simpl in H.
      apply (tally_trans 1 0 0 0 0 0 _ _ _ (bump_crashes_tally w) H).
    - apply wp_ret, tally_refl. }
  intros [[]|e] w1 H1.
  2:{ exists 0, 0. split; [done|]. split; [by left|]. split; [by left|]. done. }
  apply wp_bind.
  apply (wp_mono _ (returns (fun _ w2 => tally 0 (Z_of_flag (timeout result)) 0 w1 w2))).
  { destruct (timeout result).
    - unfold wp. rewrite update_stats_run. simpl. apply bump_timeouts_tally.
    - apply wp_ret, tally_refl. }
  intros [[]|e] w2; unfold returns; [|done]. intros H2.
  pose proof (tally_trans _ _ _ _ _ _ _ _ _ H1 H2) as H12.
  rewrite !Z.add_0_l, !Z.add_0_r in H12.
  apply wp_bind. destruct (interesting result) as [flag|] eqn:Hflag.
  2:{ exists (Z_of_flag (timeout result)), 0.
      split; [done|]. split; [by right|]. split; [by left|]. done. }
  apply wp_ret. destruct flag.
  - apply wp_bind. unfold wp at 1. rewrite update_stats_run. simpl.
    eapply wp_mono; [apply save_interesting_input_tally|]. intros r w3 H3. simpl in H3.
    pose proof (tally_trans _ _ _ _ _ _ _ _ _ (bump_interesting_tally w2) H3) as H23.
    pose proof (tally_trans _ _ _ _ _ _ _ _ _ H12 H23) as H.
    rewrite !Z.add_0_l, !Z.add_0_r in H.
    exists (Z_of_flag (timeout result)), 1.
    split; [done|]. split; [by right|]. split; [by right|].
    intros _. split; [done|]. by exists true.
  - apply wp_ret. exists (Z_of_flag (timeout result)), 0.
    split; [done|]. split; [by right|]. split; [by left|].
    intros _. split; [done|]. by exists false.
Qed.

(** X22: [process_result] counts a crash exactly once, also when the
    crash is a duplicate or when saving it fails.  When the call returns,
    the timeout and interesting counters have gone up by one for each flag
    that is set; when it raises, each of them has gone up by at most one.
    The execution counter, the coverage data, the heap and the random tape
    are untouched, and crash signatures are only added. *)
Theorem process_result_counters :
  forall sha256_hexdigest json_dump result w,
    let res := (process_result sha256_hexdigest json_dump result w).1 in
    let w' := (process_result sha256_hexdigest json_dump result w).2 in
    exists t i,
      tally (Z_of_flag (crashed result)) t i w w'
      /\ (t = 0 \/ t = Z_of_flag (timeout result))
      /\ (i = 0 \/ interesting result = Some true /\ i = 1)
      /\ (res = Ok tt ->
          t = Z_of_flag (timeout result)
          /\ exists flag, interesting result = Some flag /\ i = Z_of_flag flag).
Proof. intros. apply process_result_counted. Qed.

(** ** The crash directory *)

Lemma string_length_app (a b : string) :
  String.length (a ++ b) = (String.length a + String.length b)%nat.
Proof. induction a as [|c a IH]; simpl; [done|]. by rewrite IH. Qed.

Lemma path_join_ne_dir dir name : path_join dir name <> dir.
Proof.
  intros E. apply (f_equal String.length) in E. unfold path_join in E.
  rewrite !string_length_app in E. simpl in E. lia.
Qed.

Lemma path_join_inj dir a b : path_join dir a = path_join dir b -> a = b.
Proof.
  unfold path_join. intros E. apply (inj (String.app dir)) in E. by injection E.
Qed.

Lemma write_text_run path text w :
  fs w !! path <> Some Dir ->
  write_text path text w = (Ok tt, written path (encode_text text) w).
Proof.
  intros H. unfold write_text. unfold bind. rewrite open_wb_run by done.
  apply (file_write_written path _ []).
Qed.

Lemma written_fresh path b w :
  fs w !! path = None -> written path b w = set_fs (<[path := File default_mode b]> (fs w)) w.
Proof. intros H. unfold written, file_mode. by rewrite H. Qed.

(** X23: a crash with a new signature, saved where no path under its
    directory is in use: [save_crash] returns, the signature is recorded,
    and the file system gains exactly the crash directory, [input.bin] with
    the encoded input, [metadata.json] with the dumped metadata, and the
    executable [reproduce.sh]. *)
Theorem save_crash_layout :
  forall sha256_hexdigest json_dump result sg inp d b w,
    signal result = Some sg ->
    input result = Some inp ->
    heap w !! inp = Some (ODict d) ->
    encode_input (heap w) d = Some b ->
    let crash_id := crash_signature sha256_hexdigest sg (stderr result) in
    let crash_dir := path_join (crashes_dir (self w)) crash_id in
    crash_id ∉ unique_crashes (self w) ->
    (forall m c, fs w !! crash_dir <> Some (File m c)) ->
    (forall name, fs w !! path_join crash_dir name = None) ->
    exists w',
      save_crash sha256_hexdigest json_dump result w = (Ok tt, w')
      /\ fs w' = crash_files (fs w) crash_dir b
                   (json_dump (crash_metadata result sg (isoclock w (tick w))))
                   (reproduce_script sg (target_binary (self w)))
      /\ self w' = crash_reserved crash_id (self w)
      /\ heap w' = heap w
      /\ tick w' = S (tick w).
Proof.
  intros sha json result sg inp d b w Hsig Hinp Hd Henc crash_id crash_dir Hnew Hdir Hfree.
  unfold save_crash. rewrite Hsig, Hinp.
  unfold bind at 1. unfold require at 1, ret at 1. fold crash_id.
  unfold bind at 1. unfold get_self at 1.
  destruct (decide (crash_id ∈ unique_crashes (self w))); [done|].
  unfold bind at 1. unfold put_self at 1.
  unfold bind at 1. unfold get_self at 1.
  set (w0 := set_self _ w). change (crashes_dir (self w0)) with (crashes_dir (self w)).
  fold crash_dir.
  set (w1 := set_fs (<[crash_dir := Dir]> (fs w)) w0).
  unfold bind at 1.
  assert (mkdir_exist_ok crash_dir w0 = (Ok tt, w1)) as ->.
  { unfold mkdir_exist_ok, w1. change (fs w0) with (fs w).
    destruct (fs w !! crash_dir) as [[|m c]|] eqn:E.
    - rewrite insert_id by done. by rewrite <- (set_fs_same w0) at 1.
    - by destruct (Hdir m c).
    - done. }
  unfold bind at 1. unfold require at 1, ret at 1.
  assert (forall name, fs w1 !! path_join crash_dir name = None) as Hfree1.
  { intros name. unfold w1. simpl. rewrite lookup_insert_ne; [done|].
    intros E. symmetry in E. by apply path_join_ne_dir in E. }
  unfold bind at 1.
  rewrite (write_input_file_run _ inp d b w1); [|done|done|by rewrite Hfree1].
  rewrite written_fresh by done.
  set (w2 := set_fs _ w1).
  unfold bind at 1. unfold datetime_now_isoformat at 1.
  set (w3 := set_tick _ w2).
  change (isoclock w2 (tick w2)) with (isoclock w (tick w)).
  change (default 0 (Some sg)) with sg.
  fold (crash_metadata result sg (isoclock w (tick w))).
  assert (fs w3 !! path_join crash_dir "metadata.json" = None) as Hmeta.
  { unfold w3, w2. simpl. rewrite !lookup_insert_ne; [apply Hfree|..];
      intros E; first [by apply path_join_inj in E
                      |symmetry in E; by apply path_join_ne_dir in E]. }
  unfold bind at 1. rewrite write_text_run by (by rewrite Hmeta).
  rewrite written_fresh by done.
  set (w4 := set_fs _ w3).
  assert (fs w4 !! path_join crash_dir "reproduce.sh" = None) as Hscript.
  { unfold w4, w3, w2. simpl. rewrite !lookup_insert_ne; [apply Hfree|..];
      intros E; first [by apply path_join_inj in E
                      |symmetry in E; by apply path_join_ne_dir in E]. }
  change (target_binary (self w0)) with (target_binary (self w)).
  fold (reproduce_script sg (target_binary (self w))).
  unfold bind at 1. rewrite write_text_run by (by rewrite Hscript).
  rewrite written_fresh by done.
  unfold os_chmod. simpl. rewrite lookup_insert_eq.
  eexists. split; [done|]. simpl. rewrite insert_insert_eq. done.
Qed.

(** ** Coverage lines *)

Lemma string_all_impl (P Q : ascii -> Prop) s :
  (forall a, P a -> Q a) -> string_all P s -> string_all Q s.
Proof. intros H. induction s as [|a s IH]; simpl; [done|]. intros [? ?]. auto. Qed.

Lemma string_all_app (P : ascii -> Prop) s1 s2 :
  string_all P s1 -> string_all P s2 -> string_all P (s1 ++ s2).
Proof. induction s1 as [|a s1 IH]; simpl; [done|]. intros [? ?] ?. auto. Qed.

Lemma string_all_free c s : string_all (fun a => a <> c) s <-> free_of c s.
Proof. induction s as [|a s IH]; simpl; [done|]. by rewrite IH. Qed.

Lemma pretty_N_char_numeral (d : N) : numeral_char (pretty_N_char d) = true.
Proof. unfold pretty_N_char. by repeat case_match. Qed.

Lemma pretty_N_go_numeral (x : N) (s : string) : numeral s -> numeral (pretty_N_go x s).
Proof.
  revert s. induction (N.lt_wf_0 x) as [x _ IH]; intros s Hs.
  assert (x = 0 \/ 0 < x)%N as [->|Hx] by lia.
  - by rewrite pretty_N_go_0.
  - rewrite pretty_N_go_step by done. apply IH; [by apply N.div_lt|].
    split; [apply pretty_N_char_numeral|done].
Qed.

Lemma str_of_int_numeral (n : Z) : numeral (str_of_int n).
Proof.
  unfold str_of_int, pretty, pretty_Z, pretty, pretty_positive, pretty, pretty_N.
  destruct n as [|p|p].
  - by compute.
  - case_decide; [done|]. by apply pretty_N_go_numeral.
  - split; [done|]. case_decide; [done|]. by apply pretty_N_go_numeral.
Qed.

Lemma pretty_N_go_length (x : N) (s : string) :
  (String.length s <= String.length (pretty_N_go x s))%nat.
Proof.
  revert s. induction (N.lt_wf_0 x) as [x _ IH]; intros s.
  assert (x = 0 \/ 0 < x)%N as [->|Hx] by lia.
  - by rewrite pretty_N_go_0.
  - rewrite pretty_N_go_step by done.
    etrans; [|apply IH; by apply N.div_lt]. simpl. lia.
Qed.

Lemma str_of_int_nonempty (n : Z) : str_of_int n <> EmptyString.
Proof.
  assert (forall p, pretty_N_go (N.pos p) "" <> EmptyString) as Hpos.
  { intros p E. rewrite pretty_N_go_step in E by done.
    pose proof (pretty_N_go_length (N.pos p `div` 10)
                  (String (pretty_N_char (N.pos p `mod` 10)) "")) as H.
    rewrite E in H. simpl in H. lia. }
  unfold str_of_int, pretty, pretty_Z, pretty, pretty_positive, pretty, pretty_N.
  destruct n as [|p|p]; [done| |done].
  case_decide; [done|]. apply Hpos.
Qed.

Lemma numeral_free (c : ascii) (s : string) :
  numeral_char c = false -> numeral s -> free_of c s.
Proof.
  intros Hc Hs. apply string_all_free. eapply string_all_impl; [|exact Hs].
  simpl. intros a Ha ->. congruence.
Qed.

Lemma numeral_not_whitespace (a : ascii) : numeral_char a = true -> is_whitespace a = false.
Proof.
  unfold numeral_char, is_whitespace. set (n := nat_of_ascii a).
  destruct (Nat.eqb_spec n 45), (Nat.leb_spec 48 n), (Nat.leb_spec n 57),
    (Nat.leb_spec 9 n), (Nat.leb_spec n 13), (Nat.leb_spec 28 n), (Nat.leb_spec n 32),
    (Nat.eqb_spec n 133), (Nat.eqb_spec n 160); simpl; try done; lia.
Qed.

(** *** [split], [strip] and [join] *)

Lemma split_on_free sep s : free_of sep s -> split_on sep s = [s].
Proof.
  induction s as [|c s IH]; simpl; [done|]. intros [Hc Hs].
  destruct (Ascii.eqb_spec c sep); [done|]. by rewrite IH.
Qed.

Lemma split_on_app sep a b :
  free_of sep a -> split_on sep (a ++ String sep b) = a :: split_on sep b.
Proof.
  induction a as [|c a IH]; simpl.
  - intros _. by rewrite Ascii.eqb_refl.
  - intros [Hc Ha]. destruct (Ascii.eqb_spec c sep); [done|]. by rewrite IH.
Qed.

Lemma concat_cons_cons sep x y ys :
  String.concat (String sep "") (x :: y :: ys)
  = (x ++ String sep (String.concat (String sep "") (y :: ys)))%string.
Proof. done. Qed.

Lemma split_on_concat sep l ls :
  Forall (free_of sep) (l :: ls) ->
  split_on sep (String.concat (String sep "") (l :: ls)) = l :: ls.
Proof.
  revert l. induction ls as [|y ys IH]; intros l Hall.
  - apply split_on_free. by apply Forall_inv in Hall.
  - rewrite concat_cons_cons. apply Forall_cons in Hall as [Hl Hrest].
    rewrite split_on_app by done. by rewrite IH.
Qed.

Lemma string_all_list (P : ascii -> Prop) s :
  string_all P s <-> Forall P (list_ascii_of_string s).
Proof.
  induction s as [|a s IH]; simpl; [by split; [constructor|]|].
  rewrite Forall_cons. by rewrite IH.
Qed.

Lemma string_all_rev (P : ascii -> Prop) s : string_all P s -> string_all P (string_rev s).
Proof.
  rewrite !string_all_list. unfold string_rev.
  rewrite list_ascii_of_string_of_list_ascii. intros H.
  apply Forall_forall. intros a Ha. apply list_elem_of_In, in_rev, list_elem_of_In in Ha.
  by eapply Forall_forall in H.
Qed.

Lemma string_rev_involutive s : string_rev (string_rev s) = s.
Proof.
  unfold string_rev. rewrite list_ascii_of_string_of_list_ascii, rev_involutive.
  apply string_of_list_ascii_of_string.
Qed.

Lemma lstrip_id s : string_all (fun a => is_whitespace a = false) s -> lstrip s = s.
Proof. destruct s as [|a s]; simpl; [done|]. by intros [-> _]. Qed.

Lemma strip_id s : string_all (fun a => is_whitespace a = false) s -> strip s = s.
Proof.
  intros H. unfold strip. rewrite (lstrip_id s) by done.
  rewrite lstrip_id by (by apply string_all_rev). apply string_rev_involutive.
Qed.

Lemma string_all_concat (P : ascii -> Prop) sep ls :
  P sep -> Forall (string_all P) ls -> string_all P (String.concat (String sep "") ls).
Proof.
  intros Hsep. induction ls as [|x [|y ys] IH]; intros Hall.
  - done.
  - by apply Forall_inv in Hall.
  - rewrite concat_cons_cons. apply Forall_cons in Hall as [Hx Hrest].
    apply string_all_app; [done|]. split; [done|]. by apply IH.
Qed.

Lemma numerals_joined (P : ascii -> Prop) ids :
  P ","%char -> (forall a, numeral_char a = true -> P a) ->
  string_all P (String.concat "," (map str_of_int ids)).
Proof.
  intros Hsep HP. apply (string_all_concat P ","); [done|].
  apply Forall_forall. intros s Hs. apply list_elem_of_In, in_map_iff in Hs as (n & <- & _).
  eapply string_all_impl; [exact HP|]. apply str_of_int_numeral.
Qed.

Section ExtractCoverage.

Variable int_of_str : string -> option Z.

Lemma extend_ints_printed acc ids :
  Forall (fun n => int_of_str (str_of_int n) = Some n) ids ->
  extend_ints int_of_str acc (map str_of_int ids) = acc ++ ids.
Proof.
  revert acc. induction ids as [|n ids IH]; intros acc Hall; simpl.
  - by rewrite app_nil_r.
  - apply Forall_cons in Hall as [Hn Hrest].
    destruct (String.eqb_spec (str_of_int n) "") as [E|_]; [by apply str_of_int_nonempty in E|].
    rewrite Hn, IH by done. by rewrite <- app_assoc.
Qed.

Lemma coverage_step_line acc l :
  plain_text l ->
  Forall (fun n => int_of_str (str_of_int n) = Some n) (line_ids l) ->
  coverage_step int_of_str acc (render_line l) = acc ++ line_ids l.
Proof.
  intros Hplain Hints. unfold coverage_step.
  destruct l as [s|ids]; unfold render_line, line_ids, plain_text in *.
  - destruct Hplain as [_ ->]. by rewrite app_nil_r.
  - set (joined := String.concat "," (map str_of_int ids)).
    change ("COV:" ++ joined)%string with ("COV" ++ String ":" joined)%string.
    rewrite split_on_app by (by compute).
    rewrite split_on_free.
    2:{ apply string_all_free. apply numerals_joined; [done|].
        intros a Ha ->. done. }
    assert (String.prefix "COV:" ("COV" ++ String ":" joined)%string = true) as E
      by (by destruct joined).
    rewrite E. clear E.
    rewrite strip_id by (apply numerals_joined; [done|apply numeral_not_whitespace]).
    destruct ids as [|n ids]; [by rewrite app_nil_r|].
    assert (Forall (free_of ",") (map str_of_int (n :: ids))) as Hfree.
    { apply Forall_forall. intros s Hs.
      apply list_elem_of_In, in_map_iff in Hs as (k & <- & _).
      apply numeral_free; [done|apply str_of_int_numeral]. }
    unfold joined. change ","%string with (String "," ""). simpl map.
    rewrite (split_on_concat "," (str_of_int n) (map str_of_int ids) Hfree).
    by apply (extend_ints_printed acc (n :: ids)).
Qed.

Lemma coverage_fold ls acc :
  Forall plain_text ls ->
  Forall (fun n => int_of_str (str_of_int n) = Some n) (concat (map line_ids ls)) ->
  fold_left (coverage_step int_of_str) (map render_line ls) acc
  = acc ++ concat (map line_ids ls).
Proof.
  revert acc. induction ls as [|l ls IH]; intros acc Hplain Hints; simpl.
  - by rewrite app_nil_r.
  - apply Forall_cons in Hplain as [Hl Hplain]. simpl in Hints.
    apply Forall_app in Hints as [Hl_ints Hints].
    rewrite coverage_step_line, IH by done. by rewrite <- app_assoc.
Qed.

Lemma render_line_free l : plain_text l -> free_of (ascii_of_nat 10) (render_line l).
Proof.
  destruct l as [s|ids]; simpl; [by intros [? _]|]. intros _.
  split; [done|]. split; [done|]. split; [done|]. split; [done|].
  apply string_all_free. apply numerals_joined; [done|]. intros a Ha ->. done.
Qed.

End ExtractCoverage.

(** X17: for an output made of lines that are either text without the
    prefix [COV:] or coverage lines [COV:n1,n2,...], [extract_coverage]
    returns the ids of all coverage lines, in order, or [None] when there is
    none.  The built-in [int] is only asked to read back decimal numerals. *)
Theorem extract_coverage_reads_cov_lines :
  forall int_of_str ls,
    Forall plain_text ls ->
    Forall (fun n => int_of_str (str_of_int n) = Some n) (concat (map line_ids ls)) ->
    extract_coverage int_of_str (render ls)
    = match concat (map line_ids ls) with
      | [] => None
      | ids => Some ids
      end.
Proof.
  intros int ls Hplain Hints. unfold extract_coverage.
  change (fold_left _ ?lines []) with (fold_left (coverage_step int) lines []).
  assert (fold_left (coverage_step int) (split_on (ascii_of_nat 10) (render ls)) []
          = concat (map line_ids ls)) as ->; [|by destruct (concat _)].
  destruct ls as [|l ls]; [reflexivity|].
  unfold render, nl. simpl map.
  rewrite split_on_concat.
  - change (render_line l :: map render_line ls) with (map render_line (l :: ls)).
    by rewrite coverage_fold.
  - change (render_line l :: map render_line ls) with (map render_line (l :: ls)).
    apply Forall_forall. intros s Hs.
    apply list_elem_of_In, in_map_iff in Hs as (k & <- & Hk).
    apply render_line_free. eapply Forall_forall in Hplain; [done|]. by apply list_elem_of_In.
Qed.

(** ** Loading the corpus *)

Lemma read_input_file_readable path mode data w :
  fs w !! path = Some (File mode data) ->
  exists l new,
    read_input_file path w = (Ok l, set_heap (heap w ++ new) w)
    /\ holds_payload (heap w ++ new) l data.
Proof.
  intros Hf. destruct (Z.lt_ge_cases (len data) 32) as [Hlen|Hlen].
  - eexists _, _. split; [by eapply read_input_file_short|].
    exists (raw_input data). split; [|reflexivity].
    rewrite lookup_app_r by lia. by rewrite Nat.sub_diag.
  - eexists _, _. split; [by eapply read_input_file_long|].
    eexists. split; [rewrite lookup_app_r by lia;
     replace (S (S (length (heap w))) - length (heap w))%nat with 2%nat by lia;
     reflexivity|reflexivity].
Qed.

Lemma read_input_file_unreadable path w :
  (forall mode data, fs w !! path <> Some (File mode data)) ->
  exists e, read_input_file path w = (Raise e, w).
Proof.
  intros Hf. unfold read_input_file, bind, read_rb.
  destruct (fs w !! path) as [[|mode data]|] eqn:E; eauto. by destruct (Hf mode data).
Qed.

Lemma holds_payload_app h new l c : holds_payload h l c -> holds_payload (h ++ new) l c.
Proof.
  intros (d & Hl & Hb). exists d. split; [|done].
  rewrite lookup_app_l; [done|]. by eapply lookup_lt_Some.
Qed.

Lemma readable_contents_file f p ps m c :
  f !! p = Some (File m c) -> readable_contents f (p :: ps) = c :: readable_contents f ps.
Proof. intros E. unfold readable_contents. simpl. by rewrite E. Qed.

Lemma readable_contents_skip f p ps :
  (forall m c, f !! p <> Some (File m c)) ->
  readable_contents f (p :: ps) = readable_contents f ps.
Proof.
  intros H. unfold readable_contents. simpl.
  destruct (f !! p) as [[|m c]|] eqn:E; try done. by destruct (H m c).
Qed.

Lemma load_files_spec listing corpus contents w :
  Forall2 (holds_payload (heap w)) corpus contents ->
  exists corpus' new,
    load_files listing corpus w = (Ok corpus', set_heap (heap w ++ new) w)
    /\ Forall2 (holds_payload (heap w ++ new)) corpus'
         (contents ++ readable_contents (fs w) listing).
Proof.
  revert corpus contents w. induction listing as [|path rest IH]; intros corpus contents w Hc.
  - exists corpus, []. simpl. rewrite !app_nil_r. split; [|done].
    unfold ret. f_equal. by destruct w.
  - cbn [load_files]. unfold bind at 1. unfold try_except.
    assert ((exists mode data, fs w !! path = Some (File mode data))
            \/ forall mode data, fs w !! path <> Some (File mode data))
      as [(mode & data & E)|Hno'].
    { destruct (fs w !! path) as [[|mode data]|]; eauto. }
    + destruct (read_input_file_readable path mode data w E) as (l & new & Hrun & Hl).
      unfold bind at 1. rewrite Hrun. unfold ret at 1.
      rewrite (readable_contents_file _ _ _ _ _ E).
      set (w1 := set_heap (heap w ++ new) w).
      destruct (IH (corpus ++ [l]) (contents ++ [data]) w1) as (corpus' & new' & Hrest & Hall).
      { apply Forall2_app; [|by repeat constructor].
        eapply Forall2_impl; [exact Hc|]. intros. by apply holds_payload_app. }
      exists corpus', (new ++ new'). rewrite Hrest. unfold w1 in *. simpl in *.
      rewrite <- !app_assoc in Hall. split; [|exact Hall].
      f_equal. unfold set_heap. simpl. by rewrite <- app_assoc.
    + destruct (read_input_file_unreadable path w Hno') as [e He].
      unfold bind at 1. rewrite He. unfold ret at 1.
      rewrite readable_contents_skip by done. by apply IH.
Qed.

(** X24: [load_corpus] never raises.  It returns one input per path of
    the listing that is a regular file, in listing order, each carrying the
    content of its file; a path that cannot be read is skipped.  Only new
    objects are added to the heap. *)
Theorem load_corpus_skips_unreadable :
  forall listing w,
    exists corpus new,
      load_corpus listing w = (Ok corpus, set_heap (heap w ++ new) w)
      /\ Forall2 (holds_payload (heap w ++ new)) corpus (readable_contents (fs w) listing).
Proof.
  intros listing w. apply (load_files_spec listing [] [] w). constructor.
Qed.

(** ** Values that binary32 holds exactly *)

Lemma shr_iter_xO (k m : positive) :
  SpecFloat.iter_pos shr_1 k
    {| shr_m := Z.pos (Pos.iter xO m k); shr_r := false; shr_s := false |}
  = {| shr_m := Z.pos m; shr_r := false; shr_s := false |}.
Proof.
  revert m. induction k as [k IH|k IH|]; intros m; simpl.
  - by rewrite !IH.
  - by rewrite !IH.
  - done.
Qed.

Section ExactRounding.

Variables prec emax : Z.

Let fexp := SpecFloat.fexp prec emax.

(** A mantissa that already fits the format is left alone. *)
Lemma binary_round_aux_exact s (m : positive) e :
  bounded prec emax m e = true ->
  binary_round_aux prec emax s (Z.pos m) e loc_Exact = S754_finite s m e.
Proof.
  unfold bounded, canonical_mantissa. intros H.
  apply andb_true_iff in H as [Hc He]. apply Z.eqb_eq in Hc.
  unfold binary_round_aux, shr_fexp. simpl Zdigits2. rewrite Hc, Z.sub_diag. simpl.
  rewrite Hc, Z.sub_diag. simpl. by rewrite He.
Qed.

(** Trailing zero bits are shifted out without loss. *)
Lemma binary_round_shifted s (m k : positive) e :
  bounded prec emax m e = true ->
  binary_round prec emax s (Pos.iter xO m k) (e - Z.pos k) = S754_finite s m e.
Proof.
  intros Hb. pose proof Hb as Hb'. unfold bounded, canonical_mantissa in Hb'.
  apply andb_true_iff in Hb' as [Hc He]. apply Z.eqb_eq in Hc.
  assert (Z.pos (digits2_pos (Pos.iter xO m k)) + (e - Z.pos k) = Z.pos (digits2_pos m) + e)
    as Hd by (rewrite digits2_pos_iter_xO; lia).
  unfold binary_round, shl_align. rewrite Hd, Hc.
  replace (e - (e - Z.pos k)) with (Z.pos k) by lia.
  unfold binary_round_aux, shr_fexp. simpl Zdigits2. rewrite Hd, Hc.
  replace (e - (e - Z.pos k)) with (Z.pos k) by lia.
  simpl shr_record_of_loc. unfold shr. rewrite shr_iter_xO. simpl.
  replace (e - Z.pos k + Z.pos k) with e by lia.
  rewrite Hc, Z.sub_diag. simpl. by rewrite He.
Qed.

(** A short mantissa is padded with zero bits up to the precision. *)
Lemma binary_round_padded s (m k : positive) e :
  Z.pos (digits2_pos m) + Z.pos k = prec ->
  SpecFloat.emin prec emax <= e - Z.pos k ->
  e - Z.pos k <= emax - prec ->
  binary_round prec emax s m e = S754_finite s (Pos.iter xO m k) (e - Z.pos k).
Proof.
  intros Hk Hmin Hmax.
  assert (SpecFloat.fexp prec emax (Z.pos (digits2_pos m) + e) = e - Z.pos k) as Hf
    by (unfold SpecFloat.fexp; lia).
  unfold binary_round, shl_align. rewrite Hf.
  replace (e - Z.pos k - e) with (Z.neg k) by lia.
  apply binary_round_aux_exact. unfold bounded, canonical_mantissa.
  rewrite digits2_pos_iter_xO.
  apply andb_true_iff. split; [|by apply Z.leb_le].
  apply Z.eqb_eq. unfold SpecFloat.fexp. lia.
Qed.

End ExactRounding.

(** Widening a binary32 value and rounding it back gives the value. *)
Lemma to_binary32_of_binary32 (y : spec_float) :
  valid_binary 24 128 y = true -> Struct.to_binary32 (Struct.of_binary32 y) = y.
Proof.
  destruct y as [s|s| |s m e]; try done. intros Hv. simpl in Hv.
  pose proof Hv as Hb. unfold bounded, canonical_mantissa, SpecFloat.fexp, SpecFloat.emin in Hb.
  apply andb_true_iff in Hb as [Hc He]. apply Z.eqb_eq in Hc. apply Z.leb_le in He.
  assert (exists k, Z.pos (digits2_pos m) + Z.pos k = 53) as [k Hk].
  { exists (Z.to_pos (53 - Z.pos (digits2_pos m))). lia. }
  unfold Struct.of_binary32, PyFloat.prec, PyFloat.emax.
  rewrite (binary_round_padded 53 1024 s m k e) by (unfold SpecFloat.emin; lia).
  unfold Struct.to_binary32. by apply binary_round_shifted.
Qed.

Lemma binary32_of_bits_valid (w : Z) :
  0 <= w < 2 ^ 32 -> valid_binary 24 128 (Struct.binary32_of_bits w) = true.
Proof.
  intros Hw. unfold Struct.binary32_of_bits.
  pose proof (Z.mod_pos_bound (w / 2 ^ 23) 256 eq_refl) as Hex.
  pose proof (Z.mod_pos_bound w (2 ^ 23) eq_refl) as Hfrac.
  set (ex := (w / 2 ^ 23) mod 256) in *. set (frac := w mod 2 ^ 23) in *.
  destruct (Z.eqb_spec ex 0) as [E0|E0].
  - destruct frac as [|m|m] eqn:Ef; try done. simpl.
    unfold bounded, canonical_mantissa, SpecFloat.fexp, SpecFloat.emin.
    pose proof (digits2_pos_bounds m) as [Hlo Hhi].
    assert (Z.pos (digits2_pos m) <= 23).
    { destruct (Z.le_gt_cases (Z.pos (digits2_pos m)) 23) as [Hle|Hgt]; [done|].
      pose proof (Z.pow_le_mono_r 2 23 (Z.pos (digits2_pos m) - 1)). lia. }
    apply andb_true_iff. split; [apply Z.eqb_eq|apply Z.leb_le]; lia.
  - destruct (Z.eqb_spec ex 255) as [E255|E255]; [by destruct (frac =? 0)|].
    destruct (frac + 2 ^ 23) as [|m|m] eqn:Ef; try done. simpl.
    unfold bounded, canonical_mantissa, SpecFloat.fexp, SpecFloat.emin.
    assert (Z.pos (digits2_pos m) = 24) as Hd.
    { apply (Zdigits2_unique (Z.pos m) 24); lia. }
    rewrite Hd. apply andb_true_iff. split; [apply Z.eqb_eq|apply Z.leb_le]; lia.
Qed.

(** A word is read back from the value it denotes, unless it is a NaN
    with another payload than the quiet NaN that the packer writes. *)
Lemma bits_of_binary32_of_bits (w : Z) :
  0 <= w < 2 ^ 32 ->
  (Struct.binary32_of_bits w = S754_nan -> w = 255 * 2 ^ 23 + 2 ^ 22) ->
  Struct.bits_of_binary32 (Struct.binary32_of_bits w) = w.
Proof.
  intros Hw. unfold Struct.binary32_of_bits.
  pose proof (Z.mod_pos_bound (w / 2 ^ 23) 256 eq_refl) as Hex.
  pose proof (Z.mod_pos_bound w (2 ^ 23) eq_refl) as Hfrac.
  assert (w = Struct.sign_bit (2 ^ 31 <=? w) + ((w / 2 ^ 23) mod 256) * 2 ^ 23 + w mod 2 ^ 23)
    as Hsplit.
  { unfold Struct.sign_bit. change (2 ^ 23) with 8388608 in *.
    change (2 ^ 31) with 2147483648. change (2 ^ 32) with 4294967296 in *.
    destruct (Z.leb_spec 2147483648 w); Z.to_euclidean_division_equations; lia. }
  set (ex := (w / 2 ^ 23) mod 256) in *. set (frac := w mod 2 ^ 23) in *.
  set (s := 2 ^ 31 <=? w) in *.
  destruct (Z.eqb_spec ex 0) as [E0|E0].
  - destruct frac as [|m|m] eqn:Ef; try lia; intros _; simpl.
    + lia.
    + destruct (Z.leb_spec (2 ^ 23) (Z.pos m)); lia.
  - destruct (Z.eqb_spec ex 255) as [E255|E255].
    + destruct (Z.eqb_spec frac 0) as [F0|F0]; simpl; [lia|]. intros H. symmetry. by apply H.
    + destruct (frac + 2 ^ 23) as [|m|m] eqn:Ef; try lia. intros _. simpl.
      destruct (Z.leb_spec (2 ^ 23) (Z.pos m)); lia.
Qed.

Lemma byte_of_Z_of_byte (b : byte) : byte_of_Z (Z_of_byte b) = b.
Proof. destruct b; reflexivity. Qed.

Lemma Z_of_byte_range (b : byte) : 0 <= Z_of_byte b < 256.
Proof. unfold Z_of_byte. pose proof (Byte.to_N_bounded b). lia. Qed.

Lemma byte_of_Z_mod (z : Z) : byte_of_Z (z mod 256) = byte_of_Z z.
Proof. unfold byte_of_Z. by rewrite Z.mod_mod. Qed.

Lemma le_word_range (bs : list byte) : 0 <= Struct.le_word bs < 2 ^ 32.
Proof.
  unfold Struct.le_word. destruct bs as [|b0 [|b1 [|b2 [|b3 [|]]]]]; try lia.
  pose proof (Z_of_byte_range b0). pose proof (Z_of_byte_range b1).
  pose proof (Z_of_byte_range b2). pose proof (Z_of_byte_range b3). lia.
Qed.

Lemma le_bytes_le_word (bs : list byte) :
  length bs = 4%nat -> Struct.le_bytes (Struct.le_word bs) = bs.
Proof.
  destruct bs as [|b0 [|b1 [|b2 [|b3 [|]]]]]; try done. intros _.
  unfold Struct.le_bytes, Struct.le_word.
  pose proof (Z_of_byte_range b0). pose proof (Z_of_byte_range b1).
  pose proof (Z_of_byte_range b2). pose proof (Z_of_byte_range b3).
  set (z := Z_of_byte b0 + 2 ^ 8 * Z_of_byte b1 + 2 ^ 16 * Z_of_byte b2
            + 2 ^ 24 * Z_of_byte b3).
  assert (z mod 256 = Z_of_byte b0 /\ (z / 2 ^ 8) mod 256 = Z_of_byte b1
          /\ (z / 2 ^ 16) mod 256 = Z_of_byte b2 /\ (z / 2 ^ 24) mod 256 = Z_of_byte b3)
    as (E0 & E1 & E2 & E3).
  { unfold z. change (2 ^ 8) with 256. change (2 ^ 16) with 65536.
    change (2 ^ 24) with 16777216. Z.to_euclidean_division_equations. lia. }
  rewrite <- (byte_of_Z_mod z), <- (byte_of_Z_mod (z / 2 ^ 8)),
    <- (byte_of_Z_mod (z / 2 ^ 16)), <- (byte_of_Z_mod (z / 2 ^ 24)).
  rewrite E0, E1, E2, E3. by rewrite !byte_of_Z_of_byte.
Qed.

(** ** Decoding and encoding again *)

(** A value that has been through four packed bytes once is a fixed point
    of that trip, and packs to the bytes it came from. *)
Lemma round32_idempotent (x : float) : round32 (round32 x) = round32 x.
Proof.
  unfold round32. by rewrite (to_binary32_of_binary32 _ (to_binary32_valid x)).
Qed.

Lemma pack_f_round32 (x : float) : Struct.pack_f (round32 x) = Struct.pack_f x.
Proof.
  unfold round32, Struct.pack_f.
  by rewrite (to_binary32_of_binary32 _ (to_binary32_valid x)).
Qed.

Lemma packed_round32 (xs : list float) :
  concat (map Struct.pack_f (map round32 xs)) = concat (map Struct.pack_f xs).
Proof.
  rewrite map_map. f_equal. apply map_ext. intros x. apply pack_f_round32.
Qed.

Lemma pack_unpack_f (bs : list byte) :
  length bs = 4%nat -> plain_word bs -> Struct.pack_f (Struct.unpack_f bs) = bs.
Proof.
  intros Hlen Hplain. unfold Struct.pack_f, Struct.unpack_f.
  pose proof (le_word_range bs) as Hw.
  rewrite to_binary32_of_binary32 by (by apply binary32_of_bits_valid).
  rewrite bits_of_binary32_of_bits by done. by apply le_bytes_le_word.
Qed.

Lemma pack_unpack_chunks n (buf : list byte) :
  length buf = (4 * n)%nat ->
  Forall plain_word (Struct.chunks4 n buf) ->
  concat (map Struct.pack_f (map Struct.unpack_f (Struct.chunks4 n buf))) = buf.
Proof.
  revert buf. induction n as [|n IH]; intros buf Hlen Hplain;
    cbn [Struct.chunks4 map concat] in *.
  - by destruct buf.
  - apply Forall_cons in Hplain as [Hhd Htl].
    rewrite pack_unpack_f; [|rewrite length_take; lia|done].
    rewrite IH; [apply take_drop|rewrite length_drop; lia|done].
Qed.

Lemma chunks4_app n m (a b : list byte) :
  length a = (4 * n)%nat ->
  Struct.chunks4 (n + m) (a ++ b) = Struct.chunks4 n a ++ Struct.chunks4 m b.
Proof.
  revert a. induction n as [|n IH]; intros a Hlen; simpl.
  - by destruct a.
  - rewrite take_app_le, drop_app_le by lia. f_equal.
    apply IH. rewrite length_drop. lia.
Qed.

Lemma slice_range {A} (l : list A) a b :
  0 <= a <= b -> b <= len l ->
  slice l a b = take (Z.to_nat (b - a)) (drop (Z.to_nat a) l).
Proof. intros Hab Hb. unfold slice. by rewrite !clamp_in_range by lia. Qed.

Lemma take_32_slices (data : list byte) :
  32 <= len data ->
  take 32 data = slice data 0 12 ++ slice data 12 28 ++ slice data 28 32.
Proof.
  intros Hlen. unfold len in Hlen.
  rewrite !slice_range by (unfold len; lia).
  change (Z.to_nat (12 - 0)) with 12%nat. change (Z.to_nat (28 - 12)) with 16%nat.
  change (Z.to_nat (32 - 28)) with 4%nat. change (Z.to_nat 0) with 0%nat.
  change (Z.to_nat 12) with 12%nat. change (Z.to_nat 28) with 28%nat. rewrite drop_0.
  rewrite <- (take_drop 12 (take 32 data)). rewrite take_take. f_equal.
  rewrite (skipn_firstn_comm 12 32 data). simpl Nat.sub.
  rewrite <- (take_drop 16 (take 20 (drop 12 data))). rewrite take_take. f_equal.
  rewrite (skipn_firstn_comm 16 20). by rewrite drop_drop.
Qed.

Lemma length_chunks4 n (buf : list byte) : length (Struct.chunks4 n buf) = n.
Proof. revert buf. induction n as [|n IH]; intros buf; simpl; [done|]. by rewrite IH. Qed.

Lemma decoded_fields_pack (data : list byte) :
  32 <= len data ->
  Forall plain_word (Struct.chunks4 8 (take 32 data)) ->
  Struct.pack 3 (decoded_position data) = Some (slice data 0 12)
  /\ Struct.pack 4 (decoded_rotation data) = Some (slice data 12 28)
  /\ Struct.pack_f (decoded_zoom data) = slice data 28 32.
Proof.
  intros Hlen Hplain.
  assert (length (slice data 0 12) = 12%nat) as L1 by (by rewrite length_slice by lia).
  assert (length (slice data 12 28) = 16%nat) as L2 by (by rewrite length_slice by lia).
  assert (length (slice data 28 32) = 4%nat) as L3 by (by rewrite length_slice by lia).
  rewrite take_32_slices in Hplain by done.
  rewrite (chunks4_app 3 5) in Hplain by done.
  rewrite (chunks4_app 4 1) in Hplain by done.
  apply Forall_app in Hplain as [P1 Hplain]. apply Forall_app in Hplain as [P2 P3].
  unfold Struct.pack, decoded_position, decoded_rotation, decoded_zoom.
  rewrite !length_map, !length_chunks4.
  destruct (decide (3 = 3)%nat); [|done]. destruct (decide (4 = 4)%nat); [|done].
  rewrite !pack_unpack_chunks by done. split; [done|]. split; [done|].
  rewrite take_ge by lia. apply pack_unpack_f; [done|].
  cbn [Struct.chunks4] in P3. apply Forall_inv in P3. by rewrite take_ge in P3 by lia.
Qed.

Lemma packed_field_at h n (p : loc) xs b :
  h !! p = Some (OList xs) -> Struct.pack n xs = Some b ->
  packed_field h n (Some p) = Some b.
Proof. intros Hp Hb. unfold packed_field. by rewrite Hp. Qed.

(** X13: the position, rotation and zoom that [read_input_file] decodes
    from a file of at least 32 bytes are values whose structured encoding
    is exactly the first 32 bytes of the file, provided none of the eight
    words is a NaN with a payload other than the quiet NaN's. *)
Theorem decoded_fields_encode_back :
  forall path mode data w,
    fs w !! path = Some (File mode data) ->
    32 <= len data ->
    Forall plain_word (Struct.chunks4 8 (take 32 data)) ->
    exists l w' p r,
      read_input_file path w = (Ok l, w')
      /\ heap w' !! l = Some (ODict (structured_input p r data))
      /\ encode_input (heap w') (structured p r (decoded_zoom data)) = Some (take 32 data).
Proof.
  intros path mode data w Hf Hlen Hplain.
  destruct (decoded_fields_pack data Hlen Hplain) as (Hp & Hr & Hz).
  eexists _, _, _, _. split; [by eapply read_input_file_long|].
  change (heap (set_heap ?x _)) with x.
  assert ((heap w ++ [OList (decoded_position data); OList (decoded_rotation data);
                 ODict (structured_input (length (heap w)) (S (length (heap w))) data)]) !! length (heap w)
          = Some (OList (decoded_position data))) as E0
    by (by rewrite lookup_app_r, Nat.sub_diag).
  assert ((heap w ++ [OList (decoded_position data); OList (decoded_rotation data);
                 ODict (structured_input (length (heap w)) (S (length (heap w))) data)]) !! S (length (heap w))
          = Some (OList (decoded_rotation data))) as E1.
  { rewrite lookup_app_r by lia. by replace (S (length (heap w)) - length (heap w))%nat with 1%nat by lia. }
  split.
  { rewrite lookup_app_r by lia.
    by replace (S (S (length (heap w))) - length (heap w))%nat with 2%nat by lia. }
  unfold encode_input. cbn [bytes position rotation zoom structured].
  rewrite (packed_field_at _ 3 _ _ _ E0 Hp), (packed_field_at _ 4 _ _ _ E1 Hr), Hz.
  by rewrite take_32_slices.
Qed.

(** ** Partial structured inputs *)

Lemma packed_field_well_formed h n field :
  list_of_length h n field ->
  exists b, packed_field h n field = Some b /\ length b = field_size n field.
Proof.
  destruct field as [p|]; simpl; [|by exists []].
  intros (xs & -> & Hlen). unfold Struct.pack.
  destruct (decide (length xs = n)); [|done].
  eexists. split; [done|]. rewrite length_packed. lia.
Qed.

Lemma encode_well_formed h d :
  bytes d = None -> well_formed h d ->
  exists b, encode_input h d = Some b
            /\ length b = (field_size 3 (position d) + field_size 4 (rotation d)
                           + field_size 1 (zoom d))%nat.
Proof.
  intros Hb [Hpos Hrot]. unfold encode_input. rewrite Hb.
  destruct (packed_field_well_formed _ _ _ Hpos) as (pb & -> & Lp).
  destruct (packed_field_well_formed _ _ _ Hrot) as (rb & -> & Lr).
  eexists. split; [done|]. rewrite !length_app, Lp, Lr.
  destruct (zoom d); simpl; lia.
Qed.

(** X12: a structured input that lacks at least one of position,
    rotation and zoom (and has no payload) is written as 12, 16 and 4 bytes
    for the fields it has, fewer than 32 in total; reading the file back
    gives a dict with the ['bytes'] key only. *)
Theorem partial_input_reads_back_raw :
  forall path l d w,
    heap w !! l = Some (ODict d) ->
    bytes d = None ->
    well_formed (heap w) d ->
    position d = None \/ rotation d = None \/ zoom d = None ->
    fs w !! path <> Some Dir ->
    exists b w1 w2,
      write_input_file path l w = (Ok tt, w1)
      /\ length b = (field_size 3 (position d) + field_size 4 (rotation d)
                     + field_size 1 (zoom d))%nat
      /\ (length b < 32)%nat
      /\ read_input_file path w1 = (Ok (length (heap w)), w2)
      /\ heap w2 !! length (heap w) = Some (ODict (raw_input b)).
Proof.
  intros path l d w Hd Hb Hwf Hmissing Hpath.
  destruct (encode_well_formed _ _ Hb Hwf) as (b & Henc & Hlen).
  assert (length b < 32)%nat as Hshort.
  { rewrite Hlen. destruct Hmissing as [E|[E|E]]; rewrite E;
      destruct (position d), (rotation d), (zoom d); simpl; lia. }
  assert (fs (written path b w) !! path = Some (File (file_mode (fs w) path) b)) as Hfile
    by (unfold written; simpl; apply lookup_insert_eq).
  assert (len b < 32) as Hlen32 by (unfold len; lia).
  pose proof (read_input_file_short path _ b (written path b w) Hfile Hlen32) as Hread.
  exists b, (written path b w). eexists.
  split; [by apply (write_input_file_run path l d)|]. split; [done|]. split; [done|].
  split; [exact Hread|]. simpl. by rewrite lookup_app_r, Nat.sub_diag.
Qed.

(** ** The field strategies *)

(** X9: [arithmetic_mutation] on an input with a position list of at
    least three components and a zoom returns the input after three random
    draws.  One of the first three position components has had a delta from
    [-100, -10, -1, 1, 10, 100] added, in the list object itself; the zoom of
    the dict has had a delta from [-5, -1, -0.1, 0.1, 1, 5] added; the
    rotation, the payload and every other object are as before. *)
Theorem arithmetic_mutation_effect :
  forall data d p pos z w,
    heap w !! data = Some (ODict d) ->
    position d = Some p ->
    heap w !! p = Some (OList pos) ->
    (3 <= length pos)%nat ->
    zoom d = Some z ->
    exists idx x delta zdelta w',
      arithmetic_mutation data w = (Ok data, w')
      /\ (idx < 3)%nat /\ pos !! idx = Some x
      /\ delta ∈ position_deltas
      /\ zdelta ∈ zoom_deltas
      /\ w' = set_heap
                (<[data := ODict (with_zoom d (PyFloat.add z zdelta))]>
                   (<[p := OList (<[idx := PyFloat.add x (PyFloat.of_Z delta)]> pos)]>
                      (heap w)))
                (set_cursor (cursor w + 3) w).
Proof.
  intros data d p pos z w Hd Hp Hpos Hlen Hz.
  assert (p <> data) as Hne.
  { intros E. subst p. by pose proof (eq_trans (eq_sym Hd) Hpos). }
  assert (wp (arithmetic_mutation data)
            (returns (fun l w' =>
               l = data /\
               exists idx x delta zdelta,
                 (idx < 3)%nat /\ pos !! idx = Some x
                 /\ delta ∈ position_deltas /\ zdelta ∈ zoom_deltas
                 /\ w' = set_heap
                           (<[data := ODict (with_zoom d (PyFloat.add z zdelta))]>
                              (<[p := OList (<[idx := PyFloat.add x (PyFloat.of_Z delta)]> pos)]>
                                 (heap w)))
                           (set_cursor (cursor w + 3) w))) w) as H.
  { unfold arithmetic_mutation. apply wp_bind. eapply wp_get_dict; [done|].
    rewrite Hp. apply wp_bind, wp_bind, wp_randint; [lia|]. intros idx Hidx.
    apply wp_bind, wp_choice; [done|]. intros delta Hdelta.
    eapply wp_list_iadd; [exact Hpos|unfold len; lia|]. intros x Hx.
    apply wp_bind. eapply wp_get_dict.
    { simpl. rewrite list_lookup_insert_ne by done. exact Hd. }
    rewrite Hz. apply wp_bind, wp_bind, wp_choice; [done|]. intros zdelta Hzdelta.
    eapply wp_set_item_zoom.
    { simpl. rewrite list_lookup_insert_ne by done. exact Hd. }
    apply wp_ret. split; [done|].
    exists (Z.to_nat idx), x, delta, zdelta.
    split; [lia|]. split; [done|]. split; [done|]. split; [done|].
    simpl. unfold set_heap, set_cursor. simpl. f_equal. lia. }
  apply wp_returns_run in H as (l & w' & Hrun & -> & idx & x & delta & zdelta & ?).
  by exists idx, x, delta, zdelta, w'.
Qed.

Lemma interesting_list_effect q xs n bound w :
  heap w !! q = Some (OList xs) -> length xs = n -> bound = Z.of_nat n - 1 -> 0 <= bound ->
  wp (let* go := present_and_lucky (Some q) in
      match go with
      | Some p =>
          let* idx := random_randint 0 bound in
          let* v := random_choice interesting_floats in
          list_setitem p idx v
      | None => ret tt
      end)
     (returns (fun _ w' =>
        exists xs', one_interesting n xs xs' /\ heap w' = <[q := OList xs']> (heap w))) w.
Proof.
  intros Hq Hlen Hbound Hb0. apply wp_bind, wp_present_and_lucky.
  - intros c. apply wp_ret. exists xs. split; [by left|].
    simpl. symmetry. by apply list_insert_id.
  - intros p [= <-].
    apply wp_bind, wp_randint; [lia|]. intros idx Hidx.
    apply wp_bind, wp_choice; [done|]. intros v Hv.
    eapply wp_list_setitem; [exact Hq|unfold len; lia|].
    eexists. split; [|done]. right. exists (Z.to_nat idx), v.
    split; [lia|]. done.
Qed.

(** X10: [interesting_values] on an input with a position list of three
    components, a rotation list of four and a zoom returns the input.  In
    each list at most one component has been replaced by one of the seven
    interesting floats, the zoom is the old one or an interesting float,
    and nothing else in the heap has changed. *)
Theorem interesting_values_effect :
  forall data d p r pos rot z w,
    heap w !! data = Some (ODict d) ->
    position d = Some p -> heap w !! p = Some (OList pos) -> length pos = 3%nat ->
    rotation d = Some r -> heap w !! r = Some (OList rot) -> length rot = 4%nat ->
    zoom d = Some z ->
    exists pos' rot' z' w',
      interesting_values data w = (Ok data, w')
      /\ one_interesting 3 pos pos'
      /\ one_interesting 4 rot rot'
      /\ (z' = z \/ z' ∈ interesting_floats)
      /\ heap w' = <[data := ODict (with_zoom d z')]>
                     (<[r := OList rot']> (<[p := OList pos']> (heap w))).
Proof.
  intros data d p r pos rot z w Hd Hp Hpos Lpos Hr Hrot Lrot Hz.
  assert (p <> data) as Hpd.
  { intros E. subst p. by pose proof (eq_trans (eq_sym Hd) Hpos). }
  assert (r <> data) as Hrd.
  { intros E. subst r. by pose proof (eq_trans (eq_sym Hd) Hrot). }
  assert (p <> r) as Hpr.
  { intros E. subst p. pose proof (eq_trans (eq_sym Hpos) Hrot) as E. injection E as ->. lia. }
  assert (wp (interesting_values data)
            (returns (fun l w' =>
               l = data /\
               exists pos' rot' z',
                 one_interesting 3 pos pos' /\ one_interesting 4 rot rot'
                 /\ (z' = z \/ z' ∈ interesting_floats)
                 /\ heap w' = <[data := ODict (with_zoom d z')]>
                                (<[r := OList rot']> (<[p := OList pos']> (heap w))))) w) as H.
  { unfold interesting_values. apply wp_bind. eapply wp_get_dict; [done|].
    rewrite Hp. apply wp_assoc, wp_bind_ok.
    eapply wp_mono; [by apply (interesting_list_effect p pos 3 2 w)|].
    intros [[]|e] w1; unfold returns; [|done]. intros (pos' & Hpos' & Hw1).
    apply wp_bind. eapply wp_get_dict.
    { rewrite Hw1. rewrite list_lookup_insert_ne by done. exact Hd. }
    rewrite Hr. apply wp_assoc, wp_bind_ok.
    eapply wp_mono.
    { apply (interesting_list_effect r rot 4 3 w1); [|done|done|done].
      rewrite Hw1. rewrite list_lookup_insert_ne by done. exact Hrot. }
    intros [[]|e] w2; unfold returns; [|done]. intros (rot' & Hrot' & Hw2).
    assert (heap w2 !! data = Some (ODict d)) as Hd2.
    { rewrite Hw2, Hw1. rewrite !list_lookup_insert_ne by done. exact Hd. }
    apply wp_bind. eapply wp_get_dict; [exact Hd2|].
    rewrite Hz. apply wp_bind, wp_present_and_lucky.
    - intros c. apply wp_bind, wp_ret, wp_ret. split; [done|].
      exists pos', rot', z. split; [done|]. split; [done|]. split; [by left|].
      simpl. rewrite <- Hw1, <- Hw2. symmetry. apply list_insert_id.
      replace (with_zoom d z) with d; [exact Hd2|].
      destruct d; simpl in *. unfold with_zoom. simpl. by rewrite Hz.
    - intros z0 _. apply wp_bind, wp_bind, wp_choice; [done|]. intros v Hv.
      eapply wp_set_item_zoom; [exact Hd2|].
      apply wp_ret. split; [done|].
      exists pos', rot', v. split; [done|]. split; [done|]. split; [by right|].
      simpl. by rewrite Hw2, Hw1. }
  apply wp_returns_run in H as (l & w' & Hrun & -> & pos' & rot' & z' & ?).
  by exists pos', rot', z', w'.
Qed.

(** ** A failing write in [execute_target] *)

Lemma appends_to_trans path w1 w2 w3 :
  appends_to path w1 w2 -> appends_to path w2 w3 -> appends_to path w1 w3.
Proof. intros H1 H2 c w E. destruct (H1 c w E) as [c' E']. by apply (H2 c' w). Qed.

Lemma appends_pure path {A} (m : M A) : (forall w, (m w).2 = w) -> keeps (appends_to path) m.
Proof. apply keeps_pure. intros w c w0 ->. eauto. Qed.

Lemma file_write_appends path b : keeps (appends_to path) (file_write path b).
Proof. intros w1. unfold wp. intros c w ->. rewrite file_write_written. simpl. eauto. Qed.

Lemma write_field_appends path n field :
  keeps (appends_to path)
    (match field with
     | Some p =>
         let* xs := get_list p in
         let* packed := struct_pack n xs in
         file_write path packed
     | None => ret tt
     end).
Proof.
  destruct field as [p|]; [|by apply appends_pure].
  apply keeps_bind; [apply appends_to_trans| |intros xs].
  { apply appends_pure. intros w. unfold get_list. by destruct (heap w !! p) as [[]|]. }
  apply keeps_bind; [apply appends_to_trans| |intros packed].
  { apply appends_pure. intros w. unfold struct_pack. by destruct (Struct.pack n xs). }
  apply file_write_appends.
Qed.

Lemma write_input_file_written path l w :
  fs w !! path <> Some Dir ->
  exists c, (write_input_file path l w).2 = written path c w.
Proof.
  intros Hnd.
  assert (keeps (appends_to path)
            (let* d := get_dict l in
             match bytes d with
             | Some b => file_write path b
             | None =>
                 match position d with
                 | Some p =>
                     let* pos := get_list p in
                     let* packed := struct_pack 3 pos in
                     file_write path packed
                 | None => ret tt
                 end >>
                 match rotation d with
                 | Some r =>
                     let* rot := get_list r in
                     let* packed := struct_pack 4 rot in
                     file_write path packed
                 | None => ret tt
                 end >>
                 match zoom d with
                 | Some z =>
                     let* packed := struct_pack 1 [z] in
                     file_write path packed
                 | None => ret tt
                 end
             end)) as Htail.
  { apply keeps_bind; [apply appends_to_trans| |intros d].
    { apply appends_pure. intros w0. unfold get_dict. by destruct (heap w0 !! l) as [[]|]. }
    destruct (bytes d) as [raw|]; [apply file_write_appends|].
    apply keeps_bind; [apply appends_to_trans|apply write_field_appends|intros _].
    apply keeps_bind; [apply appends_to_trans|apply write_field_appends|intros _].
    destruct (zoom d) as [z|]; [|by apply appends_pure].
    apply keeps_bind; [apply appends_to_trans| |intros packed].
    { apply appends_pure. intros w0. unfold struct_pack. by destruct (Struct.pack 1 [z]). }
    apply file_write_appends. }
  unfold write_input_file. unfold bind at 1. rewrite open_wb_run by done.
  specialize (Htail (written path [] w)). unfold wp in Htail.
  by apply (Htail [] w).
Qed.

(** X16: when writing the temporary input file fails, [execute_target]
    raises the same exception and the world is the one that the failed write
    left: the child is not started, the execution is not counted, and the
    temporary file, opened before the failure, is still there. *)
Theorem execute_target_keeps_file_on_encoding_error :
  forall int_of_str input_data e w w1,
    let tmp := fuzz_input_path (pid w) in
    fs w !! tmp <> Some Dir ->
    write_input_file tmp input_data w = (Raise e, w1) ->
    execute_target int_of_str input_data w = (Raise e, w1)
    /\ exists c, w1 = written tmp c w.
Proof.
  intros int input_data e w w1 tmp Hnd Hwrite. split.
  - unfold execute_target, bind, os_getpid. simpl. fold tmp. by rewrite Hwrite.
  - destruct (write_input_file_written tmp input_data w Hnd) as [c Hc].
    rewrite Hwrite in Hc. by exists c.
Qed.

(** ** The initial corpus *)

Example seed_filename_7 : seed_filename 7 = "seed_007.bin"%string.
Proof. reflexivity. Qed.

Example seed_filename_12 : seed_filename 12 = "seed_012.bin"%string.
Proof. reflexivity. Qed.

Lemma seed_input_grows h new l b : seed_input h l b -> seed_input (h ++ new) l b.
Proof.
  intros (p & r & z & pos & rot & Hl & Hp & Hpos & Hr & Hrot & Hb).
  exists p, r, z, pos, rot.
  repeat split; try done; by apply lookup_app_l_Some.
Qed.

Lemma seed_input_fresh h pos rot z :
  length pos = 3%nat -> length rot = 4%nat ->
  seed_input
    (h ++ [OList pos; OList rot; ODict (structured (length h) (S (length h)) z)])
    (S (S (length h)))
    (concat (map Struct.pack_f (pos ++ rot ++ [z]))).
Proof.
  intros Hpos Hrot. exists (length h), (S (length h)), z, pos, rot.
  repeat split; try done.
  - rewrite lookup_app_r by lia.
    by replace (S (S (length h)) - length h)%nat with 2%nat by lia.
  - rewrite lookup_app_r by lia. by rewrite Nat.sub_diag.
  - rewrite lookup_app_r by lia.
    by replace (S (length h) - length h)%nat with 1%nat by lia.
Qed.

Lemma seed_input_length h l b : seed_input h l b -> length b = 32%nat.
Proof.
  intros (p & r & z & pos & rot & _ & _ & Hpos & _ & Hrot & ->).
  rewrite length_packed, !length_app, Hpos, Hrot. reflexivity.
Qed.

Lemma seed_input_encodes h l b :
  seed_input h l b ->
  exists d, h !! l = Some (ODict d) /\ encode_input h d = Some b.
Proof.
  intros (p & r & z & pos & rot & Hl & Hp & Hpos & Hr & Hrot & ->).
  exists (structured p r z). split; [exact Hl|].
  unfold encode_input, structured. cbn [bytes position rotation zoom].
  rewrite (packed_field_at h 3 p pos (concat (map Struct.pack_f pos))),
          (packed_field_at h 4 r rot (concat (map Struct.pack_f rot))).
  - rewrite !map_app, !concat_app. cbn [map concat]. by rewrite app_nil_r.
  - exact Hr.
  - unfold Struct.pack. by rewrite decide_True.
  - exact Hp.
  - unfold Struct.pack. by rewrite decide_True.
Qed.

Lemma wp_alloc o (Q : Res loc -> World -> Prop) w :
  Q (Ok (length (heap w))) (set_heap (heap w ++ [o]) w) -> wp (alloc o) Q w.
Proof. done. Qed.

Lemma wp_random_uniform a b (Q : Res float -> World -> Prop) w :
  (forall x, Q (Ok x) (set_cursor (S (cursor w)) w)) -> wp (random_uniform a b) Q w.
Proof.
  intros H. unfold random_uniform. apply wp_bind, wp_random. intros r.
  apply wp_ret, H.
Qed.

Lemma wp_sign (Q : Res Z -> World -> Prop) w :
  (forall s, Q (Ok s) (set_cursor (S (cursor w)) w)) -> wp (random_choice [1; -1]) Q w.
Proof. intros H. apply wp_choice; [done|]. intros s _. apply H. Qed.

Section InitialCorpusProofs.

Variable pow_half : float -> float.

(** The rotation is a new list of four components, whatever was drawn;
    five draws are made. *)
Lemma wp_random_quaternion (Q : Res loc -> World -> Prop) w :
  (forall rot, length rot = 4%nat ->
     Q (Ok (length (heap w)))
       (set_heap (heap w ++ [OList rot]) (set_cursor (5 + cursor w) w))) ->
  wp (_random_quaternion pow_half) Q w.
Proof.
  intros H. unfold _random_quaternion.
  apply wp_bind, wp_random. intros u1.
  apply wp_bind, wp_random. intros u2.
  apply wp_bind, wp_random. intros u3.
  apply wp_bind, wp_sign. intros s1.
  apply wp_bind, wp_sign. intros s2.
  case_match; apply wp_alloc; by apply (H _).
Qed.

Lemma wp_valid_input (Q : Res loc -> World -> Prop) w :
  (forall pos rot z, length pos = 3%nat -> length rot = 4%nat ->
     Q (Ok (S (S (length (heap w)))))
       (set_heap
          (heap w ++ [OList pos; OList rot;
                      ODict (structured (length (heap w)) (S (length (heap w))) z)])
          (set_cursor (9 + cursor w) w))) ->
  wp (valid_input pow_half) Q w.
Proof.
  intros H. unfold valid_input.
  apply wp_bind, wp_random_uniform. intros p0.
  apply wp_bind, wp_random_uniform. intros p1.
  apply wp_bind, wp_random_uniform. intros p2.
  apply wp_bind, wp_alloc.
  apply wp_bind, wp_random_quaternion. intros rot Hrot.
  apply wp_bind, wp_random_uniform. intros z.
  apply wp_alloc. cbn [heap set_heap set_cursor cursor].
  rewrite !length_app. cbn [length]. rewrite !Nat.add_1_r, <- !app_assoc. cbn [app].
  by apply (H [p0; p1; p2] rot z).
Qed.

End InitialCorpusProofs.

Lemma literal_input_run pos rot z w :
  literal_input pos rot z w =
    (Ok (S (S (length (heap w)))),
     set_heap
       (heap w ++ [OList (map PyFloat.of_Z pos); OList (map PyFloat.of_Z rot);
                   ODict (structured (length (heap w)) (S (length (heap w))) z)])
       w).
Proof.
  unfold literal_input, bind, alloc. cbn [heap set_heap].
  rewrite !length_app. cbn [length]. rewrite !Nat.add_1_r, <- !app_assoc. cbn [app].
  reflexivity.
Qed.

Lemma seed_filenames_NoDup : NoDup (map seed_filename (seq 0 13)).
Proof. apply (bool_decide_unpack _). vm_compute. exact I. Qed.

Lemma seed_filename_inj i j :
  (i < 13)%nat -> (j < 13)%nat -> seed_filename i = seed_filename j -> i = j.
Proof.
  intros Hi Hj E.
  apply (NoDup_lookup _ i j (seed_filename i) seed_filenames_NoDup).
  - rewrite list_lookup_fmap, lookup_seq_lt by done. reflexivity.
  - rewrite list_lookup_fmap, lookup_seq_lt by done. simpl. by rewrite E.
Qed.

Lemma seed_paths_lookup dir n i :
  (i < n)%nat -> seed_paths dir n !! i = Some (path_join dir (seed_filename i)).
Proof.
  intros Hi. unfold seed_paths. rewrite list_lookup_fmap, lookup_seq_lt by done.
  reflexivity.
Qed.

Lemma save_seeds_spec dir corpus :
  forall i w,
    Forall (fun l => exists b, seed_input (heap w) l b) corpus ->
    (forall j, (j < length corpus)%nat ->
       fs w !! path_join dir (seed_filename (i + j)) <> Some Dir) ->
    (i + length corpus <= 13)%nat ->
    exists f,
      save_seeds dir i corpus w = (Ok tt, set_fs f w)
      /\ (forall j l, corpus !! j = Some l ->
            exists b mode,
              seed_input (heap w) l b
              /\ f !! path_join dir (seed_filename (i + j)) = Some (File mode b))
      /\ (forall q,
            (forall j, (j < length corpus)%nat ->
               q <> path_join dir (seed_filename (i + j))) ->
            f !! q = fs w !! q).
Proof.
  induction corpus as [|l rest IH]; intros i w Hall Hfree Hlen.
  - exists (fs w). split; [by rewrite set_fs_same|]. split; [done|]. intros q _. reflexivity.
  - apply Forall_cons in Hall as [[b Hb] Hall]. cbn [length] in *.
    destruct (seed_input_encodes _ _ _ Hb) as (d & Hd & Henc).
    assert (fs w !! path_join dir (seed_filename i) <> Some Dir) as Hpath.
    { specialize (Hfree 0%nat). rewrite Nat.add_0_r in Hfree. apply Hfree. lia. }
    pose proof (write_input_file_run _ _ _ _ _ Hd Henc Hpath) as Hwrite.
    set (w1 := written (path_join dir (seed_filename i)) b w) in *.
    destruct (IH (S i) w1) as (f & Hrun & Hfiles & Hrest).
    { exact Hall. }
    { intros j Hj. unfold w1, written. cbn [fs set_fs].
      rewrite lookup_insert_ne.
      - replace (S i + j)%nat with (i + S j)%nat by lia. apply Hfree. lia.
      - intros E. apply path_join_inj, seed_filename_inj in E; lia. }
    { lia. }
    exists f. split; [|split].
    + cbn [save_seeds]. unfold bind. rewrite Hwrite. exact Hrun.
    + intros [|j] l' Hl'.
      * injection Hl' as <-. exists b, (file_mode (fs w) (path_join dir (seed_filename i))).
        split; [exact Hb|]. rewrite Nat.add_0_r, Hrest.
        -- unfold w1, written. cbn [fs set_fs]. by rewrite lookup_insert_eq.
        -- intros j Hj E. apply path_join_inj, seed_filename_inj in E; lia.
      * destruct (Hfiles j l' Hl') as (b' & mode & Hb' & Hf).
        exists b', mode. split; [exact Hb'|].
        by replace (i + S j)%nat with (S i + j)%nat by lia.
    + intros q Hq. rewrite Hrest.
      * unfold w1, written. cbn [fs set_fs]. rewrite lookup_insert_ne; [done|].
        intros E. apply (Hq 0%nat); [lia|]. by rewrite Nat.add_0_r.
      * intros j Hj. replace (S i + j)%nat with (i + S j)%nat by lia.
        apply Hq. lia.
Qed.

Lemma seeds_built_snoc w c0 corpus w1 pos rot z c :
  seeds_built w c0 corpus w1 ->
  length pos = 3%nat -> length rot = 4%nat ->
  seeds_built w c (corpus ++ [S (S (length (heap w1))) : loc])
    (set_heap
       (heap w1 ++ [OList pos; OList rot;
                    ODict (structured (length (heap w1)) (S (length (heap w1))) z)])
       (set_cursor c w1)).
Proof.
  intros [(new & E) Hall] Hpos Hrot. split.
  - exists (new ++ [OList pos; OList rot;
                    ODict (structured (length (heap w1)) (S (length (heap w1))) z)]).
    rewrite E. cbn [heap set_heap set_cursor]. by rewrite app_assoc.
  - cbn [heap set_heap]. apply Forall_app. split.
    + eapply Forall_impl; [exact Hall|]. intros l [Hl [b Hb]]. split; [exact Hl|].
      exists b. by apply seed_input_grows.
    + apply Forall_singleton. split.
      * rewrite E. cbn [heap set_heap]. rewrite length_app. lia.
      * eexists. by apply seed_input_fresh.
Qed.

Lemma wp_literal_input pos rot z (Q : Res loc -> World -> Prop) w :
  Q (Ok (S (S (length (heap w)))))
    (set_heap
       (heap w ++ [OList (map PyFloat.of_Z pos); OList (map PyFloat.of_Z rot);
                   ODict (structured (length (heap w)) (S (length (heap w))) z)])
       (set_cursor (cursor w) w)) ->
  wp (literal_input pos rot z) Q w.
Proof. intros H. unfold wp. rewrite literal_input_run, set_cursor_same in *. exact H. Qed.

(** X25: where none of the thirteen seed paths of the corpus directory is
    a directory, [generate_initial_corpus] returns thirteen inputs, whatever
    the random draws and whatever [x ** 0.5] evaluates to: each is a new
    dict with a position of three and a rotation of four components, a zoom
    and no payload; the file [seed_<i>.bin] (the index padded to three
    digits) holds the 32 bytes that encode the input at index [i]; nothing
    else in the file system changes, the heap only gains objects, and the
    random stream has advanced by the ninety draws of the ten random
    inputs (nine each). *)
Theorem generate_initial_corpus_seeds :
  forall pow_half w,
    Forall (fun q => fs w !! q <> Some Dir) (seed_paths (corpus_dir (self w)) 13) ->
    exists corpus new f,
      generate_initial_corpus pow_half w
        = (Ok corpus,
           set_fs f (set_heap (heap w ++ new) (set_cursor (90 + cursor w) w)))
      /\ length corpus = 13%nat
      /\ (forall i l, corpus !! i = Some l ->
            exists b mode,
              (length (heap w) <= l)%nat
              /\ seed_input (heap w ++ new) l b
              /\ length b = 32%nat
              /\ f !! path_join (corpus_dir (self w)) (seed_filename i)
                 = Some (File mode b))
      /\ (forall q, q ∉ seed_paths (corpus_dir (self w)) 13 -> f !! q = fs w !! q).
Proof.
  intros pow_half w Hfree.
  assert (
    wp (generate_initial_corpus pow_half)
       (returns (fun corpus w' =>
          exists new f,
            w' = set_fs f (set_heap (heap w ++ new) (set_cursor (90 + cursor w) w))
            /\ length corpus = 13%nat
            /\ (forall i l, corpus !! i = Some l ->
                  exists b mode,
                    (length (heap w) <= l)%nat
                    /\ seed_input (heap w ++ new) l b
                    /\ f !! path_join (corpus_dir (self w)) (seed_filename i)
                       = Some (File mode b))
            /\ (forall q, q ∉ seed_paths (corpus_dir (self w)) 13 -> f !! q = fs w !! q))) w) as Hwp.
  { unfold generate_initial_corpus.
    apply wp_bind_ok.
    eapply wp_mono;
      [apply (wp_for_range_count
                (fun k corpus w' =>
                   length corpus = k /\ seeds_built w (9 * k + cursor w) corpus w'))|].
    - intros k acc w1 [Hlen Hbuilt]. apply wp_bind, wp_valid_input.
      intros pos rot z Hpos Hrot. apply wp_ret. split.
      + rewrite length_app, Hlen. simpl. lia.
      + assert (cursor w1 = (9 * k + cursor w)%nat) as Hc
          by (destruct Hbuilt as [[new ->] _]; reflexivity).
        replace (9 * S k + cursor w)%nat with (9 + cursor w1)%nat by lia.
        by eapply seeds_built_snoc.
    - split; [done|]. split; [|done]. exists [].
      rewrite app_nil_r. by destruct w.
    - intros [corpus|e] w1; unfold returns; [|done]. intros [Hlen Hbuilt].
      assert (cursor w1 = (90 + cursor w)%nat) as Hc
        by (destruct Hbuilt as [[new ->] _]; reflexivity).
      apply wp_bind, wp_literal_input.
      pose proof (seeds_built_snoc _ _ _ _ (map PyFloat.of_Z [0; 0; 10])
                    (map PyFloat.of_Z [1; 0; 0; 0]) (PyFloat.of_Z 1) (cursor w1)
                    Hbuilt eq_refl eq_refl) as Hbuilt1.
      set (e1 := S (S (length (heap w1)))) in *.
      set (w2 := set_heap _ (set_cursor (cursor w1) w1)) in *.
      apply wp_bind, wp_literal_input.
      pose proof (seeds_built_snoc _ _ _ _ (map PyFloat.of_Z [4096; 4096; 800])
                    (map PyFloat.of_Z [1; 0; 0; 0]) (PyFloat.of_Z 10) (cursor w2)
                    Hbuilt1 eq_refl eq_refl) as Hbuilt2.
      set (e2 := S (S (length (heap w2)))) in *.
      set (w3 := set_heap _ (set_cursor (cursor w2) w2)) in *.
      apply wp_bind, wp_literal_input.
      pose proof (seeds_built_snoc _ _ _ _ (map PyFloat.of_Z [2048; 2048; 400])
                    (map PyFloat.of_Z [0; 0; 0; 1]) (PyFloat.of_Z 5) (cursor w3)
                    Hbuilt2 eq_refl eq_refl) as Hbuilt3.
      set (e3 := S (S (length (heap w3)))) in *.
      set (w4 := set_heap _ (set_cursor (cursor w3) w3)) in *.
      rewrite <- !app_assoc in Hbuilt3. cbn [app] in Hbuilt3.
      change (cursor w3) with (cursor w1) in Hbuilt3. rewrite Hc in Hbuilt3.
      destruct Hbuilt3 as [(new & E) Hall].
      assert (length (corpus ++ [e1; e2; e3]) = 13%nat) as Hlen13.
      { rewrite length_app, Hlen. reflexivity. }
      assert (self w4 = self w /\ fs w4 = fs w /\ heap w4 = heap w ++ new) as (Es & Ef & Eh).
      { by rewrite E. }
      destruct (save_seeds_spec (corpus_dir (self w)) (corpus ++ [e1; e2; e3]) 0 w4)
        as (f & Hrun & Hfiles & Hrest).
      { eapply Forall_impl; [exact Hall|]. by intros l [_ Hl]. }
      { intros j Hj. rewrite Ef. rewrite Forall_lookup in Hfree.
        apply (Hfree j). apply seed_paths_lookup. lia. }
      { lia. }
      unfold wp, bind, get_self, ret. cbn [fst snd]. unfold loc in *.
      rewrite Es, Hrun. cbn [fst snd].
      exists new, f. split; [by rewrite E|]. split; [exact Hlen13|]. split.
      + intros i l Hl. destruct (Hfiles i l Hl) as (b & mode & Hb & Hf).
        exists b, mode. rewrite <- Eh. split; [|done].
        rewrite Forall_lookup in Hall. by destruct (Hall i l Hl).
      + intros q Hq. rewrite Hrest, Ef; [done|].
        intros j Hj ->. apply Hq. eapply list_elem_of_lookup_2, seed_paths_lookup. lia. }
  destruct (wp_returns_run _ _ _ Hwp)
    as (corpus & w' & Hrun & new & f & -> & Hlen & Hfiles & Hrest).
  exists corpus, new, f. split; [exact Hrun|]. split; [exact Hlen|].
  split; [|exact Hrest].
  intros i l Hl. destruct (Hfiles i l Hl) as (b & mode & Hnew & Hb & Hf).
  exists b, mode. repeat split; try done. by eapply seed_input_length.
Qed.

(** ** A second trip through a file *)

Lemma read_back_lookup h pos rot z (n := length h) :
  (h ++ read_back n pos rot z) !! n = Some (OList (map round32 pos))
  /\ (h ++ read_back n pos rot z) !! S n = Some (OList (map round32 rot))
  /\ (h ++ read_back n pos rot z) !! S (S n)
     = Some (ODict {| position := Some n; rotation := Some (S n);
                      zoom := Some (round32 z);
                      bytes := Some (concat (map Struct.pack_f (pos ++ rot ++ [z]))) |}).
Proof.
  unfold n. repeat split; rewrite lookup_app_r by lia.
  - by rewrite Nat.sub_diag.
  - by replace (S (length h) - length h)%nat with 1%nat by lia.
  - by replace (S (S (length h)) - length h)%nat with 2%nat by lia.
Qed.

(** Writing a structured input and reading the file, as one run. *)
Lemma write_then_read path x p r z pos rot w :
  heap w !! x = Some (ODict (structured p r z)) ->
  heap w !! p = Some (OList pos) -> length pos = 3%nat ->
  heap w !! r = Some (OList rot) -> length rot = 4%nat ->
  fs w !! path <> Some Dir ->
  let encoded := concat (map Struct.pack_f (pos ++ rot ++ [z])) in
  let w1 := written path encoded w in
  write_input_file path x w = (Ok tt, w1)
  /\ read_input_file path w1
     = (Ok (S (S (length (heap w)))),
        set_heap (heap w ++ read_back (length (heap w)) pos rot z) w1).
Proof.
  intros Hx Hp Hlp Hr Hlr Hpath encoded w1.
  assert (encoded = concat (map Struct.pack_f pos) ++ concat (map Struct.pack_f rot)
                    ++ Struct.pack_f z) as Henc.
  { unfold encoded. rewrite !map_app, !concat_app. cbn [map concat].
    by rewrite app_nil_r. }
  assert (length encoded = 32%nat) as Hlen.
  { unfold encoded. rewrite length_packed, !length_app, Hlp, Hlr. done. }
  split.
  { apply (write_input_file_run path x (structured p r z)); [done| |done].
    unfold encode_input, structured. cbn [bytes position rotation zoom].
    rewrite (packed_field_at _ 3 p pos (concat (map Struct.pack_f pos))),
            (packed_field_at _ 4 r rot (concat (map Struct.pack_f rot))).
    - by rewrite Henc.
    - exact Hr.
    - unfold Struct.pack. by rewrite decide_True.
    - exact Hp.
    - unfold Struct.pack. by rewrite decide_True. }
  assert (fs w1 !! path = Some (File (file_mode (fs w) path) encoded)) as Hfile
    by apply lookup_insert_eq.
  rewrite (read_input_file_long path _ encoded w1 Hfile) by (unfold len; lia).
  destruct (slices_of_three (concat (map Struct.pack_f pos))
              (concat (map Struct.pack_f rot)) (Struct.pack_f z))
    as (S1 & S2 & S3); [by rewrite length_packed, Hlp|by rewrite length_packed, Hlr|done|].
  rewrite <- Henc in S1, S2, S3.
  assert (decoded_position encoded = map round32 pos) as Dp.
  { unfold decoded_position. rewrite S1. rewrite <- Hlp. apply unpack_packed. }
  assert (decoded_rotation encoded = map round32 rot) as Dr.
  { unfold decoded_rotation. rewrite S2. rewrite <- Hlr. apply unpack_packed. }
  assert (decoded_zoom encoded = round32 z) as Dz.
  { unfold decoded_zoom. rewrite S3. rewrite take_ge by (simpl; lia).
    apply unpack_pack_f. }
  unfold structured_input, read_back. rewrite Dp, Dr, Dz. reflexivity.
Qed.

(** X14: a structured input without payload is written and read back;
    the position, rotation and zoom read back are then written, as an
    input without payload, to a second file, which is read again.  The
    second file holds the same 32 bytes as the first, and the second
    reading yields the same position, rotation and zoom as the first:
    after one trip through a file the values are stable.  The first trip
    adds only new objects and changes only the first file. *)
Theorem second_round_trip_is_stable :
  forall path path' x p r z pos rot w,
    heap w !! x = Some (ODict (structured p r z)) ->
    heap w !! p = Some (OList pos) -> length pos = 3%nat ->
    heap w !! r = Some (OList rot) -> length rot = 4%nat ->
    fs w !! path <> Some Dir ->
    let encoded := concat (map Struct.pack_f (pos ++ rot ++ [z])) in
    exists w1 y w2 new p1 r1 z1 pos1 rot1,
      write_input_file path x w = (Ok tt, w1)
      /\ w1 = written path encoded w
      /\ read_input_file path w1 = (Ok y, w2)
      /\ w2 = set_heap (heap w ++ new) w1
      /\ heap w2 !! y = Some (ODict {| position := Some p1; rotation := Some r1;
                                        zoom := Some z1; bytes := Some encoded |})
      /\ heap w2 !! p1 = Some (OList pos1)
      /\ heap w2 !! r1 = Some (OList rot1)
      /\ forall x' w3,
           heap w3 !! x' = Some (ODict (structured p1 r1 z1)) ->
           heap w3 !! p1 = Some (OList pos1) ->
           heap w3 !! r1 = Some (OList rot1) ->
           fs w3 !! path' <> Some Dir ->
           exists w4 y' w5 p2 r2 mode,
             write_input_file path' x' w3 = (Ok tt, w4)
             /\ fs w4 !! path' = Some (File mode encoded)
             /\ read_input_file path' w4 = (Ok y', w5)
             /\ heap w5 !! y' = Some (ODict {| position := Some p2; rotation := Some r2;
                                                zoom := Some z1; bytes := Some encoded |})
             /\ heap w5 !! p2 = Some (OList pos1)
             /\ heap w5 !! r2 = Some (OList rot1).
Proof.
  intros path path' x p r z pos rot w Hx Hp Hlp Hr Hlr Hpath encoded.
  destruct (write_then_read path x p r z pos rot w Hx Hp Hlp Hr Hlr Hpath)
    as [Hwrite Hread].
  destruct (read_back_lookup (heap w) pos rot z) as (L0 & L1 & L2).
  set (n := length (heap w)) in *.
  exists (written path encoded w), (S (S n)),
         (set_heap (heap w ++ read_back n pos rot z) (written path encoded w)),
         (read_back n pos rot z),
         n, (S n), (round32 z), (map round32 pos), (map round32 rot).
  split; [exact Hwrite|]. split; [reflexivity|]. split; [exact Hread|].
  split; [reflexivity|]. cbn [heap set_heap].
  split; [exact L2|]. split; [exact L0|]. split; [exact L1|].
  intros x' w3 Hx' Hp' Hr' Hpath'.
  destruct (write_then_read path' x' n (S n) (round32 z) (map round32 pos)
              (map round32 rot) w3 Hx' Hp' ltac:(by rewrite length_map) Hr'
              ltac:(by rewrite length_map) Hpath')
    as [Hwrite' Hread'].
  assert (concat (map Struct.pack_f (map round32 pos ++ map round32 rot ++ [round32 z]))
          = encoded) as Esame.
  { unfold encoded. rewrite !map_app, !concat_app, !packed_round32.
    cbn [map concat]. by rewrite pack_f_round32. }
  rewrite Esame in Hwrite', Hread'.
  destruct (read_back_lookup (heap w3) (map round32 pos) (map round32 rot) (round32 z))
    as (M0 & M1 & M2).
  set (m := length (heap w3)) in *.
  unfold read_back in M0, M1, M2.
  rewrite Esame, !map_map, round32_idempotent in M0, M1, M2.
  rewrite !(map_ext _ _ round32_idempotent) in M0, M1, M2.
  eexists _, _, _, m, (S m), _.
  split; [exact Hwrite'|].
  split; [apply lookup_insert_eq|].
  split; [exact Hread'|]. cbn [heap set_heap]. unfold read_back.
  rewrite Esame, !map_map, round32_idempotent.
  rewrite !(map_ext _ _ round32_idempotent).
  split; [exact M2|]. split; [exact M0|exact M1].
Qed.

(** ** The theorems at concrete inputs *)

Lemma byte_strategies_total_witness :
  exists w',
    truncate_extend 0%nat empty_payload_world = (Ok 0%nat, w')
    /\ exists b', heap w' !! 0%nat = Some (ODict (with_bytes (raw_input []) b')).
Proof.
  apply (byte_strategies_total truncate_extend 0%nat (raw_input []) [] empty_payload_world).
  - unfold byte_strategies. set_solver.
  - reflexivity.
  - reflexivity.
Defined.

Lemma read_input_file_total_witness :
  exists l w',
    read_input_file "fuzz_corpus/short.bin" corpus_world = (Ok l, w')
    /\ heap w' !! l = Some (ODict (raw_input three_bytes)).
Proof.
  destruct (read_input_file_total "fuzz_corpus/short.bin" 420 three_bytes corpus_world)
    as (l & d & new & w' & Hrun & _ & Hl & _ & Hshort & _).
  - vm_compute. reflexivity.
  - exists l, w'. split; [exact Hrun|]. rewrite Hl, Hshort; [reflexivity|].
    vm_compute. reflexivity.
Defined.

Lemma write_read_bytes_identity_witness :
  exists l w1 w2 mode,
    read_input_file "fuzz_corpus/long.bin" corpus_world = (Ok l, w1)
    /\ write_input_file "/tmp/copy.bin" l w1 = (Ok tt, w2)
    /\ fs w2 !! "/tmp/copy.bin"%string = Some (File mode thirty_three_bytes).
Proof.
  apply (write_read_bytes_identity "fuzz_corpus/long.bin" "/tmp/copy.bin" 420
           thirty_three_bytes corpus_world).
  - vm_compute. reflexivity.
  - vm_compute. discriminate.
Defined.

Lemma is_interesting_precedence_witness :
  is_interesting toy_digest (segv_result 0%nat) seen_world = (Ok true, seen_world)
  /\ is_interesting toy_digest covered_result seen_world = (Ok false, seen_world).
Proof.
  split.
  - apply (proj1 (is_interesting_precedence toy_digest (segv_result 0%nat) seen_world)).
    reflexivity.
  - apply (proj1 (proj2 (is_interesting_precedence toy_digest covered_result seen_world))
             [2; 1] true); try reflexivity.
    simpl. lia.
Defined.

Lemma save_crash_dedup_witness :
  exists res w1,
    save_crash toy_digest toy_json (segv_result 0%nat) overlap_world = (res, w1)
    /\ save_crash toy_digest toy_json (segv_result 0%nat) w1 = (Ok tt, w1)
    /\ fs w1 !! path_join "crashes" (crash_signature toy_digest 11 "Segmentation fault")
       = Some Dir.
Proof.
  destruct (save_crash_dedup toy_digest toy_json (segv_result 0%nat) (segv_result 0%nat)
              11 overlap_world eq_refl eq_refl eq_refl)
    as (res & w1 & H1 & H2 & _ & _ & _ & _ & _ & Hdir).
  exists res, w1. split; [exact H1|]. split; [exact H2|].
  apply Hdir.
  - vm_compute. set_solver.
  - intros m c. vm_compute. discriminate.
Defined.

Lemma execute_target_classification_witness :
  (exists result w',
     execute_target toy_int 0%nat segv_world = (Ok result, w')
     /\ crashed result = true /\ signal result = Some 11 /\ timeout result = false)
  /\ (exists result w',
        execute_target toy_int 0%nat hang_world = (Ok result, w')
        /\ timeout result = true /\ crashed result = false).
Proof.
  split.
  - destruct (execute_target_classification toy_int 0%nat segv_world
                (write_input_file (fuzz_input_path (pid segv_world)) 0%nat segv_world).2)
      as (result & w' & Hrun & _ & Ht & Hneg & _).
    + vm_compute. reflexivity.
    + exists result, w'. split; [exact Hrun|].
      destruct Hneg as [Hc Hs]; [lia|]. split; [exact Hc|]. split; [exact Hs|exact Ht].
  - destruct (execute_target_classification toy_int 0%nat hang_world
                (write_input_file (fuzz_input_path (pid hang_world)) 0%nat hang_world).2)
      as (result & w' & Hrun & Ht & Hc & _).
    + vm_compute. reflexivity.
    + exists result, w'. split; [exact Hrun|]. split; [exact Ht|exact Hc].
Defined.

Lemma block_shuffle_effect_witness :
  exists b' w',
    block_shuffle 0%nat overlap_world = (Ok 0%nat, w')
    /\ heap w' !! 0%nat = Some (ODict (with_bytes (raw_input bytes_0_to_7) b'))
    /\ length b' = 8%nat
    /\ b' = shuffled bytes_0_to_7 0 1 4
    /\ cursor w' = 3%nat.
Proof.
  destruct (block_shuffle_effect 0%nat (raw_input bytes_0_to_7) bytes_0_to_7 overlap_world
              eq_refl eq_refl)
    as (b' & w' & Hrun & Hheap & Hlen & _ & _ & _ & Hdrawn).
  destruct Hdrawn as (_ & _ & Hw & _ & Hshuffled & _);
    [vm_compute; discriminate|vm_compute; discriminate|].
  exists b', w'. split; [exact Hrun|]. split; [exact Hheap|]. split; [exact Hlen|].
  split; [apply Hshuffled; vm_compute; discriminate|].
  rewrite Hw. reflexivity.
Defined.

Lemma save_interesting_input_effect_witness :
  exists w',
    save_interesting_input (benign_result 0%nat) same_second_world = (Ok tt, w')
    /\ fs w' !! "fuzz_corpus/id_1700000000_.bin"%string = Some (File 420 ["001"%byte]).
Proof.
  destruct (save_interesting_input_effect (benign_result 0%nat) same_second_world)
    as (res & w' & Hrun & _ & _ & Hfile).
  destruct (Hfile 1700000000 0%nat (raw_input ["001"%byte]) ["001"%byte])
    as [Hres Hcontent]; try reflexivity.
  - vm_compute. discriminate.
  - exists w'. split; [by rewrite <- Hres|exact Hcontent].
Defined.

Lemma write_read_structured_witness :
  exists w1 y w2 p' r' mode,
    write_input_file "camera.bin" 0%nat far_camera_world = (Ok tt, w1)
    /\ read_input_file "camera.bin" w1 = (Ok y, w2)
    /\ heap w2 !! y
       = Some (ODict {| position := Some p'; rotation := Some r';
                        zoom := Some (round32 (PyFloat.of_Z 5));
                        bytes := Some (concat (map Struct.pack_f
                          ([PyFloat.of_Z 16777217; PyFloat.zero; PyFloat.zero]
                           ++ [PyFloat.one; PyFloat.zero; PyFloat.zero; PyFloat.zero]
                           ++ [PyFloat.of_Z 5]))) |})
    /\ fs w1 !! "camera.bin"%string
       = Some (File mode (concat (map Struct.pack_f
                 ([PyFloat.of_Z 16777217; PyFloat.zero; PyFloat.zero]
                  ++ [PyFloat.one; PyFloat.zero; PyFloat.zero; PyFloat.zero]
                  ++ [PyFloat.of_Z 5]))))
    /\ heap w2 !! p'
       = Some (OList (map round32 [PyFloat.of_Z 16777217; PyFloat.zero; PyFloat.zero])).
Proof.
  destruct (write_read_structured "camera.bin" 0%nat 1%nat 2%nat (PyFloat.of_Z 5)
              [PyFloat.of_Z 16777217; PyFloat.zero; PyFloat.zero]
              [PyFloat.one; PyFloat.zero; PyFloat.zero; PyFloat.zero]
              far_camera_world eq_refl eq_refl eq_refl eq_refl eq_refl)
    as (w1 & y & w2 & p' & r' & mode & Hw & Hf & _ & Hr & Hy & Hp & _).
  - vm_compute. discriminate.
  - exists w1, y, w2, p', r', mode. repeat split; assumption.
Defined.

(** ** The further properties at concrete inputs *)

Lemma byte_strategies_skip_without_payload_witness :
  splice_inputs 0%nat arithmetic_world = (Ok 0%nat, arithmetic_world).
Proof.
  apply (byte_strategies_skip_without_payload splice_inputs 0%nat
           (structured 1%nat 2%nat (PyFloat.of_Z 5)) arithmetic_world).
  - unfold byte_strategies. set_solver.
  - reflexivity.
  - reflexivity.
Defined.

Lemma mutate_input_copy_on_write_witness :
  heap (mutate_input 0%nat arithmetic_world).2 !! 0%nat
  = Some (ODict (structured 1%nat 2%nat (PyFloat.of_Z 5)))
  /\ length (heap (mutate_input 0%nat arithmetic_world).2) = 4%nat.
Proof.
  destruct (mutate_input_copy_on_write 0%nat (structured 1%nat 2%nat (PyFloat.of_Z 5))
              arithmetic_world eq_refl)
    as (_ & Hlen & Hold & _).
  split; [apply Hold; reflexivity|exact Hlen].
Defined.

Lemma mutate_input_total_witness :
  exists w' d',
    mutate_input 0%nat arithmetic_world = (Ok 3%nat, w')
    /\ well_formed_at 3%nat d' (heap w')
    /\ same_shape (structured 1%nat 2%nat (PyFloat.of_Z 5)) d'.
Proof.
  apply (mutate_input_total 0%nat (structured 1%nat 2%nat (PyFloat.of_Z 5)) arithmetic_world).
  split; [reflexivity|]. split; eexists; (split; [reflexivity|reflexivity]).
Defined.

Lemma bit_flip_effect_witness :
  exists b' w',
    bit_flip 0%nat overlap_world = (Ok 0%nat, w')
    /\ heap w' !! 0%nat = Some (ODict (with_bytes (raw_input bytes_0_to_7) b'))
    /\ length b' = 8%nat.
Proof.
  destruct (bit_flip_effect 0%nat (raw_input bytes_0_to_7) bytes_0_to_7 overlap_world
              eq_refl eq_refl)
    as (b' & w' & flips & Hrun & Hheap & _ & _ & _ & _ & Hlen & _).
  exists b', w'. split; [exact Hrun|]. split; [exact Hheap|exact Hlen].
Defined.

Lemma byte_flip_effect_witness :
  exists b' w',
    byte_flip 0%nat overlap_world = (Ok 0%nat, w')
    /\ heap w' !! 0%nat = Some (ODict (with_bytes (raw_input bytes_0_to_7) b'))
    /\ length b' = 8%nat.
Proof.
  destruct (byte_flip_effect 0%nat (raw_input bytes_0_to_7) bytes_0_to_7 overlap_world
              eq_refl eq_refl)
    as (b' & w' & idxs & Hrun & Hheap & _ & _ & _ & _ & Hlen & _).
  exists b', w'. split; [exact Hrun|]. split; [exact Hheap|exact Hlen].
Defined.

Lemma truncate_extend_effect_witness :
  exists b' w',
    truncate_extend 0%nat overlap_world = (Ok 0%nat, w')
    /\ heap w' !! 0%nat = Some (ODict (with_bytes (raw_input bytes_0_to_7) b'))
    /\ b' <> [].
Proof.
  destruct (truncate_extend_effect 0%nat (raw_input bytes_0_to_7) bytes_0_to_7 overlap_world
              eq_refl eq_refl)
    as (b' & w' & Hrun & Hheap & Hcases).
  exists b', w'. split; [exact Hrun|]. split; [exact Hheap|].
  destruct Hcases as [[-> _]|[(n & Hn & _ & ->)|(ext & _ & ->)]].
  - discriminate.
  - destruct n; [lia|discriminate].
  - discriminate.
Defined.

Lemma splice_inputs_effect_witness :
  exists b' w' start n pos,
    splice_inputs 0%nat splice_world = (Ok 0%nat, w')
    /\ heap w' !! 0%nat = Some (ODict (with_bytes (raw_input bytes_0_to_9) b'))
    /\ (4 <= n <= 32)%nat
    /\ b' = take pos bytes_0_to_9 ++ take n (drop start bytes_0_to_9) ++ drop pos bytes_0_to_9
    /\ length b' = (10 + n)%nat.
Proof.
  destruct (splice_inputs_effect 0%nat (raw_input bytes_0_to_9) bytes_0_to_9 splice_world
              eq_refl eq_refl)
    as (b' & w' & Hrun & Hheap & _ & Hlong).
  destruct Hlong as (start & n & pos & Hn & _ & _ & Hb & Hlen); [vm_compute; reflexivity|].
  exists b', w', start, n, pos.
  split; [exact Hrun|]. split; [exact Hheap|]. split; [exact Hn|].
  split; [exact Hb|exact Hlen].
Defined.

Lemma dictionary_mutation_effect_witness :
  exists b' w',
    dictionary_mutation 0%nat overlap_world = (Ok 0%nat, w')
    /\ heap w' !! 0%nat = Some (ODict (with_bytes (raw_input bytes_0_to_7) b'))
    /\ length b' = 8%nat.
Proof.
  destruct (dictionary_mutation_effect 0%nat (raw_input bytes_0_to_7) bytes_0_to_7
              overlap_world eq_refl eq_refl)
    as (token & b' & w' & Hrun & Hheap & _ & Hlen & _).
  exists b', w'. split; [exact Hrun|]. split; [exact Hheap|exact Hlen].
Defined.

Lemma hash_coverage_order_insensitive_witness :
  hash_coverage toy_digest [2; 1] = hash_coverage toy_digest [1; 2].
Proof. apply hash_coverage_order_insensitive. apply perm_swap. Defined.

Lemma write_input_file_failure_truncates_witness :
  fs malformed_world !! "out.bin"%string <> Some Dir
  /\ exists c,
       (write_input_file "out.bin" 0%nat malformed_world).2
       = written "out.bin" c malformed_world.
Proof.
  destruct (write_input_file_failure_truncates "out.bin" 0%nat
              (structured 1%nat 2%nat (PyFloat.of_Z 5)) StructError malformed_world
              (write_input_file "out.bin" 0%nat malformed_world).2)
    as (_ & Hpath & c & Hc & _).
  - reflexivity.
  - vm_compute. reflexivity.
  - by left.
  - split; [exact Hpath|]. exists c. exact Hc.
Defined.

Lemma new_coverage_is_reported_once_witness :
  exists v w1,
    is_interesting toy_digest covered_result overlap_world = (Ok v, w1)
    /\ is_interesting toy_digest covered_result_sorted w1 = (Ok false, w1).
Proof.
  destruct (new_coverage_is_reported_once toy_digest covered_result covered_result_sorted
              [2; 1] [1; 2] overlap_world)
    as (v & w1 & H1 & _ & H2); try reflexivity.
  - discriminate.
  - apply perm_swap.
  - simpl. lia.
  - exists v, w1. split; [exact H1|exact H2].
Defined.

Lemma fuzz_iteration_result_witness :
  exists r w',
    fuzz_iteration toy_digest toy_int 0%nat overlap_world = (Ok r, w')
    /\ input r = Some 1%nat
    /\ heap w' !! 0%nat = Some (ODict (raw_input bytes_0_to_7)).
Proof.
  destruct (fuzz_iteration toy_digest toy_int 0%nat overlap_world) as [res w'] eqn:E.
  assert (exists r, res = Ok r) as [r ->].
  { apply (f_equal fst) in E. vm_compute in E. rewrite <- E. eauto. }
  destruct (fuzz_iteration_result toy_digest toy_int 0%nat (raw_input bytes_0_to_7)
              overlap_world r w' eq_refl E)
    as (Hin & Hseed & _).
  exists r, w'. split; [reflexivity|]. split; [exact Hin|exact Hseed].
Defined.

Lemma save_crash_layout_witness :
  exists w',
    save_crash toy_digest toy_json (segv_result 0%nat) overlap_world = (Ok tt, w')
    /\ tick w' = 1%nat.
Proof.
  destruct (save_crash_layout toy_digest toy_json (segv_result 0%nat) 11 0%nat
              (raw_input bytes_0_to_7) bytes_0_to_7 overlap_world
              eq_refl eq_refl eq_refl eq_refl)
    as (w' & Hrun & _ & _ & _ & Htick).
  - vm_compute. set_solver.
  - intros m c. vm_compute. discriminate.
  - intros name. apply lookup_empty.
  - exists w'. split; [exact Hrun|exact Htick].
Defined.

Lemma extract_coverage_reads_cov_lines_witness :
  extract_coverage toy_parser (render sample_output) = Some [7; 12].
Proof.
  apply (extract_coverage_reads_cov_lines toy_parser sample_output).
  - repeat constructor; discriminate.
  - repeat constructor.
Defined.

Lemma decoded_fields_encode_back_witness :
  exists l w' p r,
    read_input_file "fuzz_corpus/long.bin" corpus_world = (Ok l, w')
    /\ encode_input (heap w') (structured p r (decoded_zoom thirty_three_bytes))
       = Some (replicate 32 "000"%byte).
Proof.
  destruct (decoded_fields_encode_back "fuzz_corpus/long.bin" 420 thirty_three_bytes
              corpus_world)
    as (l & w' & p & r & Hrun & _ & Henc).
  - vm_compute. reflexivity.
  - vm_compute. discriminate.
  - repeat constructor; intros H; vm_compute in H; discriminate.
  - exists l, w', p, r. split; [exact Hrun|exact Henc].
Defined.

Lemma partial_input_reads_back_raw_witness :
  exists b w1 w2,
    write_input_file "zoom.bin" 0%nat zoom_only_world = (Ok tt, w1)
    /\ length b = 4%nat
    /\ read_input_file "zoom.bin" w1 = (Ok 1%nat, w2)
    /\ heap w2 !! 1%nat = Some (ODict (raw_input b)).
Proof.
  destruct (partial_input_reads_back_raw "zoom.bin" 0%nat zoom_only zoom_only_world)
    as (b & w1 & w2 & Hw & Hlen & _ & Hr & Hh).
  - reflexivity.
  - reflexivity.
  - split; exact I.
  - left. reflexivity.
  - vm_compute. discriminate.
  - exists b, w1, w2. split; [exact Hw|]. split; [exact Hlen|]. split; [exact Hr|exact Hh].
Defined.

Lemma arithmetic_mutation_effect_witness :
  exists w',
    arithmetic_mutation 0%nat arithmetic_world = (Ok 0%nat, w')
    /\ cursor w' = 3%nat.
Proof.
  destruct (arithmetic_mutation_effect 0%nat (structured 1%nat 2%nat (PyFloat.of_Z 5)) 1%nat
              [PyFloat.zero; PyFloat.zero; PyFloat.zero] (PyFloat.of_Z 5) arithmetic_world)
    as (idx & x & delta & zdelta & w' & Hrun & _ & _ & _ & _ & Hw'); try reflexivity.
  exists w'. split; [exact Hrun|]. rewrite Hw'. reflexivity.
Defined.

Lemma interesting_values_effect_witness :
  exists w',
    interesting_values 0%nat interesting_world = (Ok 0%nat, w')
    /\ length (heap w') = 3%nat.
Proof.
  destruct (interesting_values_effect 0%nat (structured 1%nat 2%nat (PyFloat.of_Z 5))
              1%nat 2%nat [PyFloat.zero; PyFloat.zero; PyFloat.zero]
              [PyFloat.one; PyFloat.zero; PyFloat.zero; PyFloat.zero] (PyFloat.of_Z 5)
              interesting_world)
    as (pos' & rot' & z' & w' & Hrun & _ & _ & _ & Hheap); try reflexivity.
  exists w'. split; [exact Hrun|]. rewrite Hheap. by rewrite !length_insert.
Defined.

Lemma execute_target_keeps_file_on_encoding_error_witness :
  exists c w1,
    execute_target toy_int 0%nat malformed_world = (Raise StructError, w1)
    /\ fs w1 !! fuzz_input_path 4242 = Some (File 420 c).
Proof.
  destruct (execute_target_keeps_file_on_encoding_error toy_int 0%nat StructError
              malformed_world
              (write_input_file (fuzz_input_path 4242) 0%nat malformed_world).2)
    as (Hrun & c & Hc).
  - vm_compute. discriminate.
  - vm_compute. reflexivity.
  - exists c, (write_input_file (fuzz_input_path 4242) 0%nat malformed_world).2.
    split; [exact Hrun|]. rewrite Hc. unfold written. simpl. apply lookup_insert_eq.
Defined.

Lemma generate_initial_corpus_seeds_witness :
  exists corpus w',
    generate_initial_corpus (fun x => x) overlap_world = (Ok corpus, w')
    /\ length corpus = 13%nat
    /\ cursor w' = 90%nat.
Proof.
  destruct (generate_initial_corpus_seeds (fun x => x) overlap_world)
    as (corpus & new & f & Hrun & Hlen & _).
  - apply Forall_forall. intros q _. vm_compute. discriminate.
  - eexists _, _. split; [exact Hrun|]. split; [exact Hlen|reflexivity].
Defined.

Lemma second_round_trip_is_stable_witness :
  exists w1 y w2 p1 r1 z1 w4 y' w5,
    write_input_file "camera.bin" 0%nat far_camera_world = (Ok tt, w1)
    /\ read_input_file "camera.bin" w1 = (Ok y, w2)
    /\ write_input_file "again.bin" (length (heap w2))
         (set_heap (heap w2 ++ [ODict (structured p1 r1 z1)]) w2)
       = (Ok tt, w4)
    /\ read_input_file "again.bin" w4 = (Ok y', w5).
Proof.
  destruct (second_round_trip_is_stable "camera.bin" "again.bin" 0%nat 1%nat 2%nat
              (PyFloat.of_Z 5)
              [PyFloat.of_Z 16777217; PyFloat.zero; PyFloat.zero]
              [PyFloat.one; PyFloat.zero; PyFloat.zero; PyFloat.zero]
              far_camera_world eq_refl eq_refl eq_refl eq_refl eq_refl)
    as (w1 & y & w2 & new & p1 & r1 & z1 & pos1 & rot1
        & Hw & E1 & Hr & E2 & Hy & Hp1 & Hr1 & Hagain).
  - vm_compute. discriminate.
  - destruct (Hagain (length (heap w2))
                (set_heap (heap w2 ++ [ODict (structured p1 r1 z1)]) w2))
      as (w4 & y' & w5 & _ & _ & _ & Hw' & _ & Hr' & _).
    + cbn [heap set_heap]. rewrite lookup_app_r by lia. by rewrite Nat.sub_diag.
    + by apply lookup_app_l_Some.
    + by apply lookup_app_l_Some.
    + rewrite E2, E1. vm_compute. discriminate.
    + exists w1, y, w2, p1, r1, z1, w4, y', w5.
      split; [exact Hw|]. split; [exact Hr|]. split; [exact Hw'|exact Hr'].
Defined.
